(** * Scene layout and semantic change of render_sc_images_drop.py

    A shallow embedding of the placement, mutation, relationship and
    visibility code of [image_generation/render_sc_images_drop.py], of
    its two render functions, of [render_shadeless] and of the loop of
    [main], and of the three scripts of [caption_generation].

    Python floats are read as exact rationals ([Q]); [math.sqrt] is a
    parameter.  Object dictionaries live in a store of cells addressed by
    [loc], so that [copy.deepcopy] and the in-place update of
    ['pixel_coords'] keep their aliasing.  The calls into Blender ([utils],
    [bpy]) and the random generator are parameters of the model. *)

From Stdlib Require Import QArith Qround Lqa ZArith Lia List Ascii String Bool.
From stdpp Require Import base list strings gmap sorting pretty.
Import ListNotations.

Local Open Scope string_scope.
Local Open Scope list_scope.
Local Open Scope Q_scope.

(** ** Numbers *)

Definition Qltb (a b : Q) : bool := negb (Qle_bool b a).

Definition vec3 : Type := Q * Q * Q.

Definition vx (v : vec3) : Q := fst (fst v).
Definition vy (v : vec3) : Q := snd (fst v).
Definition vz (v : vec3) : Q := snd v.

(** [-v] on a [mathutils.Vector]. *)
Definition vneg (v : vec3) : vec3 := (- vx v, - vy v, - vz v).

(** Equality of two float triples, as Python's [==] on tuples. *)
Definition vec3_eqb (u v : vec3) : bool :=
  Qeq_bool (vx u) (vx v) && Qeq_bool (vy u) (vy v) && Qeq_bool (vz u) (vz v).

(** ** Scene data *)

(** [scene_struct['directions']]: the six entries that both render
    functions store, in the order in which they are inserted. *)
Record Directions := {
  d_behind : vec3;
  d_front : vec3;
  d_left : vec3;
  d_right : vec3;
  d_above : vec3;
  d_below : vec3
}.

(** Lines 455-460 and 593-598: the directions saved in the scene struct. *)
Definition make_directions (plane_behind plane_left plane_up : vec3) : Directions :=
  {| d_behind := plane_behind;
     d_front := vneg plane_behind;
     d_left := plane_left;
     d_right := vneg plane_left;
     d_above := plane_up;
     d_below := vneg plane_up |}.

(** [scene_struct['directions'].items()], in insertion order. *)
Definition directions_items (d : Directions) : list (string * vec3) :=
  [("behind", d_behind d); ("front", d_front d); ("left", d_left d);
   ("right", d_right d); ("above", d_above d); ("below", d_below d)].

Fixpoint assoc {B} (l : list (string * B)) (k : string) : option B :=
  match l with
  | [] => None
  | (k', v) :: rest => if String.eqb k' k then Some v else assoc rest k
  end.

(** [scene_struct['directions'][name]]. *)
Definition directions_get (d : Directions) (name : string) : option vec3 :=
  assoc (directions_items d) name.

(** What [utils.get_camera_coords] returns: pixel column, pixel row, depth. *)
Definition PixelCoords : Type := Z * Z * Q.

(** One entry of [scene_struct['objects']]. *)
Record Obj := {
  o_shape : string;
  o_size : string;
  o_material : string;
  o_3d_coords : vec3;
  o_rotation : Q;
  o_pixel_coords : option PixelCoords;
  o_color : string
}.

Definition set_pixel_coords (o : Obj) (pc : option PixelCoords) : Obj :=
  {| o_shape := o_shape o; o_size := o_size o; o_material := o_material o;
     o_3d_coords := o_3d_coords o; o_rotation := o_rotation o;
     o_pixel_coords := pc; o_color := o_color o |}.

Definition set_color (o : Obj) (c : string) : Obj :=
  {| o_shape := o_shape o; o_size := o_size o; o_material := o_material o;
     o_3d_coords := o_3d_coords o; o_rotation := o_rotation o;
     o_pixel_coords := o_pixel_coords o; o_color := c |}.

Definition set_material (o : Obj) (m : string) : Obj :=
  {| o_shape := o_shape o; o_size := o_size o; o_material := m;
     o_3d_coords := o_3d_coords o; o_rotation := o_rotation o;
     o_pixel_coords := o_pixel_coords o; o_color := o_color o |}.

(** The fields that a semantic change is about: everything except
    ['pixel_coords']. *)
Definition semantic_fields (o : Obj) : string * string * string * string * Q * vec3 :=
  (o_shape o, o_size o, o_material o, o_color o, o_rotation o, o_3d_coords o).

(** Python's [==] on two object dictionaries. *)
Definition pixel_coords_eqb (a b : option PixelCoords) : bool :=
  match a, b with
  | None, None => true
  | Some (px, py, pz), Some (qx, qy, qz) =>
      Z.eqb px qx && Z.eqb py qy && Qeq_bool pz qz
  | _, _ => false
  end.

Definition obj_eqb (a b : Obj) : bool :=
  String.eqb (o_shape a) (o_shape b) && String.eqb (o_size a) (o_size b)
  && String.eqb (o_material a) (o_material b)
  && vec3_eqb (o_3d_coords a) (o_3d_coords b)
  && Qeq_bool (o_rotation a) (o_rotation b)
  && pixel_coords_eqb (o_pixel_coords a) (o_pixel_coords b)
  && String.eqb (o_color a) (o_color b).

(** A Blender object as the script makes it: the arguments of
    [utils.add_object] and of [utils.add_material]. *)
Record BlenderObj := {
  bo_name : string;
  bo_scale : Q;
  bo_x : Q;
  bo_y : Q;
  bo_theta : Q;
  bo_material : string;
  bo_rgba : list Q
}.

(** An entry of the [positions] lists: [(x, y, r)]. *)
Definition bo_position (b : BlenderObj) : Q * Q * Q := (bo_x b, bo_y b, bo_scale b).

(** The property file ([args.properties_json]), each dictionary as its
    list of items. *)
Record Properties := {
  p_colors : list (string * list Z);
  p_materials : list (string * string);
  p_shapes : list (string * string);
  p_sizes : list (string * Q)
}.

(** The command-line arguments that the layout code reads;
    [a_shape_color_combos] is the content of [--shape_color_combos_json]. *)
Record Args := {
  a_min_dist : Q;
  a_margin : Q;
  a_max_retries : Z;
  a_min_pixels_per_object : Z;
  a_shape_color_combos : option (list (string * list string))
}.

(** The services of the host: [obj.location] of a new object,
    [utils.get_camera_coords(camera, .)] and the pixel buffer
    [list(img.pixels)] of the image that [render_shadeless] writes
    (one number per channel, four channels per pixel). *)
Record Blender := {
  object_location : BlenderObj -> vec3;
  get_camera_coords : vec3 -> PixelCoords;
  shadeless_pixels : list BlenderObj -> list Z
}.

(** The random generator: the k-th number drawn for an integer choice,
    for [random.uniform] and for [random.random]. *)
Record RandomSource := {
  rs_int : nat -> nat;
  rs_uniform : nat -> Q;
  rs_random : nat -> Q
}.

(** ** Store, exceptions and the monad of the script *)

(** A reference to an object dictionary: the index of its cell. *)
Abbreviation loc := nat (only parsing).

Record State := {
  heap : list Obj;
  n_int : nat;
  n_uniform : nat;
  n_random : nat
}.

Inductive exn :=
| IndexError | KeyError | ValueError | AssertionError
| RecursionError   (* the restart recursion ran out of depth *)
| NoFuel           (* a [while True] loop did not end within its fuel *)
| BadRef.          (* a reference to no cell; never the case in Python *)

Inductive result (A : Type) :=
| Ok (a : A)
| Raise (e : exn).
Arguments Ok {A} a.
Arguments Raise {A} e.

Definition M (A : Type) : Type := State -> result A * State.

Definition ret {A} (a : A) : M A := fun st => (Ok a, st).
Definition raise {A} (e : exn) : M A := fun st => (Raise e, st).
Definition bind {A B} (m : M A) (k : A -> M B) : M B :=
  fun st => match m st with
            | (Ok a, st') => k a st'
            | (Raise e, st') => (Raise e, st')
            end.
Definition lift {A} (r : result A) : M A := fun st => (r, st).

Declare Scope py_scope.
Delimit Scope py_scope with py.
Notation "x <- m ; k" := (bind m (fun x => k))
  (at level 20, m at level 100, k at level 200, only parsing) : py_scope.
Notation "' pat <- m ; k" := (bind m (fun x => match x with pat => k end))
  (at level 20, pat pattern, m at level 100, k at level 200, only parsing) : py_scope.
Local Open Scope py_scope.

Definition rbind {A B} (r : result A) (k : A -> result B) : result B :=
  match r with Ok a => k a | Raise e => Raise e end.

Definition read (a : loc) : M Obj :=
  fun st => match heap st !! a with
            | Some o => (Ok o, st)
            | None => (Raise BadRef, st)
            end.

(** A new dictionary: a new cell at the end of the store. *)
Definition alloc (o : Obj) : M loc :=
  fun st => (Ok (length (heap st)),
             {| heap := heap st ++ [o]; n_int := n_int st;
                n_uniform := n_uniform st; n_random := n_random st |}).

(** [obj['pixel_coords'] = pc]. *)
Definition write_pixel_coords (a : loc) (pc : option PixelCoords) : M unit :=
  fun st => match heap st !! a with
            | Some o => (Ok tt,
                {| heap := <[a := set_pixel_coords o pc]> (heap st);
                   n_int := n_int st; n_uniform := n_uniform st;
                   n_random := n_random st |})
            | None => (Raise BadRef, st)
            end.

Definition write_color (a : loc) (c : string) : M unit :=
  fun st => match heap st !! a with
            | Some o => (Ok tt,
                {| heap := <[a := set_color o c]> (heap st);
                   n_int := n_int st; n_uniform := n_uniform st;
                   n_random := n_random st |})
            | None => (Raise BadRef, st)
            end.

Definition write_material (a : loc) (m : string) : M unit :=
  fun st => match heap st !! a with
            | Some o => (Ok tt,
                {| heap := <[a := set_material o m]> (heap st);
                   n_int := n_int st; n_uniform := n_uniform st;
                   n_random := n_random st |})
            | None => (Raise BadRef, st)
            end.

(** [copy.deepcopy(obj)]: the values of an object dictionary are strings,
    numbers and tuples, so the copy is one new dictionary. *)
Definition deepcopy (a : loc) : M loc :=
  o <- read a; alloc o.

(** ** The script *)

Section Script.

(** [math.sqrt]. *)
Variable sqrt : Q -> Q.
Variable bl : Blender.
Variable rs : RandomSource.
(** [properties = json.load(f)] and [args]. *)
Variable properties : Properties.
Variable args : Args.
(** [scene_struct['directions']]. *)
Variable directions : Directions.

(** *** The tables read from the property file (lines 657-671, 776-790) *)

Definition color_name_to_rgba : list (string * list Q) :=
  map (fun '(name, rgb) => (name, map (fun c => inject_Z c / 255) rgb ++ [1]))
      (p_colors properties).
Definition material_mapping : list (string * string) :=
  map (fun '(k, v) => (v, k)) (p_materials properties).
Definition object_mapping : list (string * string) :=
  map (fun '(k, v) => (v, k)) (p_shapes properties).
Definition size_mapping : list (string * Q) := p_sizes properties.
Definition shape_color_combos : option (list (string * list string)) :=
  a_shape_color_combos args.

(** [[f(e) for e in l if p(e)][0]]. *)
Definition first_match {A B} (p : A -> bool) (f : A -> B) (l : list A) : result B :=
  match List.filter p l with
  | [] => Raise IndexError
  | a :: _ => Ok (f a)
  end.

(** [[k for k, v in mapping if v == name][0]]. *)
Definition key_of {A} (mapping : list (A * string)) (name : string) : result A :=
  first_match (fun kv => String.eqb (snd kv) name) fst mapping.

(** [[v for k, v in mapping if k == name][0]]. *)
Definition value_of {B} (mapping : list (string * B)) (name : string) : result B :=
  first_match (fun kv => String.eqb (fst kv) name) snd mapping.

(** [d[k]] on a dictionary. *)
Definition getitem {B} (d : list (string * B)) (k : string) : result B :=
  match assoc d k with
  | Some v => Ok v
  | None => Raise KeyError
  end.

(** [if obj_name == 'Cube': r /= math.sqrt(2)]. *)
Definition cube_adjust (obj_name : string) (r : Q) : Q :=
  if String.eqb obj_name "Cube" then r / sqrt 2 else r.

(** *** The random module *)

Definition next_int : M nat :=
  fun st => (Ok (rs_int rs (n_int st)),
             {| heap := heap st; n_int := S (n_int st);
                n_uniform := n_uniform st; n_random := n_random st |}).

(** [random.choice(l)]. *)
Definition choice {A} (l : list A) : M A :=
  match l with
  | [] => raise IndexError
  | _ :: _ =>
      k <- next_int;
      match l !! (k mod length l)%nat with
      | Some a => ret a
      | None => raise IndexError
      end
  end.

(** [random.randint(a, b)]. *)
Definition randint (a b : Z) : M Z :=
  let width := (b - a + 1)%Z in
  if (width <=? 0)%Z then raise ValueError
  else k <- next_int; ret (a + Z.of_nat k mod width)%Z.

(** [random.uniform(a, b)], which is [a + (b - a) * random()]. *)
Definition uniform (a b : Q) : M Q :=
  fun st => (Ok (a + (b - a) * rs_uniform rs (n_uniform st)),
             {| heap := heap st; n_int := n_int st;
                n_uniform := S (n_uniform st); n_random := n_random st |}).

(** [random.random()]. *)
Definition random : M Q :=
  fun st => (Ok (rs_random rs (n_random st)),
             {| heap := heap st; n_int := n_int st;
                n_uniform := n_uniform st; n_random := S (n_random st) |}).

(** *** check_dist_margin (lines 812-836), also inlined at lines 696-714 *)

Definition cardinal_names : list string := ["left"; "right"; "front"; "behind"].

(** The loop over the four direction names; the result is [margins_good]. *)
Fixpoint check_margins (names : list string) (dx dy : Q) : result bool :=
  match names with
  | [] => Ok true
  | direction_name :: rest =>
      match directions_get directions direction_name with
      | None => Raise KeyError
      | Some direction_vec =>
          if Qeq_bool (vz direction_vec) 0 then
            let margin := dx * vx direction_vec + dy * vy direction_vec in
            if Qltb 0 margin && Qltb margin (a_margin args) then Ok false
            else check_margins rest dx dy
          else Raise AssertionError
      end
  end.

(** The loop over the positions; the result is [dists_good and margins_good]. *)
Fixpoint check_positions (x y r : Q) (other_positions : list (Q * Q * Q)) : result bool :=
  match other_positions with
  | [] => Ok true
  | (xx, yy, rr) :: rest =>
      let dx := x - xx in
      let dy := y - yy in
      let dist := sqrt (dx * dx + dy * dy) in
      if Qltb (dist - r - rr) (a_min_dist args) then Ok false
      else rbind (check_margins cardinal_names dx dy)
             (fun margins_good =>
                if margins_good then check_positions x y r rest else Ok false)
  end.

Definition check_dist_margin (this_position : Q * Q * Q)
    (other_positions : list (Q * Q * Q)) : result bool :=
  let '(x, y, r) := this_position in check_positions x y r other_positions.

(** The [while True] loop that samples a position (lines 683-717 and
    901-913).  [num_tries] runs from 1 and the loop gives up when it
    exceeds [args.max_retries]: [tries] is the number of candidates that
    are left.  [None] is the exit on too many tries. *)
Fixpoint sample_position (tries : nat) (r : Q) (positions : list (Q * Q * Q))
    : M (option (Q * Q)) :=
  match tries with
  | O => ret None
  | S tries' =>
      x <- uniform (-3) 3;
      y <- uniform (-3) 3;
      good <- lift (check_dist_margin (x, y, r) positions);
      if good then ret (Some (x, y)) else sample_position tries' r positions
  end.

(** Choose random color and shape (lines 719-727 and 915-923):
    [(obj_name, obj_name_out, color_name, rgba)]. *)
Definition choose_shape_color : M (string * string * string * list Q) :=
  match shape_color_combos with
  | None =>
      '(obj_name, obj_name_out) <- choice object_mapping;
      '(color_name, rgba) <- choice color_name_to_rgba;
      ret (obj_name, obj_name_out, color_name, rgba)
  | Some combos =>
      '(obj_name_out, color_choices) <- choice combos;
      color_name <- choice color_choices;
      obj_name <- lift (key_of object_mapping obj_name_out);
      rgba <- lift (getitem color_name_to_rgba color_name);
      ret (obj_name, obj_name_out, color_name, rgba)
  end.

(** *** check_visibility (lines 1006-1029) *)

Definition RGBA : Type := Z * Z * Z * Z.

Definition rgba_eqb (a b : RGBA) : bool :=
  let '(a1, a2, a3, a4) := a in
  let '(b1, b2, b3, b4) := b in
  Z.eqb a1 b1 && Z.eqb a2 b2 && Z.eqb a3 b3 && Z.eqb a4 b4.

(** [(p[i], p[i+1], p[i+2], p[i+3]) for i in range(0, len(p), 4)]. *)
Fixpoint pixel_tuples (p : list Z) : result (list RGBA) :=
  match p with
  | [] => Ok []
  | r :: g :: b :: a :: rest =>
      rbind (pixel_tuples rest) (fun l => Ok ((r, g, b, a) :: l))
  | _ => Raise IndexError
  end.

(** [collections.Counter]: the keys in the order of their first
    occurrence, each with its count. *)
Fixpoint counter_add (c : RGBA) (cc : list (RGBA * Z)) : list (RGBA * Z) :=
  match cc with
  | [] => [(c, 1%Z)]
  | (k, n) :: rest =>
      if rgba_eqb k c then (k, (n + 1)%Z) :: rest else (k, n) :: counter_add c rest
  end.

Definition Counter (l : list RGBA) : list (RGBA * Z) :=
  fold_left (fun cc c => counter_add c cc) l [].

(** [most_common()]: sorted by decreasing count, equal counts in the
    order of the counter. *)
Fixpoint insert_by_count (e : RGBA * Z) (l : list (RGBA * Z)) : list (RGBA * Z) :=
  match l with
  | [] => [e]
  | h :: t => if (snd h <=? snd e)%Z then e :: h :: t else h :: insert_by_count e t
  end.

Definition most_common (cc : list (RGBA * Z)) : list (RGBA * Z) :=
  fold_right insert_by_count [] cc.

(** [for _, count in ...: if count < min_pixels_per_object: return False]
    and then [return True]. *)
Fixpoint counts_loop (l : list (RGBA * Z)) (min_pixels_per_object : Z) : bool :=
  match l with
  | [] => true
  | (_, count) :: rest =>
      if (count <? min_pixels_per_object)%Z then false
      else counts_loop rest min_pixels_per_object
  end.

(** The check on the pixel buffer [p] of the shadeless image. *)
Definition check_pixels (p : list Z) (num_objects : nat) (min_pixels_per_object : Z)
    : result bool :=
  rbind (pixel_tuples p) (fun tuples =>
    let color_count := Counter tuples in
    if negb (length color_count =? num_objects + 1)%nat then Ok false
    else Ok (counts_loop (most_common color_count) min_pixels_per_object)).

Definition check_visibility (blender_objects : list BlenderObj)
    (min_pixels_per_object : Z) : result bool :=
  check_pixels (shadeless_pixels bl blender_objects) (length blender_objects)
    min_pixels_per_object.

(** *** add_random_objects (lines 652-768) *)

(** The body of [for i in range(num_objects)] with the lists
    [positions], [objects] and [blender_objects] that it extends.
    [None] stands for the two places at which the function gives the
    scene up and calls itself again. *)
Fixpoint place_objects (num_objects : nat) (positions : list (Q * Q * Q))
    (objects : list Obj) (blender_objects : list BlenderObj)
    : M (option (list Obj * list BlenderObj)) :=
  match num_objects with
  | O => ret (Some (objects, blender_objects))
  | S rest =>
      '(size_name, r) <- choice size_mapping;
      placed <- sample_position (Z.to_nat (a_max_retries args)) r positions;
      match placed with
      | None => ret None
      | Some (x, y) =>
          '(obj_name, obj_name_out, color_name, rgba) <- choose_shape_color;
          let r := cube_adjust obj_name r in
          theta0 <- random;
          let theta := 360 * theta0 in
          '(mat_name, mat_name_out) <- choice material_mapping;
          let obj := {| bo_name := obj_name; bo_scale := r; bo_x := x; bo_y := y;
                        bo_theta := theta; bo_material := mat_name;
                        bo_rgba := rgba |} in
          let pixel_coords := get_camera_coords bl (object_location bl obj) in
          place_objects rest (positions ++ [(x, y, r)])
            (objects ++ [{| o_shape := obj_name_out; o_size := size_name;
                            o_material := mat_name_out;
                            o_3d_coords := object_location bl obj;
                            o_rotation := theta;
                            o_pixel_coords := Some pixel_coords;
                            o_color := color_name |}])
            (blender_objects ++ [obj])
      end
  end.

(** [depth] is the number of nested calls that the interpreter still
    allows; nothing else bounds the restarts. *)
Fixpoint add_random_objects (depth : nat) (num_objects : nat)
    : M (list Obj * list BlenderObj) :=
  match depth with
  | O => raise RecursionError
  | S depth' =>
      placed <- place_objects num_objects [] [] [];
      match placed with
      | None => add_random_objects depth' num_objects
      | Some (objects, blender_objects) =>
          all_visible <- lift (check_visibility blender_objects
                                 (a_min_pixels_per_object args));
          if all_visible then ret (objects, blender_objects)
          else add_random_objects depth' num_objects
      end
  end.

(** *** apply_change (lines 771-976) *)

Definition render_object (obj : loc) : M (BlenderObj * (Q * Q * Q) * PixelCoords) :=
  o <- read obj;
  obj_name <- lift (key_of object_mapping (o_shape o));
  rgba <- lift (getitem color_name_to_rgba (o_color o));
  r <- lift (value_of size_mapping (o_size o));
  let r := cube_adjust obj_name r in
  let theta := o_rotation o in
  mat_name <- lift (key_of material_mapping (o_material o));
  let '(x, y, z) := o_3d_coords o in
  let position := (x, y, r) in
  let new_blend_obj := {| bo_name := obj_name; bo_scale := r; bo_x := x; bo_y := y;
                          bo_theta := theta; bo_material := mat_name;
                          bo_rgba := rgba |} in
  ret (new_blend_obj, position,
       get_camera_coords bl (object_location bl new_blend_obj)).

(** The [while True] loops of the color and material changes. *)
Fixpoint new_color (fuel : nat) (curr_color_name : string) : M string :=
  match fuel with
  | O => raise NoFuel
  | S fuel' =>
      '(new_color_name, new_rgba) <- choice color_name_to_rgba;
      if negb (String.eqb new_color_name curr_color_name) then ret new_color_name
      else new_color fuel' curr_color_name
  end.

Fixpoint new_material (fuel : nat) (curr_mat_name : string) : M string :=
  match fuel with
  | O => raise NoFuel
  | S fuel' =>
      '(new_mat_name, new_mat_name_out) <- choice material_mapping;
      if negb (String.eqb new_mat_name curr_mat_name) then ret new_mat_name_out
      else new_material fuel' curr_mat_name
  end.

(** [for i, obj in enumerate(default_objects)] of the color change. *)
Fixpoint change_color (fuel : nat) (object_idx i : Z) (objs : list loc)
    (new_objects : list loc) : M (list loc) :=
  match objs with
  | [] => ret new_objects
  | obj :: rest =>
      new_obj <- deepcopy obj;
      _ <- (if (i =? object_idx)%Z then
              o <- read new_obj;
              c <- new_color fuel (o_color o);
              write_color new_obj c
            else ret tt);
      change_color fuel object_idx (i + 1)%Z rest (new_objects ++ [new_obj])
  end.

Fixpoint change_material (fuel : nat) (object_idx i : Z) (objs : list loc)
    (new_objects : list loc) : M (list loc) :=
  match objs with
  | [] => ret new_objects
  | obj :: rest =>
      new_obj <- deepcopy obj;
      _ <- (if (i =? object_idx)%Z then
              o <- read new_obj;
              curr_mat_name <- lift (key_of material_mapping (o_material o));
              m <- new_material fuel curr_mat_name;
              write_material new_obj m
            else ret tt);
      change_material fuel object_idx (i + 1)%Z rest (new_objects ++ [new_obj])
  end.

Fixpoint change_drop (object_idx i : Z) (objs : list loc)
    (new_objects : list loc) : M (list loc) :=
  match objs with
  | [] => ret new_objects
  | obj :: rest =>
      new_obj <- deepcopy obj;
      if (i =? object_idx)%Z then change_drop object_idx (i + 1)%Z rest new_objects
      else change_drop object_idx (i + 1)%Z rest (new_objects ++ [new_obj])
  end.

Fixpoint change_same (objs : list loc) (new_objects : list loc) : M (list loc) :=
  match objs with
  | [] => ret new_objects
  | obj :: rest =>
      new_obj <- deepcopy obj;
      change_same rest (new_objects ++ [new_obj])
  end.

(** The first loop of the add change: the positions of the objects of
    the base scene and their copies. *)
Fixpoint add_collect (objs : list loc) (other_positions : list (Q * Q * Q))
    (new_objects : list loc) : M (list (Q * Q * Q) * list loc) :=
  match objs with
  | [] => ret (other_positions, new_objects)
  | obj :: rest =>
      o <- read obj;
      obj_name <- lift (key_of object_mapping (o_shape o));
      r <- lift (value_of size_mapping (o_size o));
      let r := cube_adjust obj_name r in
      let '(x, y, z) := o_3d_coords o in
      new_obj <- deepcopy obj;
      add_collect rest (other_positions ++ [(x, y, r)]) (new_objects ++ [new_obj])
  end.

(** The add change; [None] is its [return None, None, False]. *)
Definition change_add (default_objects : list loc) : M (option (list loc)) :=
  '(new_size_name, new_r) <- choice size_mapping;
  '(other_positions, new_objects) <- add_collect default_objects [] [];
  placed <- sample_position (Z.to_nat (a_max_retries args)) new_r other_positions;
  match placed with
  | None => ret None
  | Some (new_x, new_y) =>
      '(new_obj_name, new_obj_name_out, new_color_name, new_rgba) <- choose_shape_color;
      theta0 <- random;
      let new_theta := 360 * theta0 in
      '(new_mat_name, new_mat_name_out) <- choice material_mapping;
      new_obj <- alloc {| o_shape := new_obj_name_out; o_size := new_size_name;
                          o_material := new_mat_name_out;
                          o_3d_coords := (new_x, new_y, -1);
                          o_rotation := new_theta;
                          o_pixel_coords := None;
                          o_color := new_color_name |};
      ret (Some (new_objects ++ [new_obj]))
  end.

(** The loop that renders the new objects (lines 958-965);
    [new_positions] is filled there and never read. *)
Fixpoint render_objects (new_objects : list loc) (new_blend_objects : list BlenderObj)
    : M (list BlenderObj) :=
  match new_objects with
  | [] => ret new_blend_objects
  | obj :: rest =>
      '(new_blend_object, new_position, new_pixel_coords) <- render_object obj;
      _ <- write_pixel_coords obj (Some new_pixel_coords);
      render_objects rest (new_blend_objects ++ [new_blend_object])
  end.

(** The chain of [if]/[elif] on [change_type]. *)
Definition changed_objects (fuel : nat) (default_objects : list loc)
    (change_type : string) : M (option (list loc)) :=
  let curr_num_objects := Z.of_nat (length default_objects) in
  if String.eqb change_type "color" then
    object_idx <- randint 0 (curr_num_objects - 1);
    l <- change_color fuel object_idx 0 default_objects [];
    ret (Some l)
  else if String.eqb change_type "material" then
    object_idx <- randint 0 (curr_num_objects - 1);
    l <- change_material fuel object_idx 0 default_objects [];
    ret (Some l)
  else if String.eqb change_type "shape" then ret (Some [])
  else if String.eqb change_type "drop" then
    object_idx <- randint 0 (curr_num_objects - 1);
    l <- change_drop object_idx 0 default_objects [];
    ret (Some l)
  else if String.eqb change_type "add" then change_add default_objects
  else if String.eqb change_type "switch" then ret (Some [])
  else if String.eqb change_type "random" then ret (Some [])
  else if String.eqb change_type "same" then
    l <- change_same default_objects [];
    ret (Some l)
  else ret (Some []).

(** [Some (new_objects, new_blend_objects)] is the return with [True],
    [None] the return [None, None, False]. *)
Definition apply_change (fuel : nat) (default_objects : list loc)
    (change_type : string) : M (option (list loc * list BlenderObj)) :=
  changed <- changed_objects fuel default_objects change_type;
  match changed with
  | None => ret None
  | Some new_objects =>
      new_blend_objects <- render_objects new_objects [];
      all_visible <- lift (check_visibility new_blend_objects
                             (a_min_pixels_per_object args));
      if all_visible then ret (Some (new_objects, new_blend_objects))
      else ret None
  end.

End Script.

(** *** compute_all_relationships (lines 979-1003) *)

Definition dot3 (u v : vec3) : Q := vx u * vx v + vy u * vy v + vz u * vz v.
Definition vsub (u v : vec3) : vec3 := (vx u - vx v, vy u - vy v, vz u - vz v).

(** The default value of [eps]. *)
Definition default_eps : Q := 2 / 10.

(** [for j, obj2 in enumerate(scene_struct['objects'])], from index [j]
    on, adding to the set [related]. *)
Fixpoint related_loop (obj1 : Obj) (direction_vec : vec3) (eps : Q) (j : nat)
    (objs : list Obj) (related : gset nat) : gset nat :=
  match objs with
  | [] => related
  | obj2 :: rest =>
      if obj_eqb obj1 obj2 then related_loop obj1 direction_vec eps (S j) rest related
      else
        let diff := vsub (o_3d_coords obj2) (o_3d_coords obj1) in
        let dot := dot3 diff direction_vec in
        if Qltb eps dot then
          related_loop obj1 direction_vec eps (S j) rest (related ∪ {[ j ]})
        else related_loop obj1 direction_vec eps (S j) rest related
  end.

(** [sorted(list(related))]. *)
Definition sorted (related : gset nat) : list nat :=
  merge_sort Nat.le (elements related).

Definition relationships_for (objects : list Obj) (direction_vec : vec3) (eps : Q)
    : list (list nat) :=
  map (fun obj1 => sorted (related_loop obj1 direction_vec eps 0 objects ∅)) objects.

(** The dictionary [all_relationships] as the list of its items. *)
Fixpoint relationships_loop (objects : list Obj) (eps : Q)
    (items : list (string * vec3)) : list (string * list (list nat)) :=
  match items with
  | [] => []
  | (name, direction_vec) :: rest =>
      if String.eqb name "above" || String.eqb name "below" then
        relationships_loop objects eps rest
      else
        (name, relationships_for objects direction_vec eps)
          :: relationships_loop objects eps rest
  end.

Definition compute_all_relationships (objects : list Obj) (directions : Directions)
    (eps : Q) : list (string * list (list nat)) :=
  relationships_loop objects eps (directions_items directions).

(** ** A configuration to run the script on *)

(** A square root to six decimals. *)
Definition sqrt_micro (q : Q) : Q :=
  inject_Z (Z.sqrt (Qfloor (q * 1000000000000))) / 1000000.

Definition demo_properties : Properties :=
  {| p_colors := [("gray", [87; 87; 87]%Z); ("red", [173; 35; 35]%Z);
                  ("blue", [42; 75; 215]%Z)];
     p_materials := [("rubber", "Rubber"); ("metal", "MyMetal")];
     p_shapes := [("cube", "Cube"); ("sphere", "Sphere"); ("cylinder", "Cylinder")];
     p_sizes := [("large", 7 / 10); ("small", 35 / 100)] |}.

(** The default values of the command line. *)
Definition demo_args : Args :=
  {| a_min_dist := 25 / 100; a_margin := 4 / 10; a_max_retries := 50;
     a_min_pixels_per_object := 200; a_shape_color_combos := None |}.

Definition flat_color (k : nat) : list Z := [Z.of_nat k; 0; 0; 255]%Z.

(** A host that puts an object where [utils.add_object] is asked to and
    that shows every object and the background on 200 pixels each. *)
Definition demo_blender : Blender :=
  {| object_location := fun b => (bo_x b, bo_y b, bo_scale b);
     get_camera_coords := fun v =>
       ((Qfloor (40 * vx v) + 160)%Z, (Qfloor (40 * vy v) + 120)%Z, 10 - vz v);
     shadeless_pixels := fun bos =>
       flat_map (fun k => concat (repeat (flat_color k) 200))
                (seq 0 (S (length bos))) |}.

(** The same host when the camera sees nothing but the background. *)
Definition hidden_blender : Blender :=
  {| object_location := object_location demo_blender;
     get_camera_coords := get_camera_coords demo_blender;
     shadeless_pixels := fun _ => concat (repeat (flat_color 0) 400) |}.

Definition demo_random : RandomSource :=
  {| rs_int := fun k => nth k [0; 0; 1; 0; 1; 1; 2; 1; 1; 2; 0; 1; 0; 1]%nat 0%nat;
     rs_uniform := fun k =>
       nth k [1 / 2; 1 / 2; 55 / 100; 1 / 2; 5 / 6; 1 / 3;
              1 / 2; 1 / 2; 1 / 6; 2 / 3] 0;
     rs_random := fun k => nth k [1 / 4; 1 / 8; 1 / 2] 0 |}.

Definition demo_directions : Directions :=
  make_directions (- (3 / 5), - (4 / 5), 0) (- (4 / 5), 3 / 5, 0) (0, 0, 1).

Definition empty_state : State :=
  {| heap := []; n_int := 0; n_uniform := 0; n_random := 0 |}.

(** The scene of two objects that [add_random_objects] returns there,
    and the state in which it returns. *)
Definition demo_scene : list Obj * list BlenderObj :=
  Eval vm_compute in
    match fst (add_random_objects sqrt_micro demo_blender demo_random demo_properties
                 demo_args demo_directions 1 2 empty_state) with
    | Ok r => r
    | Raise _ => ([], [])
    end.

Definition demo_scene_state : State :=
  Eval vm_compute in
    snd (add_random_objects sqrt_micro demo_blender demo_random demo_properties
           demo_args demo_directions 1 2 empty_state).

(** [default_config['objects']]: the two objects in the store. *)
Definition demo_base : list loc := [0; 1]%nat.

Definition demo_base_state : State :=
  {| heap := fst demo_scene; n_int := n_int demo_scene_state;
     n_uniform := n_uniform demo_scene_state;
     n_random := n_random demo_scene_state |}.

Definition demo_variant (change_type : string)
    : result (option (list loc * list BlenderObj)) * State :=
  apply_change sqrt_micro demo_blender demo_random demo_properties demo_args
    demo_directions 5 demo_base change_type demo_base_state.

Definition demo_variant_objects (change_type : string) : list loc :=
  match fst (demo_variant change_type) with
  | Ok (Some r) => fst r
  | _ => []
  end.

Definition demo_variant_blender (change_type : string) : list BlenderObj :=
  match fst (demo_variant change_type) with
  | Ok (Some r) => snd r
  | _ => []
  end.

(** ** The vocabulary of the properties *)

(** Pairs of a list, the later element against the earlier one. *)
Definition AllPairs {A} (R : A -> A -> Prop) (l : list A) : Prop :=
  forall i j a b, (i < j)%nat -> l !! i = Some a -> l !! j = Some b -> R b a.

Section Vocabulary.

Variable sqrt : Q -> Q.
Variable properties : Properties.
Variable args : Args.
Variable directions : Directions.









(** The position [(x, y, r)] that [render_object] and the add change
    compute for an object. *)
Definition position_of (o : Obj) : result (Q * Q * Q) :=
  rbind (key_of (object_mapping properties) (o_shape o)) (fun obj_name =>
  rbind (value_of (size_mapping properties) (o_size o)) (fun r =>
    let '(x, y, z) := o_3d_coords o in Ok (x, y, cube_adjust sqrt obj_name r))).

(** The Blender object that [render_object] makes of an object. *)
Definition blender_of (o : Obj) : result BlenderObj :=
  rbind (key_of (object_mapping properties) (o_shape o)) (fun obj_name =>
  rbind (getitem (color_name_to_rgba properties) (o_color o)) (fun rgba =>
  rbind (value_of (size_mapping properties) (o_size o)) (fun r =>
  rbind (key_of (material_mapping properties) (o_material o)) (fun mat_name =>
    let '(x, y, z) := o_3d_coords o in
    Ok {| bo_name := obj_name; bo_scale := cube_adjust sqrt obj_name r;
          bo_x := x; bo_y := y; bo_theta := o_rotation o;
          bo_material := mat_name; bo_rgba := rgba |})))).

End Vocabulary.

(** The objects that the loop of the drop change keeps, on any list. *)
Fixpoint kept (object_idx i : Z) {A} (l : list A) : list A :=
  match l with
  | [] => []
  | x :: rest =>
      if (i =? object_idx)%Z then kept object_idx (i + 1) rest
      else x :: kept object_idx (i + 1) rest
  end.

(** The state after one integer was drawn. *)
Definition drew_int (st : State) : State :=
  {| heap := heap st; n_int := S (n_int st);
     n_uniform := n_uniform st; n_random := n_random st |}.

(** The position that the sampling loop tries when [n] numbers have been
    drawn with [random.uniform(-3, 3)], for an object of radius [r]. *)
Definition candidate (rs : RandomSource) (n : nat) (r : Q) : Q * Q * Q :=
  (-3 + (3 - -3) * rs_uniform rs n, -3 + (3 - -3) * rs_uniform rs (S n), r).

(** The run draws at most [c] numbers with [random.uniform]. *)
Definition draws_at_most (c : nat) {A} (m : M A) : Prop :=
  forall st, (n_uniform (snd (m st)) <= n_uniform st + c)%nat.

(** A run that starts in a store beginning with [h0] ends in a store
    beginning with [h0], and its value, if any, satisfies [Q]. *)
Definition grows (h0 : list Obj) {A} (m : M A) (Q : A -> Prop) : Prop :=
  forall st cells,
    heap st = h0 ++ cells ->
    (exists cells', heap (snd (m st)) = h0 ++ cells') /\
    (forall v, fst (m st) = Ok v -> Q v).

(** The references of [l] are to cells that are not among those of [h0]. *)
Definition fresh (h0 : list Obj) (l : list loc) : Prop :=
  Forall (fun a => (length h0 <= a)%nat) l.

Definition fresh_option (h0 : list Obj) (r : option (list loc)) : Prop :=
  match r with
  | Some l => fresh h0 l
  | None => True
  end.

Definition fresh_variant (h0 : list Obj)
    (r : option (list loc * list BlenderObj)) : Prop :=
  match r with
  | Some (l, _) => fresh h0 l
  | None => True
  end.

(** ** More configurations *)

(** The shadeless image of four pixels on which one object covers three
    of them and the background one. *)
Definition small_background_pixels : list Z :=
  [255; 0; 0; 255;  255; 0; 0; 255;  255; 0; 0; 255;  64; 64; 64; 255]%Z.

Definition small_background_blender : Blender :=
  {| object_location := fun b => (bo_x b, bo_y b, bo_scale b);
     get_camera_coords := fun v => (0%Z, 0%Z, vz v);
     shadeless_pixels := fun _ => small_background_pixels |}.

Definition one_sphere : BlenderObj :=
  {| bo_name := "Sphere"; bo_scale := 7 / 10; bo_x := 0; bo_y := 0;
     bo_theta := 0; bo_material := "Rubber"; bo_rgba := [1; 0; 0; 1] |}.

(** The command line of the configuration with [--max_retries 0]. *)
Definition no_retry_args : Args :=
  {| a_min_dist := a_min_dist demo_args; a_margin := a_margin demo_args;
     a_max_retries := 0;
     a_min_pixels_per_object := a_min_pixels_per_object demo_args;
     a_shape_color_combos := None |}.

(** The command line of the configuration with [--max_retries 1]. *)
Definition one_retry_args : Args :=
  {| a_min_dist := a_min_dist demo_args; a_margin := a_margin demo_args;
     a_max_retries := 1;
     a_min_pixels_per_object := a_min_pixels_per_object demo_args;
     a_shape_color_combos := None |}.

(** The positions of the two objects of the scene of the configuration. *)
Definition demo_positions : list (Q * Q * Q) :=
  Eval vm_compute in
    flat_map (fun o => match position_of sqrt_micro demo_properties o with
                       | Ok p => [p]
                       | Raise _ => []
                       end) (fst demo_scene).

(** ** The outcome of the color and material changes *)

(** What the copy of a base object is after the loop of the color change:
    the object itself, or the object with another color of the palette. *)
Definition recolored (properties0 : Properties) (hit : bool) (ob o : Obj) : Prop :=
  if hit then
    exists c, o = set_color ob c /\ c <> o_color ob /\
              In c (map fst (p_colors properties0))
  else o = ob.

(** The same for the material change: another entry of the material
    table, whose Blender name differs from the current one. *)
Definition rematerialed (properties0 : Properties) (hit : bool) (ob o : Obj) : Prop :=
  if hit then
    exists m n curr,
      o = set_material ob m /\
      key_of (material_mapping properties0) (o_material ob) = Ok curr /\
      In (n, m) (material_mapping properties0) /\ n <> curr
  else o = ob.

(** The property file of the configuration when its palette has one
    color only. *)
Definition one_color_properties : Properties :=
  {| p_colors := [("blue", [42; 75; 215]%Z)];
     p_materials := p_materials demo_properties;
     p_shapes := p_shapes demo_properties;
     p_sizes := p_sizes demo_properties |}.

(** ** The colors of an image *)

(** The number of pixels of the color [c] among [tuples]. *)
Definition pixels_of (c : RGBA) (tuples : list RGBA) : Z :=
  Z.of_nat (length (List.filter (fun x => bool_decide (x = c)) tuples)).

(** The colors of an image, each one once. *)
Definition colors_of (tuples : list RGBA) : list RGBA := remove_dups tuples.

(** ** merge_captions.py *)

(** [main] (lines 17-33) on the contents of the files of the input
    directory, each one a JSON object, in the order of [os.listdir]. *)
Module merge_captions.

Section Main.

Context {V : Type}.

(** [for filename in tqdm(input_files)], with [img_to_caps] and [count];
    [img_to_caps.update(caps)] lets the entries of [caps] win. *)
Fixpoint loop (files : list (gmap string V)) (img_to_caps : gmap string V)
    (count : nat) : result (gmap string V) :=
  match files with
  | [] => Ok img_to_caps
  | caps :: rest =>
      let newly_added := size caps in
      let img_to_caps := caps ∪ img_to_caps in
      let count := (count + newly_added)%nat in
      if (count =? size img_to_caps)%nat then loop rest img_to_caps count
      else Raise AssertionError
  end.

(** What is written to the output file. *)
Definition main (files : list (gmap string V)) : result (gmap string V) :=
  loop files ∅ 0.

End Main.

End merge_captions.

(** Any two of the files have no key in common. *)
Definition disjoint_files {V} (files : list (gmap string V)) : Prop :=
  AllPairs (fun g f => g ##ₘ f) files.

(** ** collect_captions.py *)

(** [main] (lines 14-36) on the lists ['questions'] of the files of the
    input directory, in the order of [os.listdir]. *)
Module collect_captions.

(** An entry of ['questions']; its ['split'] is a JSON string or [null]. *)
Record Caption := {
  c_split : option string;
  c_image_filename : string;
  c_question : string
}.

(** [for cap in caps], with [split] and the [defaultdict] [img_to_caps]. *)
Fixpoint caps_loop (caps : list Caption) (split : option string)
    (img_to_caps : gmap string (list string))
    : result (option string * gmap string (list string)) :=
  match caps with
  | [] => Ok (split, img_to_caps)
  | cap :: rest =>
      rbind (match split with
             | Some s =>
                 if bool_decide (c_split cap = Some s) then Ok split
                 else Raise AssertionError
             | None => Ok (c_split cap)
             end)
        (fun split =>
           let img_filename := c_image_filename cap in
           let text := c_question cap in
           caps_loop rest split
             (<[img_filename := default [] (img_to_caps !! img_filename) ++ [text]]>
                img_to_caps))
  end.

(** [for filename in tqdm(input_files)]. *)
Fixpoint files_loop (files : list (list Caption)) (split : option string)
    (img_to_caps : gmap string (list string))
    : result (option string * gmap string (list string)) :=
  match files with
  | [] => Ok (split, img_to_caps)
  | caps :: rest =>
      rbind (caps_loop caps split img_to_caps)
        (fun '(split, img_to_caps) => files_loop rest split img_to_caps)
  end.

(** What is written to the output file. *)
Definition main (files : list (list Caption)) : result (gmap string (list string)) :=
  rbind (files_loop files None ∅) (fun '(_, img_to_caps) => Ok img_to_caps).

End collect_captions.

(** The texts of the captions of the image [f], in their order. *)
Definition texts_of (f : string) (caps : list collect_captions.Caption) : list string :=
  map collect_captions.c_question
      (List.filter (fun c => String.eqb (collect_captions.c_image_filename c) f) caps).

(** From the first caption that has a split on, every caption has that
    split. *)
Definition same_split (caps : list collect_captions.Caption) : Prop :=
  forall i j ci cj s,
    (i < j)%nat -> caps !! i = Some ci -> caps !! j = Some cj ->
    collect_captions.c_split ci = Some s -> collect_captions.c_split cj = Some s.

(** ** generate_split.py *)

(** The script (lines 5-33) on the JSON object [captions] that it
    loads; the result is the dictionary [split] that it writes. *)
Module generate_split.

(** [assert b]. *)
Definition assert (b : bool) : result unit :=
  if b then Ok tt else Raise AssertionError.

(** [l[a:b]] for two integers that are not negative. *)
Definition slice (a b : Z) (l : list Z) : list Z :=
  drop (Z.to_nat a) (take (Z.to_nat b) l).

(** [len(set(a).intersection(b))]. *)
Definition common (a b : list Z) : Z :=
  Z.of_nat (size ((list_to_set a : gset Z) ∩ list_to_set b)).

Section Script.

Context {V : Type}.

(** [int(img.split('_')[-1].split('.')[0])], which raises when the
    name has no number there. *)
Variable index_of : string -> result Z.

(** [random.seed(123); random.shuffle(indices)]. *)
Variable shuffle : list Z -> list Z.

(** [sorted(list(captions.keys()))]. *)
Definition imgs (captions : gmap string V) : list string :=
  merge_sort (fun a b => Is_true (String.leb a b)) (elements (dom captions)).

(** [[... for img in imgs]]. *)
Fixpoint indices_of (l : list string) : result (list Z) :=
  match l with
  | [] => Ok []
  | img :: rest =>
      rbind (index_of img) (fun i =>
      rbind (indices_of rest) (fun rest_indices => Ok (i :: rest_indices)))
  end.

Definition script (captions : gmap string V) : result (list Z * list Z * list Z) :=
  let total_imgs := Z.of_nat (size captions) in
  rbind (indices_of (imgs captions)) (fun indices =>
  let train_len := Qfloor (inject_Z total_imgs * (9 / 10)) in
  let val_len := Qfloor (inject_Z total_imgs * (5 / 100)) in
  let test_len := (total_imgs - (train_len + val_len))%Z in
  rbind (assert (train_len + val_len + test_len =? total_imgs)%Z) (fun _ =>
  let indices := shuffle indices in
  let train_idx := slice 0 train_len indices in
  let val_idx := slice train_len (train_len + val_len) indices in
  let test_idx := drop (Z.to_nat (train_len + val_len)) indices in
  rbind (assert (common train_idx val_idx =? 0)%Z) (fun _ =>
  rbind (assert (common train_idx test_idx =? 0)%Z) (fun _ =>
  rbind (assert (common test_idx val_idx =? 0)%Z) (fun _ =>
  rbind (assert (Z.of_nat (length train_idx) =? train_len)%Z) (fun _ =>
  rbind (assert (Z.of_nat (length val_idx) =? val_len)%Z) (fun _ =>
  rbind (assert (Z.of_nat (length test_idx) =? test_len)%Z) (fun _ =>
  Ok (train_idx, val_idx, test_idx))))))))).

End Script.

End generate_split.

(** A directory of three captioned images to run the split on, the
    numbers of their names, and a shuffle that reverses. *)
Definition demo_captions : gmap string (list string) :=
  {[ "CLEVR_default_000000.png" := ["the red cube is gone"];
     "CLEVR_default_000001.png" := ["a blue ball was added"];
     "CLEVR_default_000002.png" := ["nothing has changed"] ]}.

Definition demo_index_of (img : string) : result Z :=
  match assoc [("CLEVR_default_000000.png", 0%Z); ("CLEVR_default_000001.png", 1%Z);
               ("CLEVR_default_000002.png", 2%Z)] img with
  | Some i => Ok i
  | None => Raise ValueError
  end.

(** The same directory with the changed images beside the default
    ones: two names for each number. *)
Definition twin_captions : gmap string (list string) :=
  {[ "CLEVR_default_000000.png" := ["the red cube is gone"];
     "CLEVR_semantic_000000.png" := ["the red cube is gone"] ]}.

Definition twin_index_of (img : string) : result Z :=
  match assoc [("CLEVR_default_000000.png", 0%Z); ("CLEVR_semantic_000000.png", 0%Z)]
              img with
  | Some i => Ok i
  | None => Raise ValueError
  end.

(** The slices of the shuffled list [l] for [n] images. *)
Definition train_of (n : nat) (l : list Z) : list Z := take (9 * n / 10) l.
Definition val_of (n : nat) (l : list Z) : list Z := take (n / 20) (drop (9 * n / 10) l).
Definition test_of (n : nat) (l : list Z) : list Z := drop (9 * n / 10 + n / 20) l.

(** ** render_default_scene and render_semantic_change *)

(** The locations of the camera and of the three lamps, which the two
    functions move. *)
Record Stage := {
  camera : vec3;
  lamp_key : vec3;
  lamp_back : vec3;
  lamp_fill : vec3
}.

(** Blender as the two functions meet it: the stage of the base scene
    file, the three plane directions of lines 441-448 for a camera, and
    the services of [Blender] on a stage. *)
Record Host := {
  base_stage : Stage;
  plane_axes : Stage -> vec3 * vec3 * vec3;
  blender_at : Stage -> Blender
}.

(** [args.camera_jitter], [args.key_light_jitter],
    [args.back_light_jitter] and [args.fill_light_jitter]. *)
Record JitterArgs := {
  a_camera_jitter : Q;
  a_key_light_jitter : Q;
  a_back_light_jitter : Q;
  a_fill_light_jitter : Q
}.

(** The dictionary [config]; its objects are the cells of the store
    that hold the dictionaries of the objects. *)
Record Config := {
  cfg_camera_jitters : list Q;
  cfg_key_light_jitters : list Q;
  cfg_back_light_jitters : list Q;
  cfg_fill_light_jitters : list Q;
  cfg_objects : list loc
}.

(** The dictionary [scene_struct] as it is dumped. *)
Record SceneStruct := {
  ss_split : string;
  ss_image_index : Z;
  ss_image_filename : string;
  ss_objects : list Obj;
  ss_directions : Directions;
  ss_relationships : list (string * list (list nat))
}.

(** [os.path.basename]: what follows the last slash. *)
Fixpoint basename_from (acc path : string) : string :=
  match path with
  | EmptyString => acc
  | String c rest =>
      if Ascii.eqb c "/"%char then basename_from rest rest
      else basename_from acc rest
  end.

Definition basename (path : string) : string := basename_from path path.

(** [location[i] += d]. *)
Definition add_at (location : vec3) (i : nat) (d : Q) : result vec3 :=
  match i with
  | 0%nat => Ok (vx location + d, vy location, vz location)
  | 1%nat => Ok (vx location, vy location + d, vz location)
  | 2%nat => Ok (vx location, vy location, vz location + d)
  | _ => Raise IndexError
  end.

(** [l[i]] on a list. *)
Definition list_get (l : list Q) (i : nat) : result Q :=
  match l !! i with
  | Some d => Ok d
  | None => Raise IndexError
  end.

(** [for i in range(3): location[i] += default_jitters[i]] (lines
    580-585). *)
Fixpoint jitter_same (idx : list nat) (default_jitters : list Q) (location : vec3)
    : result vec3 :=
  match idx with
  | [] => Ok location
  | i :: rest =>
      rbind (list_get default_jitters i) (fun d =>
      rbind (add_at location i d) (fun location =>
      jitter_same rest default_jitters location))
  end.

Section Render.

Variable sqrt : Q -> Q.
Variable host : Host.
Variable rs : RandomSource.
Variable properties : Properties.
Variable args : Args.
Variable jargs : JitterArgs.

(** [rand(L)] (lines 423-424 and 566-567). *)
Definition rand (L : Q) : M Q :=
  r <- random rs;
  ret (2 * L * (r - 5 / 10)).

(** [for i in range(3)] of lines 430-433 and 466-483: a new jitter is
    drawn, kept, and added to the location. *)
Fixpoint jitter_new (L : Q) (idx : list nat) (jitters : list Q) (location : vec3)
    : M (list Q * vec3) :=
  match idx with
  | [] => ret (jitters, location)
  | i :: rest =>
      j <- rand L;
      location <- lift (add_at location i j);
      jitter_new L rest (jitters ++ [j]) location
  end.

(** [if L > 0: for i in range(3): ...] of [render_default_scene]. *)
Definition jitter_if (L : Q) (location : vec3) : M (list Q * vec3) :=
  if Qltb 0 L then jitter_new L (seq 0 3) [] location else ret ([], location).

(** [for i in range(3)] of lines 571-573: the jitter of the default
    scene and a new one. *)
Fixpoint jitter_again (L : Q) (idx : list nat) (default_jitters : list Q)
    (location : vec3) : M vec3 :=
  match idx with
  | [] => ret location
  | i :: rest =>
      j <- rand L;
      d <- lift (list_get default_jitters i);
      location <- lift (add_at location i (d + j));
      jitter_again L rest default_jitters location
  end.

(** The dictionaries of the objects become cells of the store when
    they are handed on in [config]. *)
Fixpoint alloc_all (objects : list Obj) : M (list loc) :=
  match objects with
  | [] => ret []
  | o :: rest =>
      a <- alloc o;
      l <- alloc_all rest;
      ret (a :: l)
  end.

Fixpoint read_all (l : list loc) : M (list Obj) :=
  match l with
  | [] => ret []
  | a :: rest =>
      o <- read a;
      os <- read_all rest;
      ret (o :: os)
  end.

(** The directions of lines 441-460 and 575-598 on a stage. *)
Definition directions_on (stage : Stage) : Directions :=
  let '(plane_behind, plane_left, plane_up) := plane_axes host stage in
  make_directions plane_behind plane_left plane_up.

(** [render_default_scene] (lines 368-506): the configuration that it
    returns, the scene that it dumps, and the stage that it leaves. *)
Definition render_default_scene (depth num_objects : nat) (output_index : Z)
    (output_split output_image : string) : M (Config * SceneStruct * Stage) :=
  let stage := base_stage host in
  '(camera_jitters, location) <- jitter_if (a_camera_jitter jargs) (camera stage);
  let stage := {| camera := location; lamp_key := lamp_key stage;
                  lamp_back := lamp_back stage; lamp_fill := lamp_fill stage |} in
  let directions := directions_on stage in
  '(key_light_jitters, location) <- jitter_if (a_key_light_jitter jargs) (lamp_key stage);
  let stage := {| camera := camera stage; lamp_key := location;
                  lamp_back := lamp_back stage; lamp_fill := lamp_fill stage |} in
  '(back_light_jitters, location) <- jitter_if (a_back_light_jitter jargs) (lamp_back stage);
  let stage := {| camera := camera stage; lamp_key := lamp_key stage;
                  lamp_back := location; lamp_fill := lamp_fill stage |} in
  '(fill_light_jitters, location) <- jitter_if (a_fill_light_jitter jargs) (lamp_fill stage);
  let stage := {| camera := camera stage; lamp_key := lamp_key stage;
                  lamp_back := lamp_back stage; lamp_fill := location |} in
  '(objects, blender_objects) <-
    add_random_objects sqrt (blender_at host stage) rs properties args directions
      depth num_objects;
  refs <- alloc_all objects;
  let config := {| cfg_camera_jitters := camera_jitters;
                   cfg_key_light_jitters := key_light_jitters;
                   cfg_back_light_jitters := back_light_jitters;
                   cfg_fill_light_jitters := fill_light_jitters;
                   cfg_objects := refs |} in
  let scene_struct :=
    {| ss_split := output_split; ss_image_index := output_index;
       ss_image_filename := basename output_image;
       ss_objects := objects; ss_directions := directions;
       ss_relationships := compute_all_relationships objects directions default_eps |} in
  ret (config, scene_struct, stage).

(** [render_semantic_change] (lines 508-649): [None] is its
    [return False], a scene is the scene that it dumps before it
    returns [True]; with it the stage that it leaves. *)
Definition render_semantic_change (fuel : nat) (default_config : Config)
    (output_index : Z) (output_split output_image change_type : string)
    : M (option SceneStruct * Stage) :=
  let stage := base_stage host in
  location <- (if Qltb 0 (a_camera_jitter jargs)
               then jitter_again (a_camera_jitter jargs) (seq 0 3)
                      (cfg_camera_jitters default_config) (camera stage)
               else ret (camera stage));
  let stage := {| camera := location; lamp_key := lamp_key stage;
                  lamp_back := lamp_back stage; lamp_fill := lamp_fill stage |} in
  let directions := directions_on stage in
  location <- lift (jitter_same (seq 0 3) (cfg_key_light_jitters default_config)
                      (lamp_key stage));
  let stage := {| camera := camera stage; lamp_key := location;
                  lamp_back := lamp_back stage; lamp_fill := lamp_fill stage |} in
  location <- lift (jitter_same (seq 0 3) (cfg_back_light_jitters default_config)
                      (lamp_back stage));
  let stage := {| camera := camera stage; lamp_key := lamp_key stage;
                  lamp_back := location; lamp_fill := lamp_fill stage |} in
  location <- lift (jitter_same (seq 0 3) (cfg_fill_light_jitters default_config)
                      (lamp_fill stage));
  let stage := {| camera := camera stage; lamp_key := lamp_key stage;
                  lamp_back := lamp_back stage; lamp_fill := location |} in
  changed <- apply_change sqrt (blender_at host stage) rs properties args directions
               fuel (cfg_objects default_config) change_type;
  match changed with
  | None => ret (None, stage)
  | Some (sc_objects, sc_blend_objects) =>
      objects <- read_all sc_objects;
      ret (Some {| ss_split := output_split; ss_image_index := output_index;
                   ss_image_filename := basename output_image;
                   ss_objects := objects; ss_directions := directions;
                   ss_relationships :=
                     compute_all_relationships objects directions default_eps |},
           stage)
  end.

End Render.

(** A host for the configuration: the camera does not change what
    Blender answers. *)
Definition demo_host : Host :=
  {| base_stage := {| camera := (7, - 6, 5); lamp_key := (6, - 2, 5);
                      lamp_back := (- 1, 2, 5); lamp_fill := (- 4, - 4, 2) |};
     plane_axes := fun _ => ((- (3 / 5), - (4 / 5), 0), (- (4 / 5), 3 / 5, 0), (0, 0, 1));
     blender_at := fun _ => demo_blender |}.

(** The default jitters of the command line, and the command line with
    [--key_light_jitter 0]. *)
Definition demo_jitters : JitterArgs :=
  {| a_camera_jitter := 5 / 10; a_key_light_jitter := 1;
     a_back_light_jitter := 1; a_fill_light_jitter := 1 |}.

Definition still_key_jitters : JitterArgs :=
  {| a_camera_jitter := 5 / 10; a_key_light_jitter := 0;
     a_back_light_jitter := 1; a_fill_light_jitter := 1 |}.

(** What [if L > 0: for i in range(3): ...] of [render_default_scene]
    makes of a location: three jitters added, or none and no move. *)
Definition jittered (L : Q) (jitters : list Q) (location location' : vec3) : Prop :=
  (Qltb 0 L = true /\
   exists j0 j1 j2,
     jitters = [j0; j1; j2] /\
     location' = (vx location + j0, vy location + j1, vz location + j2)) \/
  (Qltb 0 L = false /\ jitters = [] /\ location' = location).

(** The [k]-th value of [rand(L)] from the state [st] on. *)
Definition next_rand (rs : RandomSource) (L : Q) (st : State) (k : nat) : Q :=
  2 * L * (rs_random rs (n_random st + k) - 5 / 10).

(** The state after [k] numbers were drawn with [random.random()]. *)
Definition drew_random (k : nat) (st : State) : State :=
  {| heap := heap st; n_int := n_int st; n_uniform := n_uniform st;
     n_random := (k + n_random st)%nat |}.

(** The default scene of the configuration, with the default jitters
    and with [--key_light_jitter 0]; the run of each and what it
    returns. *)
Definition demo_default (jargs : JitterArgs)
    : result (Config * SceneStruct * Stage) * State :=
  render_default_scene sqrt_micro demo_host demo_random demo_properties demo_args
    jargs 1 2 0 "default" "output/images/CLEVR_default_000000.png" empty_state.

Definition demo_default_config (jargs : JitterArgs) : Config :=
  match fst (demo_default jargs) with
  | Ok (config, _, _) => config
  | Raise _ => {| cfg_camera_jitters := []; cfg_key_light_jitters := [];
                  cfg_back_light_jitters := []; cfg_fill_light_jitters := [];
                  cfg_objects := [] |}
  end.

Definition demo_default_scene (jargs : JitterArgs) : option SceneStruct :=
  match fst (demo_default jargs) with
  | Ok (_, scene_struct, _) => Some scene_struct
  | Raise _ => None
  end.

Definition demo_default_stage (jargs : JitterArgs) : Stage :=
  match fst (demo_default jargs) with
  | Ok (_, _, stage) => stage
  | Raise _ => base_stage demo_host
  end.



(** ** render_shadeless (lines 1032-1091) *)

(** [bpy.context.scene.render], as far as the function goes. *)
Record RenderSettings := {
  r_filepath : string;
  r_engine : string;
  r_use_antialiasing : bool
}.

(** A material of [bpy.data.materials]; [m_index] is the [i] of its
    name ['Material_%d' % i]. *)
Record Material := {
  m_index : nat;
  m_diffuse_color : vec3;
  m_use_shadeless : bool
}.

(** The part of Blender's data that the function reads and writes: the
    render settings, the layer of each named object, the materials, and
    for each object its list [obj.data.materials] of materials, given by
    their place in [bpy.data.materials].  An object is its place in
    [bpy_slots]. *)
Record Bpy := {
  bpy_render : RenderSettings;
  bpy_layers : gmap string Z;
  bpy_materials : list Material;
  bpy_slots : list (list nat)
}.

(** [utils.set_layer(bpy.data.objects[name], layer_idx)]. *)
Definition set_layer (name : string) (layer_idx : Z) (b : Bpy) : result Bpy :=
  match bpy_layers b !! name with
  | Some _ =>
      Ok {| bpy_render := bpy_render b;
            bpy_layers := <[name := layer_idx]> (bpy_layers b);
            bpy_materials := bpy_materials b; bpy_slots := bpy_slots b |}
  | None => Raise KeyError
  end.

(** [obj.data.materials[0]]. *)
Definition get_slot0 (b : Bpy) (obj : nat) : result nat :=
  match bpy_slots b !! obj with
  | Some (mat :: _) => Ok mat
  | Some [] => Raise IndexError
  | None => Raise BadRef
  end.

(** [obj.data.materials[0] = mat]. *)
Definition set_slot0 (obj mat : nat) (b : Bpy) : result Bpy :=
  match bpy_slots b !! obj with
  | Some (_ :: others) =>
      Ok {| bpy_render := bpy_render b; bpy_layers := bpy_layers b;
            bpy_materials := bpy_materials b;
            bpy_slots := <[obj := mat :: others]> (bpy_slots b) |}
  | Some [] => Raise IndexError
  | None => Raise BadRef
  end.

(** [bpy.ops.material.new()] and the assignments to the new material. *)
Definition add_shadeless_material (i : nat) (rgb : vec3) (b : Bpy) : nat * Bpy :=
  (length (bpy_materials b),
   {| bpy_render := bpy_render b; bpy_layers := bpy_layers b;
      bpy_materials := bpy_materials b
                       ++ [{| m_index := i; m_diffuse_color := rgb;
                              m_use_shadeless := true |}];
      bpy_slots := bpy_slots b |}).

(** [for mat, obj in zip(old_materials, blender_objects)]. *)
Fixpoint restore_materials (pairs : list (nat * nat)) (b : Bpy) : result Bpy :=
  match pairs with
  | [] => Ok b
  | (mat, obj) :: rest => rbind (set_slot0 obj mat b) (restore_materials rest)
  end.

Section Shadeless.

Variable rs : RandomSource.

(** [while True: r, g, b = [random.random() for _ in range(3)]; ...]. *)
Fixpoint new_rgb (fuel : nat) (object_colors : list vec3) : M vec3 :=
  match fuel with
  | O => raise NoFuel
  | S fuel' =>
      r <- random rs;
      g <- random rs;
      b <- random rs;
      if negb (existsb (vec3_eqb (r, g, b)) object_colors) then ret (r, g, b)
      else new_rgb fuel' object_colors
  end.

(** [for i, obj in enumerate(blender_objects)]. *)
Fixpoint shade_objects (fuel : nat) (i : nat) (objs : list nat)
    (object_colors : list vec3) (old_materials : list nat) (b : Bpy)
    : M (list vec3 * list nat * Bpy) :=
  match objs with
  | [] => ret (object_colors, old_materials, b)
  | obj :: rest =>
      old <- lift (get_slot0 b obj);
      rgb <- new_rgb fuel object_colors;
      let '(mat, b) := add_shadeless_material i rgb b in
      b <- lift (set_slot0 obj mat b);
      shade_objects fuel (S i) rest (object_colors ++ [rgb]) (old_materials ++ [old]) b
  end.

(** The set [object_colors] in the order in which its colors were
    added, Blender's data when [bpy.ops.render.render] is called, and
    Blender's data when the function returns. *)
Definition render_shadeless (fuel : nat) (blender_objects : list nat) (path : string)
    (b : Bpy) : M (list vec3 * Bpy * Bpy) :=
  let old_filepath := r_filepath (bpy_render b) in
  let old_engine := r_engine (bpy_render b) in
  let old_use_antialiasing := r_use_antialiasing (bpy_render b) in
  let b := {| bpy_render := {| r_filepath := path; r_engine := "BLENDER_RENDER";
                               r_use_antialiasing := false |};
              bpy_layers := bpy_layers b; bpy_materials := bpy_materials b;
              bpy_slots := bpy_slots b |} in
  b <- lift (set_layer "Lamp_Key" 2 b);
  b <- lift (set_layer "Lamp_Fill" 2 b);
  b <- lift (set_layer "Lamp_Back" 2 b);
  b <- lift (set_layer "Ground" 2 b);
  '(object_colors, old_materials, b) <- shade_objects fuel 0 blender_objects [] [] b;
  let rendered := b in
  b <- lift (restore_materials (zip old_materials blender_objects) b);
  b <- lift (set_layer "Lamp_Key" 0 b);
  b <- lift (set_layer "Lamp_Fill" 0 b);
  b <- lift (set_layer "Lamp_Back" 0 b);
  b <- lift (set_layer "Ground" 0 b);
  let b := {| bpy_render := {| r_filepath := old_filepath; r_engine := old_engine;
                               r_use_antialiasing := old_use_antialiasing |};
              bpy_layers := bpy_layers b; bpy_materials := bpy_materials b;
              bpy_slots := bpy_slots b |} in
  ret (object_colors, rendered, b).

End Shadeless.

(** The names whose layer the function sets. *)
Definition hidden_names : list string := ["Lamp_Key"; "Lamp_Fill"; "Lamp_Back"; "Ground"].

(** Two colors differ, as tuples of floats. *)
Definition other_color (c' c : vec3) : Prop := vec3_eqb c' c = false.

(** The shadeless materials that the loop makes of its colors, the
    first one with the index [i]. *)
Definition shadeless_materials (i : nat) (colors : list vec3) : list Material :=
  imap (fun k c => {| m_index := i + k; m_diffuse_color := c;
                      m_use_shadeless := true |}) colors.

(** Blender's data with two objects and their materials, the lamps on
    layer 0 and the ground on layer 1. *)
Definition demo_bpy : Bpy :=
  {| bpy_render := {| r_filepath := "output/images/CLEVR_default_000000.png";
                      r_engine := "CYCLES"; r_use_antialiasing := true |};
     bpy_layers := {[ "Lamp_Key" := 0%Z; "Lamp_Fill" := 0%Z; "Lamp_Back" := 0%Z;
                      "Ground" := 1%Z; "Camera" := 0%Z ]};
     bpy_materials := [{| m_index := 0; m_diffuse_color := (1, 0, 0);
                          m_use_shadeless := false |};
                       {| m_index := 1; m_diffuse_color := (0, 0, 1);
                          m_use_shadeless := false |}];
     bpy_slots := [[0%nat]; [1%nat]] |}.

(** A generator whose [random.random()] gives the same color twice
    before it gives another one. *)
Definition repeating_random : RandomSource :=
  {| rs_int := fun _ => 0%nat; rs_uniform := fun _ => 0;
     rs_random := fun k => nth k [1 / 4; 1 / 8; 1 / 2; 1 / 4; 1 / 8; 1 / 2;
                                  3 / 4; 1 / 8; 1 / 2] 0 |}.

(** The call of [render_shadeless] on the two objects of [demo_bpy],
    and what it returns. *)
Definition demo_shadeless : result (list vec3 * Bpy * Bpy) * State :=
  render_shadeless repeating_random 5 [0; 1]%nat "/tmp/tmp_flat.png" demo_bpy empty_state.

Definition demo_shadeless_colors : list vec3 :=
  match fst demo_shadeless with
  | Ok (colors, _, _) => colors
  | Raise _ => []
  end.

Definition demo_shadeless_rendered : Bpy :=
  match fst demo_shadeless with
  | Ok (_, rendered, _) => rendered
  | Raise _ => demo_bpy
  end.

Definition demo_shadeless_after : Bpy :=
  match fst demo_shadeless with
  | Ok (_, _, b) => b
  | Raise _ => demo_bpy
  end.

(** ** main (lines 189-365) *)

(** The arguments that [main] reads itself. *)
Record MainArgs := {
  a_num_images : Z;
  a_start_idx : Z;
  a_min_objects : Z;
  a_max_objects : Z;
  a_save_blendfiles : Z;
  a_split : string;
  a_date : string;
  a_version : string;
  a_license : string
}.

(** The nine path templates of lines 195-218, each as the function
    that [template % index] is. *)
Record Templates := {
  default_img_template : Z -> string;
  default_scene_template : Z -> string;
  default_blend_template : Z -> string;
  semantic_img_template : Z -> string;
  semantic_scene_template : Z -> string;
  semantic_blend_template : Z -> string;
  nonsemantic_img_template : Z -> string;
  nonsemantic_scene_template : Z -> string;
  nonsemantic_blend_template : Z -> string
}.

(** The files that the script writes: a rendered image, a saved blend
    file, the dump of a scene. *)
Inductive File :=
| ImageFile
| BlendFile
| SceneJson (scene_struct : SceneStruct).

(** What a render function writes when it has built its scene: the
    image, the scene, and the blend file if it has a path. *)
Definition write_outputs (files : gmap string File) (output_image output_scene : string)
    (output_blendfile : option string) (scene_struct : SceneStruct) : gmap string File :=
  let files := <[output_image := ImageFile]> files in
  let files := <[output_scene := SceneJson scene_struct]> files in
  match output_blendfile with
  | Some path => <[path := BlendFile]> files
  | None => files
  end.

(** [os.remove(path)]; [None] is its [FileNotFoundError]. *)
Definition os_remove (path : string) (files : gmap string File)
    : option (gmap string File) :=
  match files !! path with
  | Some _ => Some (delete path files)
  | None => None
  end.

(** The three [os.remove] of one scene (lines 299-313). *)
Definition remove_outputs (files : gmap string File) (img_path scene_path : string)
    (blend_path : option string) : option (gmap string File) :=
  match os_remove img_path files with
  | None => None
  | Some files =>
      match os_remove scene_path files with
      | None => None
      | Some files =>
          match blend_path with
          | Some path => os_remove path files
          | None => Some files
          end
      end
  end.

(** [json.load] of a scene file; [None] when there is no such dump. *)
Definition load_scene (files : gmap string File) (scene_path : string)
    : option SceneStruct :=
  match files !! scene_path with
  | Some (SceneJson scene_struct) => Some scene_struct
  | _ => None
  end.

(** [for scene_path in paths: ... all_scenes.append(json.load(f))]. *)
Fixpoint load_scenes (files : gmap string File) (paths : list string)
    : option (list SceneStruct) :=
  match paths with
  | [] => Some []
  | scene_path :: rest =>
      match load_scene files scene_path, load_scenes files rest with
      | Some scene_struct, Some scenes => Some (scene_struct :: scenes)
      | _, _ => None
      end
  end.

(** The dictionary [output] of lines 321-329, 336-344 and 351-359. *)
Record Output := {
  out_date : string;
  out_version : string;
  out_split : string;
  out_license : string;
  out_scenes : list SceneStruct
}.

Section Main.

Variable sqrt : Q -> Q.
Variable host : Host.
Variable rs : RandomSource.
Variable properties : Properties.
Variable args : Args.
Variable jargs : JitterArgs.
Variable margs : MainArgs.
Variable templates : Templates.

(** [path if args.save_blendfiles == 1 else None]. *)
Definition blend_path (template : Z -> string) (index : Z) : option string :=
  if (a_save_blendfiles margs =? 1)%Z then Some (template index) else None.

(** The files of a changed scene after the call, and after the
    removal of what a rejected round has written. *)
Definition written (files : gmap string File) (changed : option SceneStruct)
    (img_path scene_path : string) (blend : option string) : gmap string File :=
  match changed with
  | Some scene_struct => write_outputs files img_path scene_path blend scene_struct
  | None => files
  end.

Definition removed (files : gmap string File) (changed : option SceneStruct)
    (img_path scene_path : string) (blend : option string)
    : option (gmap string File) :=
  match changed with
  | Some _ => remove_outputs files img_path scene_path blend
  | None => Some files
  end.

(** [while i < args.num_images] (lines 241-313); [depth] and
    [change_fuel] bound the restarts and the loops of the functions that
    are called.  [None] is an exception of [os.remove]. *)
Fixpoint main_loop (fuel depth change_fuel : nat) (i : Z)
    (all_scene_paths all_sc_scene_paths all_nsc_scene_paths : list string)
    (files : gmap string File)
    : M (option (list string * list string * list string * gmap string File)) :=
  match fuel with
  | O => raise NoFuel
  | S fuel' =>
      if (i <? a_num_images margs)%Z then
        let index := (i + a_start_idx margs)%Z in
        let default_img_path := default_img_template templates index in
        let default_scene_path := default_scene_template templates index in
        let default_blend_path := blend_path (default_blend_template templates) index in
        num_objects <- randint rs (a_min_objects margs) (a_max_objects margs);
        '(default_config, scene_struct, _) <-
          render_default_scene sqrt host rs properties args jargs depth
            (Z.to_nat num_objects) index (a_split margs) default_img_path;
        let files := write_outputs files default_img_path default_scene_path
                       default_blend_path scene_struct in
        let nonsemantic_img_path := nonsemantic_img_template templates index in
        let nonsemantic_scene_path := nonsemantic_scene_template templates index in
        let nonsemantic_blend_path :=
          blend_path (nonsemantic_blend_template templates) index in
        '(nonsemantic_change, _) <-
          render_semantic_change sqrt host rs properties args jargs change_fuel
            default_config index (a_split margs) nonsemantic_img_path "same";
        let files := written files nonsemantic_change nonsemantic_img_path
                       nonsemantic_scene_path nonsemantic_blend_path in
        let semantic_img_path := semantic_img_template templates index in
        let semantic_scene_path := semantic_scene_template templates index in
        let semantic_blend_path := blend_path (semantic_blend_template templates) index in
        '(semantic_change, _) <-
          render_semantic_change sqrt host rs properties args jargs change_fuel
            default_config index (a_split margs) semantic_img_path "drop";
        let files := written files semantic_change semantic_img_path
                       semantic_scene_path semantic_blend_path in
        match semantic_change, nonsemantic_change with
        | Some _, Some _ =>
            main_loop fuel' depth change_fuel (i + 1)%Z
              (all_scene_paths ++ [default_scene_path])
              (all_sc_scene_paths ++ [semantic_scene_path])
              (all_nsc_scene_paths ++ [nonsemantic_scene_path]) files
        | _, _ =>
            match remove_outputs files default_img_path default_scene_path
                    default_blend_path with
            | None => ret None
            | Some files =>
                match removed files nonsemantic_change nonsemantic_img_path
                        nonsemantic_scene_path nonsemantic_blend_path with
                | None => ret None
                | Some files =>
                    match removed files semantic_change semantic_img_path
                            semantic_scene_path semantic_blend_path with
                    | None => ret None
                    | Some files =>
                        main_loop fuel' depth change_fuel i all_scene_paths
                          all_sc_scene_paths all_nsc_scene_paths files
                    end
                end
            end
        end
      else ret (Some (all_scene_paths, all_sc_scene_paths, all_nsc_scene_paths, files))
  end.

Definition output_of (scenes : list SceneStruct) : Output :=
  {| out_date := a_date margs; out_version := a_version margs;
     out_split := a_split margs; out_license := a_license margs;
     out_scenes := scenes |}.

(** [main]: the contents of the three output files, in the order
    default, semantic, nonsemantic, and the files that the loop leaves.
    [None] is an exception of [os.remove] or of [json.load].  The three
    dumps are returned and not stored in [files]: the output scene files
    of the command line are taken to be none of the scene paths of the
    loop. *)
Definition main (fuel depth change_fuel : nat) (files : gmap string File)
    : M (option (Output * Output * Output * gmap string File)) :=
  looped <- main_loop fuel depth change_fuel 0 [] [] [] files;
  match looped with
  | None => ret None
  | Some (all_scene_paths, all_sc_scene_paths, all_nsc_scene_paths, files) =>
      match load_scenes files all_scene_paths,
            load_scenes files all_sc_scene_paths,
            load_scenes files all_nsc_scene_paths with
      | Some all_scenes, Some all_sc_scenes, Some all_nsc_scenes =>
          ret (Some (output_of all_scenes, output_of all_sc_scenes,
                     output_of all_nsc_scenes, files))
      | _, _, _ => ret None
      end
  end.

End Main.

(** Two lists of objects agree, object by object, on everything but
    ['pixel_coords']. *)
Definition same_objects (objects base : list Obj) : Prop :=
  Forall2 (fun o ob => semantic_fields o = semantic_fields ob) objects base.

(** The indices of the images: [start_idx], [start_idx + 1], ... *)
Definition image_indices (margs : MainArgs) (n : nat) : list Z :=
  map (fun k => (Z.of_nat k + a_start_idx margs)%Z) (seq 0 n).

(** The nine paths of one index. *)
Definition nine_paths (templates : Templates) (index : Z) : list string :=
  [default_img_template templates index; default_scene_template templates index;
   default_blend_template templates index;
   nonsemantic_img_template templates index; nonsemantic_scene_template templates index;
   nonsemantic_blend_template templates index;
   semantic_img_template templates index; semantic_scene_template templates index;
   semantic_blend_template templates index].

(** No two of the paths of the images are the same. *)
Definition distinct_paths (margs : MainArgs) (templates : Templates) : Prop :=
  NoDup (flat_map (nine_paths templates)
           (image_indices margs (Z.to_nat (a_num_images margs)))).

(** The scenes of one index in the three output files: the default
    scene [d], the semantic one [s] and the nonsemantic one [n]. *)
Definition scene_triple (margs : MainArgs) (templates : Templates) (index : Z)
    (d s n : SceneStruct) : Prop :=
  (ss_image_index d = index /\ ss_image_index s = index /\ ss_image_index n = index) /\
  (ss_split d = a_split margs /\ ss_split s = a_split margs /\
   ss_split n = a_split margs) /\
  (ss_image_filename d = basename (default_img_template templates index) /\
   ss_image_filename s = basename (semantic_img_template templates index) /\
   ss_image_filename n = basename (nonsemantic_img_template templates index)) /\
  same_objects (ss_objects n) (ss_objects d) /\
  exists j, (j < length (ss_objects d))%nat /\
            same_objects (ss_objects s)
              (take j (ss_objects d) ++ drop (S j) (ss_objects d)).

(** What the loop of [main] holds when [i] images are done: the three
    lists of scene paths, and the scenes that the files at these paths
    hold. *)
Definition loop_state (margs : MainArgs) (templates : Templates) (i : nat)
    (all_scene_paths all_sc_scene_paths all_nsc_scene_paths : list string)
    (files : gmap string File) : Prop :=
  all_scene_paths
  = map (default_scene_template templates) (image_indices margs i) /\
  all_sc_scene_paths
  = map (semantic_scene_template templates) (image_indices margs i) /\
  all_nsc_scene_paths
  = map (nonsemantic_scene_template templates) (image_indices margs i) /\
  forall k, (k < i)%nat ->
    exists d s n,
      files !! default_scene_template templates (Z.of_nat k + a_start_idx margs)%Z
      = Some (SceneJson d) /\
      files !! semantic_scene_template templates (Z.of_nat k + a_start_idx margs)%Z
      = Some (SceneJson s) /\
      files !! nonsemantic_scene_template templates (Z.of_nat k + a_start_idx margs)%Z
      = Some (SceneJson n) /\
      scene_triple margs templates (Z.of_nat k + a_start_idx margs)%Z d s n.

(** ['%06d' % index]: at least six characters, the sign first and then
    zeros before the decimal digits. *)
Definition format_06d (index : Z) : string :=
  let digits := pretty (Z.abs index) in
  if (index <? 0)%Z
  then "-" +:+ String.concat "" (repeat "0" (5 - String.length digits)) +:+ digits
  else String.concat "" (repeat "0" (6 - String.length digits)) +:+ digits.

(** The templates of the default command line in the directory
    [output]. *)
Definition demo_templates : Templates :=
  {| default_img_template := fun index =>
       "output/images/CLEVR_default_" +:+ format_06d index +:+ ".png";
     default_scene_template := fun index =>
       "output/scenes/CLEVR_default_" +:+ format_06d index +:+ ".json";
     default_blend_template := fun index =>
       "output/blendfiles/CLEVR_default_" +:+ format_06d index +:+ ".blend";
     semantic_img_template := fun index =>
       "output/sc_images/CLEVR_semantic_" +:+ format_06d index +:+ ".png";
     semantic_scene_template := fun index =>
       "output/sc_scenes/CLEVR_semantic_" +:+ format_06d index +:+ ".json";
     semantic_blend_template := fun index =>
       "output/sc_blendfiles/CLEVR_semantic_" +:+ format_06d index +:+ ".blend";
     nonsemantic_img_template := fun index =>
       "output/nsc_images/CLEVR_nonsemantic_" +:+ format_06d index +:+ ".png";
     nonsemantic_scene_template := fun index =>
       "output/nsc_scenes/CLEVR_nonsemantic_" +:+ format_06d index +:+ ".json";
     nonsemantic_blend_template := fun index =>
       "output/nsc_blendfiles/CLEVR_nonsemantic_" +:+ format_06d index +:+ ".blend" |}.

(** Two images of two objects each, from index 7 on. *)
Definition demo_main_args : MainArgs :=
  {| a_num_images := 2; a_start_idx := 7; a_min_objects := 2; a_max_objects := 2;
     a_save_blendfiles := 0; a_split := "default"; a_date := "11/03/2026";
     a_version := "1.0"; a_license := "Creative Commons Attribution (CC-BY 4.0)" |}.

(** The random numbers of [demo_random] after the one that [main]
    draws for [num_objects]. *)
Definition main_random : RandomSource :=
  {| rs_int := fun k => rs_int demo_random (pred k);
     rs_uniform := rs_uniform demo_random;
     rs_random := rs_random demo_random |}.

(** The run of [main] on that configuration with no file at the start:
    the three outputs, the files and the state that it leaves. *)
Definition demo_main_outputs : option (Output * Output * Output * gmap string File) :=
  Eval vm_compute in
    match fst (main sqrt_micro demo_host main_random demo_properties demo_args
                 demo_jitters demo_main_args demo_templates 10 3 5 ∅ empty_state) with
    | Ok outputs => outputs
    | Raise _ => None
    end.

Definition empty_output : Output :=
  {| out_date := ""; out_version := ""; out_split := ""; out_license := "";
     out_scenes := [] |}.

Definition demo_output : Output :=
  Eval vm_compute in
    match demo_main_outputs with
    | Some (output, _, _, _) => output
    | None => empty_output
    end.

Definition demo_sc_output : Output :=
  Eval vm_compute in
    match demo_main_outputs with
    | Some (_, sc_output, _, _) => sc_output
    | None => empty_output
    end.

Definition demo_nsc_output : Output :=
  Eval vm_compute in
    match demo_main_outputs with
    | Some (_, _, nsc_output, _) => nsc_output
    | None => empty_output
    end.

Definition demo_main_files : gmap string File :=
  Eval vm_compute in
    match demo_main_outputs with
    | Some (_, _, _, files) => files
    | None => ∅
    end.

Definition demo_main_state : State :=
  Eval vm_compute in
    snd (main sqrt_micro demo_host main_random demo_properties demo_args
           demo_jitters demo_main_args demo_templates 10 3 5 ∅ empty_state).

(** * Properties *)

(** ** Comparisons of rationals and equality of objects *)

Lemma Qltb_true a b : Qltb a b = true <-> a < b.
Proof.
  unfold Qltb. rewrite negb_true_iff.
  split; intros H.
  - apply Qnot_le_lt. intros Hle. apply Qle_bool_iff in Hle. congruence.
  - destruct (Qle_bool b a) eqn:E; [|reflexivity].
    apply Qle_bool_iff in E. lra.
Qed.

Lemma Qltb_false a b : Qltb a b = false <-> b <= a.
Proof.
  unfold Qltb. rewrite negb_false_iff. apply Qle_bool_iff.
Qed.

Lemma vec3_eqb_eq (u v : vec3) :
  vec3_eqb u v = true ->
  vx u == vx v /\ vy u == vy v /\ vz u == vz v.
Proof.
  unfold vec3_eqb. rewrite !andb_true_iff, !Qeq_bool_iff. tauto.
Qed.

Lemma Qeq_bool_refl (q : Q) : Qeq_bool q q = true.
Proof. apply Qeq_bool_iff. reflexivity. Qed.

Lemma vec3_eqb_refl (u : vec3) : vec3_eqb u u = true.
Proof. unfold vec3_eqb. rewrite !Qeq_bool_refl. reflexivity. Qed.

Lemma pixel_coords_eqb_refl (a : option PixelCoords) : pixel_coords_eqb a a = true.
Proof.
  destruct a as [[[px py] pz]|]; simpl; [|reflexivity].
  rewrite !Z.eqb_refl, Qeq_bool_refl. reflexivity.
Qed.

Lemma obj_eqb_refl (o : Obj) : obj_eqb o o = true.
Proof.
  unfold obj_eqb.
  rewrite !String.eqb_refl, vec3_eqb_refl, pixel_coords_eqb_refl, Qeq_bool_refl.
  reflexivity.
Qed.

Lemma obj_eqb_coords (a b : Obj) :
  obj_eqb a b = true -> vec3_eqb (o_3d_coords a) (o_3d_coords b) = true.
Proof.
  unfold obj_eqb. rewrite !andb_true_iff. tauto.
Qed.

(** Two objects that Python finds equal are at the same place, so the
    dot product of their difference with any direction is zero. *)
Lemma obj_eqb_dot_zero (obj1 obj2 : Obj) (v : vec3) :
  obj_eqb obj1 obj2 = true ->
  dot3 (vsub (o_3d_coords obj2) (o_3d_coords obj1)) v == 0.
Proof.
  intros H. apply obj_eqb_coords, vec3_eqb_eq in H.
  destruct H as (Hx & Hy & Hz).
  unfold dot3, vsub. cbn [vx vy vz fst snd].
  rewrite Hx, Hy, Hz. ring.
Qed.

(** ** check_visibility *)

Lemma in_insert_by_count (e x : RGBA * Z) (l : list (RGBA * Z)) :
  In e (insert_by_count x l) <-> e = x \/ In e l.
Proof.
  induction l as [|h t IH]; simpl.
  - intuition congruence.
  - destruct (snd h <=? snd x)%Z; simpl; [intuition congruence|].
    rewrite IH. intuition congruence.
Qed.

Lemma in_most_common (e : RGBA * Z) (cc : list (RGBA * Z)) :
  In e (most_common cc) <-> In e cc.
Proof.
  induction cc as [|x cc IH]; simpl; [tauto|].
  rewrite in_insert_by_count, IH. intuition congruence.
Qed.

Lemma counts_loop_true (l : list (RGBA * Z)) (m : Z) :
  counts_loop l m = true <-> (forall c k, In (c, k) l -> (m <= k)%Z).
Proof.
  induction l as [|[c k] l IH]; simpl.
  - split; [intros _ ? ? []|reflexivity].
  - destruct (Z.ltb_spec k m) as [Hlt|Hge].
    + split; [discriminate|]. intros H. specialize (H c k (or_introl eq_refl)). lia.
    + rewrite IH. split.
      * intros H c' k' [E|Hin]; [inversion E; subst; lia|eauto].
      * intros H c' k' Hin. eauto.
Qed.

(** What the code checks: the image has [num_objects + 1] colors and
    every one of them, the background too, fills at least
    [min_pixels_per_object] pixels. *)
Lemma check_pixels_true_iff (p : list Z) (num_objects : nat) (m : Z) :
  check_pixels p num_objects m = Ok true <->
  exists tuples, pixel_tuples p = Ok tuples /\
    length (Counter tuples) = (num_objects + 1)%nat /\
    forall c k, In (c, k) (Counter tuples) -> (m <= k)%Z.
Proof.
  unfold check_pixels. destruct (pixel_tuples p) as [tuples|e]; simpl.
  - destruct (Nat.eqb_spec (length (Counter tuples)) (num_objects + 1)) as [E|N]; simpl.
    + split.
      * intros H. exists tuples. split; [reflexivity|]. split; [exact E|].
        inversion H as [H1].
        intros c k Hin. apply (proj1 (counts_loop_true _ _) H1 c k).
        apply in_most_common. exact Hin.
      * intros (t & Ht & _ & Hall). inversion Ht; subst t. f_equal.
        apply counts_loop_true. intros c k Hin. apply (Hall c k).
        apply in_most_common. exact Hin.
    + split; [discriminate|]. intros (t & Ht & Hlen & _).
      inversion Ht; subst t. contradiction.
  - split; [discriminate|]. intros (t & Ht & _). discriminate.
Qed.

(** C3, at the failing input: with one object, a threshold of 2 pixels
    and an image whose two colors are the object's (3 pixels) and the
    background's (1 pixel), the image has [object_count + 1] colors and
    the object has enough pixels, and [check_visibility] still answers
    [False], because it also holds the background to the threshold. *)
Theorem check_visibility_counts_background :
  check_visibility small_background_blender [one_sphere] 2 = Ok false /\
  (exists tuples,
      pixel_tuples (shadeless_pixels small_background_blender [one_sphere]) = Ok tuples /\
      length (Counter tuples) = (length [one_sphere] + 1)%nat /\
      Counter tuples = [((255, 0, 0, 255), 3); ((64, 64, 64, 255), 1)]%Z /\
      (2 <= 3)%Z).
Proof.
  split; [reflexivity|].
  eexists. split; [reflexivity|]. split; [reflexivity|]. split; [reflexivity|lia].
Qed.

(** ** compute_all_relationships *)

Lemma related_loop_spec (obj1 : Obj) (v : vec3) (eps : Q) (objs : list Obj) :
  forall (j0 : nat) (related : gset nat) (k : nat),
    k ∈ related_loop obj1 v eps j0 objs related <->
    k ∈ related \/
    exists obj2, (j0 <= k)%nat /\ objs !! (k - j0)%nat = Some obj2 /\
      obj_eqb obj1 obj2 = false /\
      eps < dot3 (vsub (o_3d_coords obj2) (o_3d_coords obj1)) v.
Proof.
  induction objs as [|obj2 rest IH]; intros j0 related k; simpl.
  - split; [tauto|]. intros [H|(o & _ & H & _)]; [exact H|discriminate].
  - assert (Hshift : forall (P : Obj -> Prop),
      (exists o, (S j0 <= k)%nat /\ rest !! (k - S j0)%nat = Some o /\ P o) \/
      (k = j0 /\ P obj2) <->
      (exists o, (j0 <= k)%nat /\ (obj2 :: rest) !! (k - j0)%nat = Some o /\ P o)).
    { intros P. split.
      - intros [(o & Hle & Hl & HP)|[-> HP]].
        + exists o. split; [lia|]. split; [|exact HP].
          replace (k - j0)%nat with (S (k - S j0)) by lia. exact Hl.
        + exists obj2. split; [lia|]. split; [|exact HP].
          replace (j0 - j0)%nat with 0%nat by lia. reflexivity.
      - intros (o & Hle & Hl & HP).
        destruct (decide (k = j0)) as [->|Hne].
        + right. replace (j0 - j0)%nat with 0%nat in Hl by lia.
          simpl in Hl. inversion Hl; subst. tauto.
        + left. exists o. split; [lia|]. split; [|exact HP].
          replace (k - j0)%nat with (S (k - S j0)) in Hl by lia. exact Hl. }
    destruct (obj_eqb obj1 obj2) eqn:Heq.
    + rewrite IH.
      rewrite <- (Hshift (fun o => obj_eqb obj1 o = false /\
        eps < dot3 (vsub (o_3d_coords o) (o_3d_coords obj1)) v)).
      rewrite Heq. intuition congruence.
    + destruct (Qltb eps _) eqn:Hdot.
      * rewrite IH, elem_of_union, elem_of_singleton.
        rewrite <- (Hshift (fun o => obj_eqb obj1 o = false /\
          eps < dot3 (vsub (o_3d_coords o) (o_3d_coords obj1)) v)).
        apply Qltb_true in Hdot. tauto.
      * rewrite IH.
        rewrite <- (Hshift (fun o => obj_eqb obj1 o = false /\
          eps < dot3 (vsub (o_3d_coords o) (o_3d_coords obj1)) v)).
        apply Qltb_false in Hdot.
        split; [tauto|]. intros [H|[H|[_ [_ H]]]]; [tauto|tauto|lra].
Qed.

Lemma StronglySorted_le_lt (l : list nat) :
  StronglySorted le l -> NoDup l -> StronglySorted lt l.
Proof.
  induction 1 as [|x l Hs IH Hall]; intros Hnd; constructor.
  - apply IH. apply NoDup_cons_1_2 in Hnd. exact Hnd.
  - apply NoDup_cons_1_1 in Hnd.
    rewrite Forall_forall in *. intros y Hy.
    assert (x <> y) by (intros ->; apply Hnd; exact Hy).
    specialize (Hall y Hy). lia.
Qed.

Lemma sorted_spec (s : gset nat) :
  StronglySorted lt (sorted s) /\ forall j, j ∈ sorted s <-> j ∈ s.
Proof.
  unfold sorted. split.
  - apply StronglySorted_le_lt.
    + apply (StronglySorted_merge_sort le).
    + rewrite merge_sort_Permutation. apply NoDup_elements.
  - intros j. rewrite merge_sort_Permutation. apply elem_of_elements.
Qed.

Lemma lookup_map {A B} (f : A -> B) (l : list A) (i : nat) :
  map f l !! i = f <$> (l !! i).
Proof.
  revert i. induction l as [|a l IH]; intros [|i]; simpl; try reflexivity. apply IH.
Qed.

(** Which indices an entry of the result holds, for any [eps] that is
    not negative. *)
Lemma relationships_for_entry (objects : list Obj) (v : vec3) (eps : Q)
    (i : nat) (obj1 : Obj) :
  0 <= eps ->
  objects !! i = Some obj1 ->
  exists related,
    relationships_for objects v eps !! i = Some related /\
    StronglySorted lt related /\
    (forall j, j ∈ related <->
       exists obj2, j <> i /\ objects !! j = Some obj2 /\
         eps < dot3 (vsub (o_3d_coords obj2) (o_3d_coords obj1)) v) /\
    i ∉ related.
Proof.
  intros Heps Hi. unfold relationships_for.
  eexists. rewrite lookup_map, Hi. split; [reflexivity|].
  destruct (sorted_spec (related_loop obj1 v eps 0 objects ∅)) as [Hs Hmem].
  split; [exact Hs|].
  assert (Hchar : forall j, j ∈ sorted (related_loop obj1 v eps 0 objects ∅) <->
       exists obj2, j <> i /\ objects !! j = Some obj2 /\
         eps < dot3 (vsub (o_3d_coords obj2) (o_3d_coords obj1)) v).
  { intros j. rewrite Hmem, related_loop_spec. rewrite Nat.sub_0_r. split.
    - intros [H|(obj2 & _ & Hj & Hne & Hdot)]; [set_solver|].
      exists obj2. split; [|tauto].
      intros ->. rewrite Hi in Hj. inversion Hj; subst.
      rewrite obj_eqb_refl in Hne. discriminate.
    - intros (obj2 & _ & Hj & Hdot). right. exists obj2.
      split; [lia|]. split; [exact Hj|]. split; [|exact Hdot].
      destruct (obj_eqb obj1 obj2) eqn:E; [|reflexivity].
      pose proof (obj_eqb_dot_zero obj1 obj2 v E) as Hz. exfalso. lra. }
  split; [exact Hchar|].
  rewrite Hchar. intros (obj2 & Hne & _). congruence.
Qed.

Lemma relationships_for_length (objects : list Obj) (v : vec3) (eps : Q) :
  length (relationships_for objects v eps) = length objects.
Proof. unfold relationships_for. apply length_map. Qed.

Lemma compute_all_relationships_items (objects : list Obj) (d : Directions) (eps : Q) :
  compute_all_relationships objects d eps =
  [("behind", relationships_for objects (d_behind d) eps);
   ("front", relationships_for objects (d_front d) eps);
   ("left", relationships_for objects (d_left d) eps);
   ("right", relationships_for objects (d_right d) eps)].
Proof. reflexivity. Qed.


(** ** Running the monad *)

Lemma bind_Ok {A B} (m : M A) (k : A -> M B) (st st' : State) (v : B) :
  bind m k st = (Ok v, st') ->
  exists a st1, m st = (Ok a, st1) /\ k a st1 = (Ok v, st').
Proof.
  unfold bind. destruct (m st) as [[a|e] st1]; intros H; [eauto|discriminate].
Qed.

Lemma bind_run {A B} (m : M A) (k : A -> M B) (st st1 : State) (a : A) :
  m st = (Ok a, st1) -> bind m k st = k a st1.
Proof. unfold bind. intros ->. reflexivity. Qed.

Lemma lift_Ok {A} (r : result A) (st st' : State) (v : A) :
  lift r st = (Ok v, st') -> r = Ok v /\ st' = st.
Proof. unfold lift. intros H. inversion H. auto. Qed.

Lemma ret_Ok {A} (a v : A) (st st' : State) :
  ret a st = (Ok v, st') -> v = a /\ st' = st.
Proof. unfold ret. intros H. inversion H. auto. Qed.


(** Splits a run [x <- m; k] that ended well into the run of [m] and the
    run of [k]. *)
Ltac inv_bind H :=
  let a := fresh "a" in
  let st1 := fresh "st" in
  let H1 := fresh "Hrun" in
  apply bind_Ok in H; destruct H as (a & st1 & H1 & H).

Ltac inv_bind_as H a :=
  let st1 := fresh "st" in
  let H1 := fresh "Hrun" in
  apply bind_Ok in H; destruct H as (a & st1 & H1 & H).

Ltac inv_lift H :=
  let E := fresh "E" in
  apply lift_Ok in H; destruct H as [H E]; subst.

Ltac inv_ret H :=
  let E := fresh "E" in
  apply ret_Ok in H; destruct H as [H E]; subst.

Lemma AllPairs_nil {A} (R : A -> A -> Prop) : AllPairs R [].
Proof. intros i j a b _ H. discriminate. Qed.

Lemma AllPairs_snoc {A} (R : A -> A -> Prop) (l : list A) (b : A) :
  AllPairs R l -> Forall (fun a => R b a) l -> AllPairs R (l ++ [b]).
Proof.
  intros Hl Hb i j a' b' Hij Hi Hj.
  assert (Hjlen : (j < length (l ++ [b]))%nat) by (eapply lookup_lt_Some; eauto).
  rewrite length_app in Hjlen. simpl in Hjlen.
  rewrite lookup_app_l in Hi by lia.
  destruct (decide (j < length l)%nat) as [Hlt|Hge].
  - rewrite lookup_app_l in Hj by lia. exact (Hl i j a' b' Hij Hi Hj).
  - replace j with (length l + 0)%nat in Hj by lia.
    rewrite lookup_app_r in Hj by lia.
    replace (length l + 0 - length l)%nat with 0%nat in Hj by lia.
    simpl in Hj. inversion Hj; subst b'.
    rewrite Forall_forall in Hb. apply Hb.
    eapply list_elem_of_lookup_2. exact Hi.
Qed.

(** ** Placement: distances and margins *)

Section Placement.

Variable sqrt : Q -> Q.
Variable args : Args.
Variable directions : Directions.




Variable rs : RandomSource.


End Placement.

(** ** The state between the steps *)

Lemma choice_In {A} (rs : RandomSource) (l : list A) (st st' : State) (a : A) :
  choice rs l st = (Ok a, st') -> In a l.
Proof.
  unfold choice. destruct l as [|x l]; [discriminate|].
  intros H. inv_bind H.
  destruct (_ !! _) eqn:E in H; [|discriminate].
  inv_ret H. apply list_elem_of_In. eapply list_elem_of_lookup_2. exact E.
Qed.

Lemma choice_heap {A} (rs : RandomSource) (l : list A) (st st' : State) (r : result A) :
  choice rs l st = (r, st') -> heap st' = heap st.
Proof.
  unfold choice, bind, next_int, ret, raise. destruct l as [|x l].
  - intros H. inversion H. reflexivity.
  - destruct (_ !! _); intros H; inversion H; reflexivity.
Qed.

(** ** The base scene: C1 and C2 for add_random_objects *)

Section Layout.

Variable sqrt : Q -> Q.
Variable bl : Blender.
Variable rs : RandomSource.
Variable properties : Properties.
Variable args : Args.
Variable directions : Directions.


Hypothesis sqrt2_ge_1 : 1 <= sqrt 2.
Hypothesis sizes_nonneg :
  forall name r, In (name, r) (p_sizes properties) -> 0 <= r.






End Layout.

(** ** Steps that leave the store alone *)

Section StoreSteps.

Variable sqrt : Q -> Q.
Variable bl : Blender.
Variable rs : RandomSource.
Variable properties : Properties.
Variable args : Args.
Variable directions : Directions.

Lemma uniform_heap (a b : Q) (st st' : State) (r : result Q) :
  uniform rs a b st = (r, st') -> heap st' = heap st.
Proof. unfold uniform. intros H. inversion H. reflexivity. Qed.

Lemma random_heap (st st' : State) (r : result Q) :
  random rs st = (r, st') -> heap st' = heap st.
Proof. unfold random. intros H. inversion H. reflexivity. Qed.

Lemma randint_heap (a b : Z) (st st' : State) (r : result Z) :
  randint rs a b st = (r, st') -> heap st' = heap st.
Proof.
  unfold randint, bind, next_int, ret, raise.
  destruct (_ <=? 0)%Z; intros H; inversion H; reflexivity.
Qed.

Lemma lift_heap {A} (x : result A) (st st' : State) (r : result A) :
  lift x st = (r, st') -> heap st' = heap st.
Proof. unfold lift. intros H. inversion H. reflexivity. Qed.

Lemma ret_heap {A} (x : A) (st st' : State) (r : result A) :
  ret x st = (r, st') -> heap st' = heap st.
Proof. unfold ret. intros H. inversion H. reflexivity. Qed.

Lemma raise_heap {A} (e : exn) (st st' : State) (r : result A) :
  raise e st = (r, st') -> heap st' = heap st.
Proof. unfold raise. intros H. inversion H. reflexivity. Qed.

(** A run [x <- m; k], whatever its end: either [m] raised, or [m]
    gave a value and [k] ran. *)
Lemma bind_cases {A B} (m : M A) (k : A -> M B) (st st' : State) (r : result B) :
  bind m k st = (r, st') ->
  (exists e, m st = (Raise e, st') /\ r = Raise e) \/
  (exists a st1, m st = (Ok a, st1) /\ k a st1 = (r, st')).
Proof.
  unfold bind. destruct (m st) as [[a|e] st1]; intros H.
  - right. eauto.
  - left. inversion H; subst. eauto.
Qed.

Lemma sample_position_heap (tries : nat) (r : Q) (positions : list (Q * Q * Q)) :
  forall st st' res,
    sample_position sqrt rs args directions tries r positions st = (res, st') ->
    heap st' = heap st.
Proof.
  induction tries as [|tries IH]; intros st st' res H; cbn [sample_position] in H.
  - eapply ret_heap; eauto.
  - apply bind_cases in H. destruct H as [(e & H & _)|(x & st1 & Hx & H)].
    { eapply uniform_heap; eauto. }
    apply uniform_heap in Hx. rewrite <- Hx.
    apply bind_cases in H. destruct H as [(e & H & _)|(y & st2 & Hy & H)].
    { eapply uniform_heap; eauto. }
    apply uniform_heap in Hy. rewrite <- Hy.
    apply bind_cases in H. destruct H as [(e & H & _)|(g & st3 & Hg & H)].
    { eapply lift_heap; eauto. }
    apply lift_heap in Hg. rewrite <- Hg.
    destruct g; [eapply ret_heap; eauto|eapply IH; eauto].
Qed.

Lemma choose_shape_color_heap (st st' : State)
    (res : result (string * string * string * list Q)) :
  choose_shape_color rs properties args st = (res, st') -> heap st' = heap st.
Proof.
  unfold choose_shape_color. intros H.
  destruct (shape_color_combos args) as [combos|].
  - apply bind_cases in H. destruct H as [(e & H & _)|([n cs] & st1 & H1 & H)].
    { eapply choice_heap; eauto. }
    apply choice_heap in H1. rewrite <- H1.
    apply bind_cases in H. destruct H as [(e & H & _)|(c & st2 & H2 & H)].
    { eapply choice_heap; eauto. }
    apply choice_heap in H2. rewrite <- H2.
    apply bind_cases in H. destruct H as [(e & H & _)|(c3 & st3 & H3 & H)].
    { eapply lift_heap; eauto. }
    apply lift_heap in H3. rewrite <- H3.
    apply bind_cases in H. destruct H as [(e & H & _)|(c4 & st4 & H4 & H)].
    { eapply lift_heap; eauto. }
    apply lift_heap in H4. rewrite <- H4.
    eapply ret_heap; eauto.
  - apply bind_cases in H. destruct H as [(e & H & _)|([n cs] & st1 & H1 & H)].
    { eapply choice_heap; eauto. }
    apply choice_heap in H1. rewrite <- H1.
    apply bind_cases in H. destruct H as [(e & H & _)|([c rgba] & st2 & H2 & H)].
    { eapply choice_heap; eauto. }
    apply choice_heap in H2. rewrite <- H2.
    eapply ret_heap; eauto.
Qed.

Lemma position_of_semantic (o o' : Obj) :
  semantic_fields o = semantic_fields o' -> position_of sqrt properties o = position_of sqrt properties o'.
Proof.
  unfold semantic_fields, position_of. intros H. inversion H.
  repeat match goal with E : _ = _ |- _ => rewrite E; clear E end. reflexivity.
Qed.

Lemma read_Ok (a : loc) (st st' : State) (o : Obj) :
  read a st = (Ok o, st') -> heap st !! a = Some o /\ st' = st.
Proof.
  unfold read. destruct (heap st !! a); intros H; inversion H; auto.
Qed.

Lemma alloc_Ok (o : Obj) (st st' : State) (a : loc) :
  alloc o st = (Ok a, st') -> a = length (heap st) /\ heap st' = heap st ++ [o].
Proof. unfold alloc. intros H. inversion H. auto. Qed.

Lemma deepcopy_Ok (a b : loc) (st st' : State) :
  deepcopy a st = (Ok b, st') ->
  exists o, heap st !! a = Some o /\ b = length (heap st) /\
            heap st' = heap st ++ [o].
Proof.
  unfold deepcopy. intros H. inv_bind H.
  apply read_Ok in Hrun. destruct Hrun as [Ho ->].
  apply alloc_Ok in H. destruct H as [-> Hh]. eauto.
Qed.

Lemma lookup_snoc_old {A} (l : list A) (x : A) (a : nat) (o : A) :
  l !! a = Some o -> (l ++ [x]) !! a = Some o.
Proof.
  intros H. rewrite lookup_app_l; [exact H|]. eapply lookup_lt_Some; eauto.
Qed.

(** The first loop of the add change reads each object of the base,
    computes its position and appends its copy to the store. *)
Lemma add_collect_spec (objs : list loc) :
  forall other_positions new_objects st other_positions' new_objects' st',
    add_collect sqrt properties objs other_positions new_objects st
      = (Ok (other_positions', new_objects'), st') ->
    exists os ps,
      heap st' = heap st ++ os /\
      Forall2 (fun a o => heap st' !! a = Some o) objs os /\
      Forall2 (fun o p => position_of sqrt properties o = Ok p) os ps /\
      other_positions' = other_positions ++ ps /\
      new_objects' = new_objects ++ seq (length (heap st)) (length objs).
Proof.
  induction objs as [|obj rest IH];
    intros ops news st ops' news' st' H; cbn [add_collect] in H.
  - inv_ret H. inversion H; subst. exists [], [].
    rewrite !app_nil_r. repeat split; constructor.
  - inv_bind H. apply read_Ok in Hrun. destruct Hrun as [Ho ->].
    inv_bind H. inv_lift Hrun.
    inv_bind H. inv_lift Hrun0.
    destruct (o_3d_coords a) as [[x y] z] eqn:Hc.
    inv_bind H. apply deepcopy_Ok in Hrun1.
    destruct Hrun1 as (o & Ho' & -> & Hh).
    rewrite Ho in Ho'. inversion Ho'; subst o.
    apply IH in H. destruct H as (os & ps & Hheap & Hread & Hpos & -> & ->).
    exists (a :: os), ((x, y, cube_adjust sqrt a0 a1) :: ps).
    rewrite Hheap, Hh, <- !app_assoc. cbn [app].
    split; [reflexivity|].
    split.
    { constructor.
      - rewrite lookup_app_l by (eapply lookup_lt_Some; eauto). exact Ho.
      - rewrite Hheap, Hh, <- app_assoc in Hread. exact Hread. }
    split.
    { constructor; [|exact Hpos].
      unfold position_of. rewrite Hrun, Hrun0. cbn [rbind]. rewrite Hc. reflexivity. }
    split; [reflexivity|].
    rewrite length_app. cbn [length seq].
    replace (length (heap st) + 1)%nat with (S (length (heap st))) by lia.
    reflexivity.
Qed.

Lemma write_pixel_coords_Ok (a : loc) (pc : option PixelCoords) (st st' : State) (u : unit) :
  write_pixel_coords a pc st = (Ok u, st') ->
  exists o, heap st !! a = Some o /\
            heap st' = <[a := set_pixel_coords o pc]> (heap st).
Proof.
  unfold write_pixel_coords. destruct (heap st !! a) as [o|]; intros H; inversion H.
  eauto.
Qed.

Lemma render_object_Ok (obj : loc) (st st' : State)
    (b : BlenderObj) (p : Q * Q * Q) (pc : PixelCoords) :
  render_object sqrt bl properties obj st = (Ok (b, p, pc), st') ->
  st' = st /\ exists o, heap st !! obj = Some o /\ position_of sqrt properties o = Ok p /\
    bo_position b = p.
Proof.
  unfold render_object. intros H.
  inv_bind H. apply read_Ok in Hrun. destruct Hrun as [Ho ->].
  inv_bind H. inv_lift Hrun.
  inv_bind H. inv_lift Hrun0.
  inv_bind H. inv_lift Hrun1.
  inv_bind H. inv_lift Hrun2.
  destruct (o_3d_coords a) as [[x y] z] eqn:Hc.
  inv_ret H. inversion H; subst. split; [reflexivity|].
  exists a. split; [exact Ho|]. split; [|reflexivity].
  unfold position_of. rewrite Hrun, Hrun1. cbn [rbind]. rewrite Hc. reflexivity.
Qed.

(** The rendering loop changes nothing but ['pixel_coords'], and it
    ends well only if every object has a position. *)
Lemma render_objects_spec (new_objects : list loc) :
  forall acc st bos st',
    render_objects sqrt bl properties new_objects acc st = (Ok bos, st') ->
    length (heap st') = length (heap st) /\
    (forall a, semantic_fields <$> (heap st' !! a) = semantic_fields <$> (heap st !! a)) /\
    Forall (fun a => exists o p, heap st !! a = Some o /\ position_of sqrt properties o = Ok p)
           new_objects /\
    length bos = (length acc + length new_objects)%nat.
Proof.
  induction new_objects as [|obj rest IH]; intros acc st bos st' H;
    cbn [render_objects] in H.
  - inv_ret H. split; [reflexivity|]. split; [reflexivity|].
    split; [apply Forall_nil_2|cbn [length]; lia].
  - inv_bind H. destruct a as [[b p] pc].
    apply render_object_Ok in Hrun. destruct Hrun as [-> (o & Ho & Hp & _)].
    inv_bind H. apply write_pixel_coords_Ok in Hrun.
    destruct Hrun as (o' & Ho' & Hh).
    rewrite Ho in Ho'. inversion Ho'; subst o'.
    apply IH in H. destruct H as (Hlen & Hsem & Hall & Hb).
    match type of Hh with heap ?s = _ =>
      assert (Hstep : forall c, semantic_fields <$> (heap s !! c)
                                = semantic_fields <$> (heap st !! c))
    end.
    { intros c. rewrite Hh. destruct (decide (c = obj)) as [->|Hne].
      - rewrite list_lookup_insert_eq by (eapply lookup_lt_Some; eauto).
        rewrite Ho. reflexivity.
      - rewrite list_lookup_insert_ne by congruence. reflexivity. }
    split; [rewrite Hlen, Hh, length_insert; reflexivity|].
    split; [intros c; rewrite Hsem; apply Hstep|].
    split.
    + constructor; [eauto|].
      eapply Forall_impl; [exact Hall|].
      intros c (o1 & p1 & Ho1 & Hp1).
      pose proof (Hstep c) as Hs. rewrite Ho1 in Hs.
      destruct (heap st !! c) as [o0|] eqn:E0; [|discriminate].
      exists o0, p1. split; [reflexivity|].
      rewrite <- Hp1. apply position_of_semantic.
      cbn in Hs. congruence.
    + rewrite Hb, length_app. cbn [length]. lia.
Qed.

End StoreSteps.

(** ** The add change: the new object against the objects of the base *)

Lemma value_of_In {B} (l : list (string * B)) (k : string) (v : B) :
  NoDup (map fst l) -> In (k, v) l ->
  first_match (fun kv => String.eqb (fst kv) k) snd l = Ok v.
Proof.
  unfold first_match. induction l as [|[k' v'] l IH]; intros Hnd Hin; [destruct Hin|].
  cbn [map fst] in Hnd. apply NoDup_cons in Hnd. destruct Hnd as [Hk' Hnd].
  cbn [List.filter fst]. destruct (String.eqb_spec k' k) as [->|Hne].
  - destruct Hin as [E|Hin]; [inversion E; reflexivity|].
    exfalso. apply Hk'. apply list_elem_of_In. apply in_map_iff.
    exists (k, v). split; [reflexivity|exact Hin].
  - destruct Hin as [E|Hin]; [inversion E; congruence|]. apply IH; assumption.
Qed.

Section AddVariant.

Variable sqrt : Q -> Q.
Variable bl : Blender.
Variable rs : RandomSource.
Variable properties : Properties.
Variable args : Args.
Variable directions : Directions.





End AddVariant.

(** ** C1 and C2 *)

Section Symmetry.

Variable sqrt : Q -> Q.
Variable args : Args.
Variables plane_behind plane_left plane_up : vec3.

(** [math.sqrt] gives one result for one number. *)
Hypothesis sqrt_compat : forall a b, a == b -> sqrt a == sqrt b.




End Symmetry.




(** ** The configuration satisfies what the theorems ask *)




Lemma demo_sizes_keys : NoDup (map fst (p_sizes demo_properties)).
Proof. apply (bool_decide_unpack _). vm_compute. exact I. Qed.

Lemma demo_scene_run :
  add_random_objects sqrt_micro demo_blender demo_random demo_properties
    demo_args demo_directions 1 2 empty_state
  = (Ok (fst demo_scene, snd demo_scene), demo_scene_state).
Proof. vm_compute. reflexivity. Qed.

Lemma demo_variant_add_run :
  demo_variant "add"
  = (Ok (Some (demo_variant_objects "add", demo_variant_blender "add")),
     snd (demo_variant "add")).
Proof. vm_compute. reflexivity. Qed.



(** ** C7: the restarts of add_random_objects *)

Lemma choice_nonempty {A} (rs : RandomSource) (l : list A) (st : State) :
  l <> [] -> exists a st1, choice rs l st = (Ok a, st1) /\ In a l.
Proof.
  intros Hne. unfold choice. destruct l as [|x l]; [congruence|].
  unfold bind, next_int.
  assert (Hlt : (rs_int rs (n_int st) mod length (x :: l) < length (x :: l))%nat)
    by (apply Nat.mod_upper_bound; cbn [length]; lia).
  apply lookup_lt_is_Some_2 in Hlt. destruct Hlt as [a Ha]. rewrite Ha.
  eexists a, _. split; [reflexivity|].
  apply list_elem_of_In. eapply list_elem_of_lookup_2. exact Ha.
Qed.

(** The sampling loop draws at most two numbers for each of its tries,
    however it ends. *)
Lemma sample_position_draws (sqrt : Q -> Q) (rs : RandomSource) (args : Args)
    (directions : Directions) (tries : nat) (r : Q) (positions : list (Q * Q * Q)) :
  forall st,
    (n_uniform (snd (sample_position sqrt rs args directions tries r positions st))
     <= n_uniform st + 2 * tries)%nat.
Proof.
  induction tries as [|tries IH]; intros st; cbn [sample_position].
  - cbn. lia.
  - unfold bind at 1. unfold uniform at 1.
    unfold bind at 1. unfold uniform at 1.
    unfold bind at 1. unfold lift at 1.
    destruct (check_dist_margin _ _ _ _ _) as [[|]|e]; cbn [ret snd n_uniform].
    + lia.
    + match goal with |- (n_uniform (snd (sample_position _ _ _ _ _ _ _ ?s)) <= _)%nat =>
        specialize (IH s) end.
      cbn [n_uniform] in IH. lia.
    + lia.
Qed.

Section Restart.

Variable sqrt : Q -> Q.
Variable bl : Blender.
Variable rs : RandomSource.
Variable properties : Properties.
Variable args : Args.
Variable directions : Directions.

(** With no retry allowed, the first object already gives the scene up. *)
Lemma place_objects_gives_up (n : nat) (positions : list (Q * Q * Q))
    (objects : list Obj) (blender_objects : list BlenderObj) (st : State) :
  (a_max_retries args <= 0)%Z ->
  p_sizes properties <> [] ->
  exists st1,
    place_objects sqrt bl rs properties args directions (S n)
      positions objects blender_objects st = (Ok None, st1).
Proof.
  intros Hmax Hsizes. cbn [place_objects].
  destruct (choice_nonempty rs (size_mapping properties) st Hsizes)
    as ([size_name r] & st1 & Hc & _).
  rewrite (bind_run _ _ _ _ _ Hc).
  replace (Z.to_nat (a_max_retries args)) with 0%nat by lia.
  cbn [sample_position]. exists st1. reflexivity.
Qed.

Lemma add_random_objects_never_returns (depth n : nat) :
  (a_max_retries args <= 0)%Z ->
  p_sizes properties <> [] ->
  forall st,
    fst (add_random_objects sqrt bl rs properties args directions depth (S n) st)
    = Raise RecursionError.
Proof.
  intros Hmax Hsizes. induction depth as [|depth IH]; intros st.
  - reflexivity.
  - cbn [add_random_objects].
    destruct (place_objects_gives_up n [] [] [] st Hmax Hsizes) as (st1 & Hrun).
    rewrite (bind_run _ _ _ _ _ Hrun). apply IH.
Qed.

End Restart.

Lemma add_random_objects_returned (sqrt : Q -> Q) (bl : Blender) (rs : RandomSource)
    (properties : Properties) (args : Args) (directions : Directions)
    (depth num_objects : nat) :
  forall st objects blender_objects st',
    add_random_objects sqrt bl rs properties args directions depth num_objects st
      = (Ok (objects, blender_objects), st') ->
    check_visibility bl blender_objects (a_min_pixels_per_object args) = Ok true /\
    exists st1,
      place_objects sqrt bl rs properties args directions num_objects [] [] [] st1
      = (Ok (Some (objects, blender_objects)), st').
Proof.
  induction depth as [|depth IH]; intros st objects blender_objects st' H;
    cbn [add_random_objects] in H; [discriminate|].
  inv_bind_as H placed. destruct placed as [[objs bos]|]; [|eapply IH; exact H].
  inv_bind_as H all_visible. destruct all_visible; [|eapply IH; exact H].
  inv_lift Hrun0. inv_ret H. inversion H; subst objs bos.
  split; [exact Hrun0|]. eexists. exact Hrun.
Qed.

(** C7, as the code has it: the loop that places one object stops after
    at most [max_retries] sampled positions, and then the function calls
    itself again for the whole scene, with no count of the restarts and no
    outcome other than a returned scene or an exception of the
    interpreter.  A scene is returned only from an attempt that placed
    every object and passed [check_visibility].  When no retry is allowed
    ([max_retries <= 0]), a scene of at least one object is given up at
    once each time, so that no depth of recursion is enough to return. *)
Theorem add_random_objects_restarts (sqrt : Q -> Q) (bl : Blender) (rs : RandomSource)
    (properties : Properties) (args : Args) (directions : Directions) :
  (forall r positions st,
      (n_uniform (snd (sample_position sqrt rs args directions
                         (Z.to_nat (a_max_retries args)) r positions st))
       <= n_uniform st + 2 * Z.to_nat (a_max_retries args))%nat) /\
  (forall depth num_objects st objects blender_objects st',
      add_random_objects sqrt bl rs properties args directions depth num_objects st
        = (Ok (objects, blender_objects), st') ->
      check_visibility bl blender_objects (a_min_pixels_per_object args) = Ok true /\
      exists st1,
        place_objects sqrt bl rs properties args directions num_objects [] [] [] st1
        = (Ok (Some (objects, blender_objects)), st')) /\
  ((a_max_retries args <= 0)%Z ->
   p_sizes properties <> [] ->
   forall depth n st,
     fst (add_random_objects sqrt bl rs properties args directions depth (S n) st)
     = Raise RecursionError).
Proof.
  split; [|split].
  - intros r positions st. apply sample_position_draws.
  - intros depth num_objects. apply add_random_objects_returned.
  - intros Hmax Hsizes depth n st. apply add_random_objects_never_returns; assumption.
Qed.

Lemma no_retry_sizes : p_sizes demo_properties <> [].
Proof. discriminate. Qed.

Lemma add_random_objects_restarts_witness :
  (n_uniform (snd (sample_position sqrt_micro demo_random no_retry_args demo_directions
                     (Z.to_nat (a_max_retries no_retry_args)) (7 / 10) [] empty_state))
   <= n_uniform empty_state + 2 * Z.to_nat (a_max_retries no_retry_args))%nat /\
  fst (add_random_objects sqrt_micro demo_blender demo_random demo_properties
         no_retry_args demo_directions 1000 1 empty_state)
  = Raise RecursionError.
Proof.
  destruct (add_random_objects_restarts sqrt_micro demo_blender demo_random
              demo_properties no_retry_args demo_directions)
    as (Hloop & _ & Hrestart).
  split.
  - exact (Hloop (7 / 10) [] empty_state).
  - exact (Hrestart ltac:(cbn; lia) no_retry_sizes 1000%nat 0%nat empty_state).
Defined.

(** C7 as it is stated fails: with [--max_retries 0] and one object to
    place, no depth of recursion lets [add_random_objects] end otherwise
    than by running out of depth. *)
Lemma add_random_objects_no_termination :
  ~ exists depth,
      fst (add_random_objects sqrt_micro demo_blender demo_random demo_properties
             no_retry_args demo_directions depth 1 empty_state)
      <> Raise RecursionError.
Proof.
  intros (depth & Hne). apply Hne.
  apply add_random_objects_never_returns; [cbn; lia|discriminate].
Qed.

(** ** C8: the add change gives up after max_retries candidates *)

Lemma draws_bind {A B} (c1 c2 : nat) (m : M A) (k : A -> M B) :
  draws_at_most c1 m -> (forall a, draws_at_most c2 (k a)) ->
  draws_at_most (c1 + c2) (bind m k).
Proof.
  intros Hm Hk st. unfold bind. specialize (Hm st).
  destruct (m st) as [[a|e] st1]; cbn [snd] in *.
  - specialize (Hk a st1). lia.
  - lia.
Qed.

Lemma draws_bind_0 {A B} (c : nat) (m : M A) (k : A -> M B) :
  draws_at_most 0 m -> (forall a, draws_at_most c (k a)) ->
  draws_at_most c (bind m k).
Proof. intros Hm Hk. apply (draws_bind 0 c); assumption. Qed.

Lemma draws_ret {A} (a : A) : draws_at_most 0 (ret a).
Proof. intros st. cbn. lia. Qed.

Lemma draws_lift {A} (r : result A) : draws_at_most 0 (lift r).
Proof. intros st. cbn. lia. Qed.

Lemma draws_read (a : loc) : draws_at_most 0 (read a).
Proof. intros st. unfold read. destruct (heap st !! a); cbn; lia. Qed.

Lemma draws_alloc (o : Obj) : draws_at_most 0 (alloc o).
Proof. intros st. cbn. lia. Qed.

Lemma draws_write_pixel_coords (a : loc) (pc : option PixelCoords) :
  draws_at_most 0 (write_pixel_coords a pc).
Proof. intros st. unfold write_pixel_coords. destruct (heap st !! a); cbn; lia. Qed.

Lemma draws_choice {A} (rs : RandomSource) (l : list A) : draws_at_most 0 (choice rs l).
Proof.
  intros st. unfold choice, bind, next_int, ret, raise.
  destruct l; [cbn; lia|]. destruct (_ !! _); cbn; lia.
Qed.

Lemma draws_random (rs : RandomSource) : draws_at_most 0 (random rs).
Proof. intros st. cbn. lia. Qed.

Lemma draws_deepcopy (a : loc) : draws_at_most 0 (deepcopy a).
Proof.
  unfold deepcopy. apply draws_bind_0; [apply draws_read|].
  intros o. apply draws_alloc.
Qed.

Section AddRetries.

Variable sqrt : Q -> Q.
Variable bl : Blender.
Variable rs : RandomSource.
Variable properties : Properties.
Variable args : Args.
Variable directions : Directions.

Lemma draws_choose_shape_color : draws_at_most 0 (choose_shape_color rs properties args).
Proof.
  unfold choose_shape_color. destruct (shape_color_combos args).
  - apply draws_bind_0; [apply draws_choice|]. intros [n cs].
    apply draws_bind_0; [apply draws_choice|]. intros c.
    apply draws_bind_0; [apply draws_lift|]. intros n'.
    apply draws_bind_0; [apply draws_lift|]. intros rgba. apply draws_ret.
  - apply draws_bind_0; [apply draws_choice|]. intros [n cs].
    apply draws_bind_0; [apply draws_choice|]. intros [c rgba]. apply draws_ret.
Qed.

Lemma draws_add_collect (objs : list loc) :
  forall other_positions new_objects,
    draws_at_most 0 (add_collect sqrt properties objs other_positions new_objects).
Proof.
  induction objs as [|obj rest IH]; intros ops news; cbn [add_collect].
  - apply draws_ret.
  - apply draws_bind_0; [apply draws_read|]. intros o.
    apply draws_bind_0; [apply draws_lift|]. intros n.
    apply draws_bind_0; [apply draws_lift|]. intros r.
    destruct (o_3d_coords o) as [[x y] z].
    apply draws_bind_0; [apply draws_deepcopy|]. intros b. apply IH.
Qed.

Lemma draws_render_objects (new_objects : list loc) :
  forall acc, draws_at_most 0 (render_objects sqrt bl properties new_objects acc).
Proof.
  induction new_objects as [|obj rest IH]; intros acc; cbn [render_objects].
  - apply draws_ret.
  - apply draws_bind_0.
    + unfold render_object.
      apply draws_bind_0; [apply draws_read|]. intros o.
      apply draws_bind_0; [apply draws_lift|]. intros n.
      apply draws_bind_0; [apply draws_lift|]. intros c.
      apply draws_bind_0; [apply draws_lift|]. intros r.
      apply draws_bind_0; [apply draws_lift|]. intros m.
      destruct (o_3d_coords o) as [[x y] z]. apply draws_ret.
    + intros [[b p] pc].
      apply draws_bind_0; [apply draws_write_pixel_coords|]. intros _. apply IH.
Qed.

Lemma draws_change_add (default_objects : list loc) :
  draws_at_most (2 * Z.to_nat (a_max_retries args))
    (change_add sqrt rs properties args directions default_objects).
Proof.
  unfold change_add.
  apply draws_bind_0; [apply draws_choice|]. intros [new_size_name new_r].
  apply draws_bind_0; [apply draws_add_collect|]. intros [other_positions new_objects].
  replace (2 * Z.to_nat (a_max_retries args))%nat
    with (2 * Z.to_nat (a_max_retries args) + 0)%nat by lia.
  apply draws_bind; [intros st; apply sample_position_draws|].
  intros [[new_x new_y]|]; [|apply draws_ret].
  apply draws_bind_0; [apply draws_choose_shape_color|].
  intros [[[n1 n2] c] rgba].
  apply draws_bind_0; [apply draws_random|]. intros theta0.
  apply draws_bind_0; [apply draws_choice|]. intros [m1 m2].
  apply draws_bind_0; [apply draws_alloc|]. intros b. apply draws_ret.
Qed.

Lemma draws_apply_change_add (fuel : nat) (default_objects : list loc) :
  draws_at_most (2 * Z.to_nat (a_max_retries args))
    (apply_change sqrt bl rs properties args directions fuel default_objects "add").
Proof.
  unfold apply_change.
  change (changed_objects sqrt rs properties args directions fuel default_objects "add")
    with (change_add sqrt rs properties args directions default_objects).
  replace (2 * Z.to_nat (a_max_retries args))%nat
    with (2 * Z.to_nat (a_max_retries args) + 0)%nat by lia.
  apply draws_bind; [apply draws_change_add|].
  intros [news|]; [|apply draws_ret].
  apply draws_bind_0; [apply draws_render_objects|]. intros bos.
  apply draws_bind_0; [apply draws_lift|]. intros [|]; apply draws_ret.
Qed.

End AddRetries.

Lemma choice_run {A} (rs : RandomSource) (l : list A) (st : State) (a : A) :
  l !! (rs_int rs (n_int st) mod length l)%nat = Some a ->
  choice rs l st = (Ok a, drew_int st).
Proof.
  intros H. unfold choice. destruct l as [|x l]; [discriminate|].
  unfold bind, next_int. fold (drew_int st). rewrite H. reflexivity.
Qed.

Section AddExhausted.

Variable sqrt : Q -> Q.
Variable bl : Blender.
Variable rs : RandomSource.
Variable properties : Properties.
Variable args : Args.
Variable directions : Directions.

Lemma sample_position_rejected (tries : nat) (r : Q) (positions : list (Q * Q * Q)) :
  forall st,
    (forall k, (k < tries)%nat ->
       check_dist_margin sqrt args directions
         (candidate rs (n_uniform st + 2 * k) r) positions = Ok false) ->
    exists st1,
      sample_position sqrt rs args directions tries r positions st = (Ok None, st1).
Proof.
  induction tries as [|tries IH]; intros st Hrej; cbn [sample_position].
  - exists st. reflexivity.
  - unfold bind at 1. unfold uniform at 1.
    unfold bind at 1. unfold uniform at 1. cbn [n_uniform].
    unfold bind at 1. unfold lift at 1.
    pose proof (Hrej 0%nat ltac:(lia)) as H0.
    replace (n_uniform st + 2 * 0)%nat with (n_uniform st) in H0 by lia.
    unfold candidate in H0. rewrite H0.
    apply IH. intros k Hk. cbn [n_uniform].
    specialize (Hrej (S k) ltac:(lia)).
    replace (n_uniform st + 2 * S k)%nat with (S (S (n_uniform st)) + 2 * k)%nat
      in Hrej by lia.
    exact Hrej.
Qed.

(** The first loop of the add change runs to its end when every object
    of the base has a position. *)
Lemma add_collect_run (objs : list loc) :
  forall other_positions new_objects st ps,
    Forall2 (fun b p => exists ob, heap st !! b = Some ob /\
                                   position_of sqrt properties ob = Ok p) objs ps ->
    exists news st',
      add_collect sqrt properties objs other_positions new_objects st
        = (Ok (other_positions ++ ps, news), st') /\
      n_uniform st' = n_uniform st.
Proof.
  induction objs as [|obj rest IH]; intros ops news st ps Hall.
  - apply Forall2_nil_inv_l in Hall. subst ps. cbn [add_collect].
    exists news, st. rewrite app_nil_r. split; reflexivity.
  - apply Forall2_cons_inv_l in Hall.
    destruct Hall as (p & ps' & (ob & Hob & Hp) & Hrest & ->).
    cbn [add_collect]. unfold bind at 1. unfold read at 1. rewrite Hob.
    unfold position_of in Hp.
    destruct (key_of (object_mapping properties) (o_shape ob)) as [n|e] eqn:Hn;
      [|discriminate].
    destruct (value_of (size_mapping properties) (o_size ob)) as [r|e] eqn:Hr;
      [|discriminate].
    cbn [rbind] in Hp.
    unfold bind at 1. unfold lift at 1.
    unfold bind at 1. unfold lift at 1.
    destruct (o_3d_coords ob) as [[x y] z]. inversion Hp; subst p. clear Hp.
    unfold bind at 1. unfold deepcopy, bind at 1. unfold read at 1. rewrite Hob.
    unfold alloc at 1.
    match goal with |- context [add_collect _ _ rest ?o ?n ?s] =>
      destruct (IH o n s ps') as (news' & st' & Hrun & Hu)
    end.
    { eapply Forall2_impl; [exact Hrest|].
      intros b q (ob' & Hb & Hq). exists ob'. split; [|exact Hq].
      cbn [heap]. apply lookup_snoc_old. exact Hb. }
    exists news', st'. rewrite Hrun, <- app_assoc. split; [reflexivity|exact Hu].
Qed.

(** When every candidate of the [max_retries] tries is rejected, the
    add change returns [None, None, False]. *)
Lemma apply_change_add_exhausted (fuel : nat) (default_objects : list loc)
    (st : State) (new_size_name : string) (new_r : Q)
    (other_positions : list (Q * Q * Q)) :
  size_mapping properties
    !! (rs_int rs (n_int st) mod length (size_mapping properties))%nat
    = Some (new_size_name, new_r) ->
  Forall2 (fun b p => exists ob, heap st !! b = Some ob /\
                                 position_of sqrt properties ob = Ok p)
          default_objects other_positions ->
  (forall k, (k < Z.to_nat (a_max_retries args))%nat ->
     check_dist_margin sqrt args directions
       (candidate rs (n_uniform st + 2 * k) new_r) other_positions = Ok false) ->
  fst (apply_change sqrt bl rs properties args directions fuel default_objects "add" st)
  = Ok None.
Proof.
  intros Hsize Hbase Hrej.
  assert (Hadd : exists st3,
    change_add sqrt rs properties args directions default_objects st = (Ok None, st3)).
  { unfold change_add.
    rewrite (bind_run _ _ _ _ _ (choice_run rs _ st _ Hsize)).
    destruct (add_collect_run default_objects [] [] (drew_int st) other_positions Hbase)
      as (news & st2 & Hrun & Hu).
    cbn [app] in Hrun. rewrite (bind_run _ _ _ _ _ Hrun).
    destruct (sample_position_rejected (Z.to_nat (a_max_retries args)) new_r
                other_positions st2) as (st3 & Hs).
    { rewrite Hu. exact Hrej. }
    rewrite (bind_run _ _ _ _ _ Hs). exists st3. reflexivity. }
  destruct Hadd as (st3 & Hadd). unfold apply_change.
  change (changed_objects sqrt rs properties args directions fuel default_objects "add")
    with (change_add sqrt rs properties args directions default_objects).
  rewrite (bind_run _ _ _ _ _ Hadd). reflexivity.
Qed.

End AddExhausted.

Lemma Forall_exists_Forall2 {A B} (P : A -> B -> Prop) (l : list A) :
  Forall (fun a => exists b, P a b) l -> exists k, Forall2 P l k.
Proof.
  induction 1 as [|a l [b Hb] _ [k Hk]].
  - exists []. constructor.
  - exists (b :: k). constructor; assumption.
Qed.

Lemma change_add_no_retry (sqrt : Q -> Q) (rs : RandomSource) (properties : Properties)
    (args : Args) (directions : Directions) (default_objects : list loc)
    (st st' : State) (new_objects : list loc) :
  (a_max_retries args <= 0)%Z ->
  change_add sqrt rs properties args directions default_objects st
    <> (Ok (Some new_objects), st').
Proof.
  intros Hmax H. unfold change_add in H.
  inv_bind H. destruct a as [new_size_name new_r].
  inv_bind H. destruct a as [other_positions news].
  replace (Z.to_nat (a_max_retries args)) with 0%nat in H by lia.
  cbn [sample_position] in H. inv_bind H. inv_ret Hrun1. inv_ret H. discriminate.
Qed.

(** C8: the add change samples at most [max_retries] candidate
    positions (two draws of [random.uniform] each); when each of the
    [max_retries] candidates is rejected against the positions of the
    objects of the base it returns [None, None, False]; and with
    [max_retries = 0] it never returns an object list, and returns
    [None, None, False] for any base whose objects have a position and
    any non-empty size table. *)
Theorem apply_change_add_retries (sqrt : Q -> Q) (bl : Blender) (rs : RandomSource)
    (properties : Properties) (args : Args) (directions : Directions)
    (fuel : nat) (default_objects : list loc) (st : State) :
  let run := apply_change sqrt bl rs properties args directions fuel
               default_objects "add" st in
  (n_uniform (snd run) <= n_uniform st + 2 * Z.to_nat (a_max_retries args))%nat /\
  (forall new_size_name new_r other_positions,
      size_mapping properties
        !! (rs_int rs (n_int st) mod length (size_mapping properties))%nat
        = Some (new_size_name, new_r) ->
      Forall2 (fun b p => exists ob, heap st !! b = Some ob /\
                                     position_of sqrt properties ob = Ok p)
              default_objects other_positions ->
      (forall k, (k < Z.to_nat (a_max_retries args))%nat ->
         check_dist_margin sqrt args directions
           (candidate rs (n_uniform st + 2 * k) new_r) other_positions = Ok false) ->
      fst run = Ok None) /\
  (a_max_retries args = 0%Z ->
   (forall r, fst run <> Ok (Some r)) /\
   (p_sizes properties <> [] ->
    Forall (fun b => exists p ob, heap st !! b = Some ob /\
                                  position_of sqrt properties ob = Ok p)
           default_objects ->
    fst run = Ok None)).
Proof.
  intros run. subst run. split; [apply draws_apply_change_add|].
  split; [intros n r ps; apply apply_change_add_exhausted|].
  intros Hmax. split.
  - intros r H.
    destruct (apply_change _ _ _ _ _ _ _ _ _ _) as [res st'] eqn:Hrun.
    cbn [fst] in H. subst res. unfold apply_change in Hrun. inv_bind Hrun.
    change (changed_objects sqrt rs properties args directions fuel default_objects "add")
      with (change_add sqrt rs properties args directions default_objects) in Hrun0.
    destruct a as [news|]; [|inv_ret Hrun; discriminate].
    eapply change_add_no_retry; [|exact Hrun0]. lia.
  - intros Hsizes Hbase.
    apply Forall_exists_Forall2 in Hbase. destruct Hbase as (ps & Hps).
    assert (Hlt : (rs_int rs (n_int st) mod length (size_mapping properties)
                   < length (size_mapping properties))%nat).
    { apply Nat.mod_upper_bound. unfold size_mapping.
      destruct (p_sizes properties); [congruence|cbn [length]; lia]. }
    apply lookup_lt_is_Some_2 in Hlt. destruct Hlt as ([n r] & Hsize).
    apply (apply_change_add_exhausted sqrt bl rs properties args directions fuel
             default_objects st n r ps Hsize Hps).
    intros k Hk. lia.
Qed.

Lemma demo_base_positions :
  Forall2 (fun b p => exists ob, heap demo_base_state !! b = Some ob /\
                                 position_of sqrt_micro demo_properties ob = Ok p)
          demo_base demo_positions.
Proof.
  unfold demo_base, demo_positions.
  apply List.Forall2_cons; [eexists; split; [reflexivity|vm_compute; reflexivity]|].
  apply List.Forall2_cons; [eexists; split; [reflexivity|vm_compute; reflexivity]|].
  apply List.Forall2_nil.
Qed.

Lemma apply_change_add_retries_witness :
  fst (apply_change sqrt_micro demo_blender demo_random demo_properties
         one_retry_args demo_directions 5 demo_base "add" demo_base_state) = Ok None /\
  fst (apply_change sqrt_micro demo_blender demo_random demo_properties
         no_retry_args demo_directions 5 demo_base "add" demo_base_state) = Ok None.
Proof.
  split.
  - apply (proj1 (proj2 (apply_change_add_retries sqrt_micro demo_blender demo_random
             demo_properties one_retry_args demo_directions 5 demo_base demo_base_state))
             "small" (35 / 100) demo_positions).
    + reflexivity.
    + exact demo_base_positions.
    + intros k Hk. assert (k = 0%nat) as -> by (cbn in Hk; lia).
      vm_compute. reflexivity.
  - apply (proj2 (proj2 (apply_change_add_retries sqrt_micro demo_blender demo_random
             demo_properties no_retry_args demo_directions 5 demo_base demo_base_state))).
    + reflexivity.
    + exact no_retry_sizes.
    + pose proof demo_base_positions as H.
      apply Forall2_Forall_l with (Q := fun b => exists p ob,
        heap demo_base_state !! b = Some ob /\
        position_of sqrt_micro demo_properties ob = Ok p) in H; [exact H|].
      apply Forall_forall. intros p _ b (ob & Hb & Hp). exists p, ob. tauto.
Defined.

(** ** The copy loops of the same and drop changes *)

Section Copies.

Variable sqrt : Q -> Q.
Variable bl : Blender.
Variable rs : RandomSource.
Variable properties : Properties.
Variable args : Args.
Variable directions : Directions.

Lemma kept_take_drop {A} (l : list A) :
  forall (j i : nat),
    kept (Z.of_nat (i + j)) (Z.of_nat i) l = take j l ++ drop (S j) l.
Proof.
  induction l as [|x l IH]; intros j i; cbn [kept].
  - destruct j; reflexivity.
  - destruct (Z.eqb_spec (Z.of_nat i) (Z.of_nat (i + j))) as [E|N].
    + assert (j = 0)%nat as -> by lia. cbn [take drop app].
      clear E IH. replace (Z.of_nat (i + 0)) with (Z.of_nat i) by (f_equal; lia).
      generalize (Z.of_nat i). intros c.
      assert (H : forall (l' : list A) (d : Z), (c < d)%Z -> kept c d l' = l').
      { induction l' as [|y l' IH']; intros d Hd; cbn [kept]; [reflexivity|].
        destruct (Z.eqb_spec d c); [lia|]. f_equal. apply IH'. lia. }
      apply H. lia.
    + destruct j as [|j]; [exfalso; apply N; f_equal; lia|].
      cbn [take drop app]. f_equal.
      replace (Z.of_nat i + 1)%Z with (Z.of_nat (S i)) by lia.
      replace (i + S j)%nat with (S i + j)%nat by lia. apply IH.
Qed.

Lemma change_same_spec (objs : list loc) :
  forall new_objects st new_objects' st',
    change_same objs new_objects st = (Ok new_objects', st') ->
    exists os,
      heap st' = heap st ++ os /\
      Forall2 (fun a o => heap st' !! a = Some o) objs os /\
      new_objects' = new_objects ++ seq (length (heap st)) (length objs).
Proof.
  induction objs as [|obj rest IH]; intros news st news' st' H; cbn [change_same] in H.
  - inv_ret H. exists []. rewrite !app_nil_r. repeat split. constructor.
  - inv_bind H. apply deepcopy_Ok in Hrun. destruct Hrun as (o & Ho & -> & Hh).
    apply IH in H. destruct H as (os & Hheap & Hread & ->).
    exists (o :: os). rewrite Hheap, Hh, <- !app_assoc. cbn [app].
    split; [reflexivity|]. split.
    + constructor.
      * rewrite lookup_app_l by (eapply lookup_lt_Some; eauto). exact Ho.
      * rewrite Hheap, Hh, <- app_assoc in Hread. exact Hread.
    + rewrite length_app. cbn [length seq].
      replace (length (heap st) + 1)%nat with (S (length (heap st))) by lia.
      reflexivity.
Qed.

Lemma change_drop_spec (object_idx : Z) (objs : list loc) :
  forall i new_objects st new_objects' st',
    change_drop object_idx i objs new_objects st = (Ok new_objects', st') ->
    exists os,
      heap st' = heap st ++ os /\
      Forall2 (fun a o => heap st' !! a = Some o) objs os /\
      new_objects' = new_objects
                       ++ kept object_idx i (seq (length (heap st)) (length objs)).
Proof.
  induction objs as [|obj rest IH]; intros i news st news' st' H; cbn [change_drop] in H.
  - inv_ret H. exists []. rewrite !app_nil_r. repeat split. constructor.
  - inv_bind H. apply deepcopy_Ok in Hrun. destruct Hrun as (o & Ho & -> & Hh).
    cbn [length seq kept].
    destruct (i =? object_idx)%Z;
      apply IH in H; destruct H as (os & Hheap & Hread & ->);
      exists (o :: os); rewrite Hheap, Hh, <- !app_assoc; cbn [app];
      (split; [reflexivity|]); (split;
        [constructor;
         [rewrite lookup_app_l by (eapply lookup_lt_Some; eauto); exact Ho
         |rewrite Hheap, Hh, <- app_assoc in Hread; exact Hread]|]);
      rewrite length_app; cbn [length];
      replace (length (heap st) + 1)%nat with (S (length (heap st))) by lia;
      reflexivity.
Qed.

(** The copies, as they stand in the store when the loop is over, against
    the objects of the base as they were before the call. *)
Lemma copies_of_base (objs : list loc) (os : list Obj) (st : State) (h : list Obj) :
  h = heap st ++ os ->
  Forall2 (fun a o => h !! a = Some o) objs os ->
  Forall2 (fun a b => forall ob, heap st !! b = Some ob -> h !! a = Some ob)
          (seq (length (heap st)) (length objs)) objs.
Proof.
  intros -> Hread. apply Forall2_same_length_lookup_2; [apply length_seq|].
  intros k a b Ha Hb ob Hob.
  apply lookup_seq in Ha. destruct Ha as [-> Hk].
  destruct (Forall2_lookup_l _ _ _ _ _ Hread Hb) as (o & Hok & Hbo).
  rewrite lookup_app_l in Hbo by (eapply lookup_lt_Some; eauto).
  rewrite Hob in Hbo. inversion Hbo; subst o.
  rewrite lookup_app_r by lia.
  replace (length (heap st) + k - length (heap st))%nat with k by lia. exact Hok.
Qed.

End Copies.

(** The cell [a] after the call holds the object [ob] up to
    ['pixel_coords']. *)
Lemma same_semantics_after (h h' : list Obj) (a : loc) (ob : Obj) :
  (forall c, semantic_fields <$> (h' !! c) = semantic_fields <$> (h !! c)) ->
  h !! a = Some ob ->
  exists o, h' !! a = Some o /\ semantic_fields o = semantic_fields ob.
Proof.
  intros Hsem Ha. specialize (Hsem a). rewrite Ha in Hsem.
  destruct (h' !! a) as [o|]; [|discriminate].
  exists o. split; [reflexivity|]. cbn in Hsem. congruence.
Qed.

(** C6: a same change that succeeds returns as many objects as the base
    has, and its i-th object has the shape, size, material, color,
    rotation and 3d_coords of the i-th object of the base. *)
Theorem apply_change_same (sqrt : Q -> Q) (bl : Blender) (rs : RandomSource)
    (properties : Properties) (args : Args) (directions : Directions)
    (fuel : nat) (default_objects : list loc) (st st' : State)
    (new_objects : list loc) (new_blend_objects : list BlenderObj) :
  apply_change sqrt bl rs properties args directions fuel default_objects "same" st
    = (Ok (Some (new_objects, new_blend_objects)), st') ->
  length new_objects = length default_objects /\
  Forall2 (fun a b => forall ob, heap st !! b = Some ob ->
             exists o, heap st' !! a = Some o /\
               (o_shape o, o_size o, o_material o, o_color o, o_rotation o, o_3d_coords o)
               = (o_shape ob, o_size ob, o_material ob, o_color ob, o_rotation ob,
                  o_3d_coords ob))
          new_objects default_objects.
Proof.
  unfold apply_change. intros H. inv_bind H.
  change (changed_objects sqrt rs properties args directions fuel default_objects "same")
    with (bind (change_same default_objects []) (fun l => ret (Some l))) in Hrun.
  inv_bind Hrun. inv_ret Hrun.
  apply change_same_spec in Hrun0. destruct Hrun0 as (os & Hheap & Hread & Hnews).
  cbn [app] in Hnews.
  inv_bind H. apply render_objects_spec in Hrun. destruct Hrun as (_ & Hsem & _ & _).
  inv_bind_as H all_visible. inv_lift Hrun. destruct all_visible; inv_ret H; [|discriminate].
  inversion H; subst new_objects new_blend_objects. clear H.
  split; [apply length_seq|].
  eapply Forall2_impl; [exact (copies_of_base _ _ _ _ Hheap Hread)|].
  intros c b Hcb ob Hob. cbn beta in Hcb.
  exact (same_semantics_after _ _ c ob Hsem (Hcb ob Hob)).
Qed.

Lemma demo_variant_same_run :
  demo_variant "same"
  = (Ok (Some (demo_variant_objects "same", demo_variant_blender "same")),
     snd (demo_variant "same")).
Proof. vm_compute. reflexivity. Qed.

Lemma apply_change_same_witness :
  length (demo_variant_objects "same") = length demo_base /\
  Forall2 (fun a b => forall ob, heap demo_base_state !! b = Some ob ->
             exists o, heap (snd (demo_variant "same")) !! a = Some o /\
               (o_shape o, o_size o, o_material o, o_color o, o_rotation o, o_3d_coords o)
               = (o_shape ob, o_size ob, o_material ob, o_color ob, o_rotation ob,
                  o_3d_coords ob))
          (demo_variant_objects "same") demo_base.
Proof.
  exact (apply_change_same sqrt_micro demo_blender demo_random demo_properties
           demo_args demo_directions 5 demo_base demo_base_state _ _ _
           demo_variant_same_run).
Defined.

(** ** Rendering the new objects, run forward *)

Section Rendering.

Variable sqrt : Q -> Q.
Variable bl : Blender.
Variable rs : RandomSource.
Variable properties : Properties.
Variable args : Args.
Variable directions : Directions.

Lemma blender_of_semantic (o o' : Obj) :
  semantic_fields o = semantic_fields o' -> blender_of sqrt properties o = blender_of sqrt properties o'.
Proof.
  unfold semantic_fields, blender_of. intros H. inversion H.
  repeat match goal with E : _ = _ |- _ => rewrite E; clear E end. reflexivity.
Qed.

Lemma render_object_run (obj : loc) (st : State) (o : Obj) (b : BlenderObj) :
  heap st !! obj = Some o ->
  blender_of sqrt properties o = Ok b ->
  render_object sqrt bl properties obj st
  = (Ok (b, bo_position b, get_camera_coords bl (object_location bl b)), st).
Proof.
  intros Ho Hb. unfold render_object, blender_of in *.
  unfold bind at 1. unfold read at 1. rewrite Ho.
  destruct (key_of (object_mapping properties) (o_shape o)) as [n|e]; [|discriminate].
  destruct (getitem (color_name_to_rgba properties) (o_color o)) as [c|e]; [|discriminate].
  destruct (value_of (size_mapping properties) (o_size o)) as [r|e]; [|discriminate].
  destruct (key_of (material_mapping properties) (o_material o)) as [m|e]; [|discriminate].
  cbn [rbind] in Hb. unfold bind, lift.
  destruct (o_3d_coords o) as [[x y] z]. inversion Hb; subst b. reflexivity.
Qed.

Lemma render_objects_run (new_objects : list loc) :
  forall acc st bs,
    Forall2 (fun a b => exists o, heap st !! a = Some o /\ blender_of sqrt properties o = Ok b)
            new_objects bs ->
    exists st', render_objects sqrt bl properties new_objects acc st
                = (Ok (acc ++ bs), st').
Proof.
  induction new_objects as [|obj rest IH]; intros acc st bs Hall.
  - apply Forall2_nil_inv_l in Hall. subst bs. cbn [render_objects].
    exists st. rewrite app_nil_r. reflexivity.
  - apply Forall2_cons_inv_l in Hall.
    destruct Hall as (b & bs' & (o & Ho & Hb) & Hrest & ->).
    cbn [render_objects].
    rewrite (bind_run _ _ _ _ _ (render_object_run obj st o b Ho Hb)).
    unfold bind at 1. unfold write_pixel_coords at 1. rewrite Ho.
    match goal with |- context [render_objects _ _ _ rest ?a ?s] =>
      destruct (IH a s bs') as (st' & Hrun)
    end.
    { eapply Forall2_impl; [exact Hrest|].
      intros c b' (o' & Hc & Hb'). cbn [heap].
      destruct (decide (c = obj)) as [->|Hne].
      - rewrite Ho in Hc. inversion Hc; subst o'.
        eexists. rewrite list_lookup_insert_eq by (eapply lookup_lt_Some; eauto).
        split; [reflexivity|]. rewrite <- Hb'. apply blender_of_semantic. reflexivity.
      - exists o'. rewrite list_lookup_insert_ne by congruence. tauto. }
    exists st'. rewrite Hrun, <- app_assoc. reflexivity.
Qed.

Lemma change_drop_run (object_idx : Z) (objs : list loc) :
  forall i new_objects st,
    Forall (fun b => is_Some (heap st !! b)) objs ->
    exists news st1, change_drop object_idx i objs new_objects st = (Ok news, st1).
Proof.
  induction objs as [|obj rest IH]; intros i news st Hall; cbn [change_drop].
  - eexists _, _. reflexivity.
  - apply Forall_cons in Hall. destruct Hall as [[o Ho] Hrest].
    unfold bind at 1. unfold deepcopy, bind at 1. unfold read at 1. rewrite Ho.
    unfold alloc at 1.
    assert (Hrest' : Forall (fun b => is_Some ((heap st ++ [o]) !! b)) rest).
    { eapply Forall_impl; [exact Hrest|]. intros b [ob Hb].
      exists ob. apply lookup_snoc_old. exact Hb. }
    destruct (i =? object_idx)%Z; apply IH; exact Hrest'.
Qed.

Lemma randint_run (n : nat) (st : State) :
  (0 < n)%nat ->
  randint rs 0 (Z.of_nat n - 1) st
  = (Ok (Z.of_nat (rs_int rs (n_int st) mod n)), drew_int st).
Proof.
  intros Hn. unfold randint.
  replace (Z.of_nat n - 1 - 0 + 1)%Z with (Z.of_nat n) by lia.
  destruct (Z.leb_spec (Z.of_nat n) 0); [lia|].
  unfold bind, next_int, ret. fold (drew_int st).
  rewrite Nat2Z.inj_mod. reflexivity.
Qed.

End Rendering.

(** ** C5: the drop change *)

(** C5, as the code has it: for a base that is not empty and whose
    objects can be rendered, the drop change draws the index
    [j = randint(0, len - 1)], copies the objects and renders the copies
    of all but the j-th: [len - 1] objects in the order of the base, each
    with the shape, size, material, color, rotation and 3d_coords of its
    object of the base (['pixel_coords'] is computed anew).  It returns
    them when [check_visibility] accepts the rendered variant and returns
    [None, None, False] when it does not. *)
Theorem apply_change_drop (sqrt : Q -> Q) (bl : Blender) (rs : RandomSource)
    (properties : Properties) (args : Args) (directions : Directions)
    (fuel : nat) (default_objects : list loc) (st : State) :
  default_objects <> [] ->
  Forall (fun b => exists bo ob, heap st !! b = Some ob /\
                                 blender_of sqrt properties ob = Ok bo)
         default_objects ->
  let j := (rs_int rs (n_int st) mod length default_objects)%nat in
  exists new_objects new_blend_objects st',
    length new_objects = (length default_objects - 1)%nat /\
    length new_blend_objects = length new_objects /\
    Forall2 (fun a b => forall ob, heap st !! b = Some ob ->
               exists o, heap st' !! a = Some o /\
                 (o_shape o, o_size o, o_material o, o_color o, o_rotation o,
                  o_3d_coords o)
                 = (o_shape ob, o_size ob, o_material ob, o_color ob, o_rotation ob,
                    o_3d_coords ob))
            new_objects (take j default_objects ++ drop (S j) default_objects) /\
    apply_change sqrt bl rs properties args directions fuel default_objects "drop" st
    = (match check_visibility bl new_blend_objects (a_min_pixels_per_object args) with
       | Ok true => Ok (Some (new_objects, new_blend_objects))
       | Ok false => Ok None
       | Raise e => Raise e
       end, st').
Proof.
  intros Hne Hwf j.
  assert (Hlen : (0 < length default_objects)%nat)
    by (destruct default_objects; [congruence|cbn [length]; lia]).
  assert (Hj : (j < length default_objects)%nat)
    by (apply Nat.mod_upper_bound; lia).
  pose proof (randint_run rs (length default_objects) st Hlen) as Hidx.
  fold j in Hidx.
  destruct (change_drop_run (Z.of_nat j) default_objects 0 [] (drew_int st))
    as (news & st1 & Hdrop).
  { eapply Forall_impl; [exact Hwf|]. intros b (bo & ob & Hb & _). exists ob. exact Hb. }
  pose proof (change_drop_spec _ _ _ _ _ _ _ Hdrop) as (os & Hheap & Hread & Hnews).
  change (heap (drew_int st)) with (heap st) in Hheap, Hnews.
  cbn [app] in Hnews.
  pose proof (kept_take_drop (seq (length (heap st)) (length default_objects)) j 0)
    as Hkept.
  change (Z.of_nat 0) with 0%Z in Hkept. change (0 + j)%nat with j in Hkept.
  rewrite Hkept in Hnews. clear Hkept.
  pose proof (copies_of_base _ _ _ _ Hheap Hread) as Hcopies.
  set (copies := seq (length (heap st)) (length default_objects)) in *.
  assert (Hpairs : Forall2 (fun a b => forall ob, heap st !! b = Some ob ->
                              heap st1 !! a = Some ob)
                     news (take j default_objects ++ drop (S j) default_objects)).
  { rewrite Hnews. apply Forall2_app; [apply Forall2_take|apply Forall2_drop]; exact Hcopies. }
  assert (Hwf' : Forall (fun b => exists bo ob, heap st !! b = Some ob /\
                                   blender_of sqrt properties ob = Ok bo)
                   (take j default_objects ++ drop (S j) default_objects)).
  { apply Forall_app. split; [apply Forall_take|apply Forall_drop]; exact Hwf. }
  assert (Hrender : Forall (fun a => exists b o, heap st1 !! a = Some o /\
                                     blender_of sqrt properties o = Ok b) news).
  { eapply Forall2_Forall_l; [exact Hpairs|].
    eapply Forall_impl; [exact Hwf'|].
    intros b (bo & ob & Hb & Hbo) a Hab. exists bo, ob. split; [exact (Hab ob Hb)|exact Hbo]. }
  apply Forall_exists_Forall2 in Hrender. destruct Hrender as (bs & Hbs).
  destruct (render_objects_run sqrt bl properties news [] st1 bs Hbs) as (st' & Hrun).
  cbn [app] in Hrun.
  pose proof (render_objects_spec _ _ _ _ _ _ _ _ Hrun) as (_ & Hsem & _ & Hblen).
  exists news, bs, st'.
  split.
  { rewrite Hnews, length_app, length_take, length_drop. unfold copies.
    rewrite length_seq. lia. }
  split; [cbn [length] in Hblen; lia|].
  split.
  { eapply Forall2_impl; [exact Hpairs|].
    intros a b Hab ob Hob. cbn beta in Hab.
    exact (same_semantics_after _ _ a ob Hsem (Hab ob Hob)). }
  unfold apply_change.
  change (changed_objects sqrt rs properties args directions fuel default_objects "drop")
    with (bind (randint rs 0 (Z.of_nat (length default_objects) - 1))
            (fun object_idx =>
               bind (change_drop object_idx 0 default_objects [])
                    (fun l => ret (Some l)))).
  assert (Hchanged :
    bind (randint rs 0 (Z.of_nat (length default_objects) - 1))
         (fun object_idx =>
            bind (change_drop object_idx 0 default_objects [])
                 (fun l => ret (Some l))) st = (Ok (Some news), st1)).
  { rewrite (bind_run _ _ _ _ _ Hidx). rewrite (bind_run _ _ _ _ _ Hdrop). reflexivity. }
  rewrite (bind_run _ _ _ _ _ Hchanged). rewrite (bind_run _ _ _ _ _ Hrun).
  unfold bind, lift.
  destruct (check_visibility bl bs (a_min_pixels_per_object args)) as [[|]|e];
    reflexivity.
Qed.

Lemma demo_base_renderable :
  Forall (fun b => exists bo ob, heap demo_base_state !! b = Some ob /\
                                 blender_of sqrt_micro demo_properties ob = Ok bo)
         demo_base.
Proof.
  unfold demo_base.
  apply List.Forall_cons; [eexists _, _; split; [reflexivity|vm_compute; reflexivity]|].
  apply List.Forall_cons; [eexists _, _; split; [reflexivity|vm_compute; reflexivity]|].
  apply List.Forall_nil.
Qed.

Lemma demo_base_nonempty : demo_base <> [].
Proof. discriminate. Qed.

Lemma apply_change_drop_witness :
  exists new_objects new_blend_objects st',
    length new_objects = (length demo_base - 1)%nat /\
    length new_blend_objects = length new_objects /\
    Forall2 (fun a b => forall ob, heap demo_base_state !! b = Some ob ->
               exists o, heap st' !! a = Some o /\
                 (o_shape o, o_size o, o_material o, o_color o, o_rotation o,
                  o_3d_coords o)
                 = (o_shape ob, o_size ob, o_material ob, o_color ob, o_rotation ob,
                    o_3d_coords ob))
            new_objects (take 1 demo_base ++ drop 2 demo_base) /\
    demo_variant "drop"
    = (match check_visibility demo_blender new_blend_objects
               (a_min_pixels_per_object demo_args) with
       | Ok true => Ok (Some (new_objects, new_blend_objects))
       | Ok false => Ok None
       | Raise e => Raise e
       end, st').
Proof.
  exact (apply_change_drop sqrt_micro demo_blender demo_random demo_properties
           demo_args demo_directions 5 demo_base demo_base_state
           demo_base_nonempty demo_base_renderable).
Defined.

(** C5 as it is stated fails: when the camera of the variant shows none
    of the objects, the drop change on the base of two objects returns
    [None, None, False]. *)
Lemma apply_change_drop_can_fail :
  demo_base <> [] /\
  fst (apply_change sqrt_micro hidden_blender demo_random demo_properties
         demo_args demo_directions 5 demo_base "drop" demo_base_state) = Ok None.
Proof. split; [discriminate|vm_compute; reflexivity]. Qed.

(** ** C9: the change types that are not written *)

(** C9, as the code has it: for ['shape'], ['switch'] and ['random'] the
    function makes no change and gives no notice of it; it builds an empty
    list, renders nothing, and returns the empty list with [True] when the
    empty scene passes [check_visibility], [None, None, False] when it
    does not. *)
Theorem apply_change_unimplemented (sqrt : Q -> Q) (bl : Blender) (rs : RandomSource)
    (properties : Properties) (args : Args) (directions : Directions)
    (fuel : nat) (default_objects : list loc) (st : State) :
  let outcome :=
    (match check_visibility bl [] (a_min_pixels_per_object args) with
     | Ok true => Ok (Some ([], []))
     | Ok false => Ok None
     | Raise e => Raise e
     end, st) in
  apply_change sqrt bl rs properties args directions fuel default_objects "shape" st
    = outcome /\
  apply_change sqrt bl rs properties args directions fuel default_objects "switch" st
    = outcome /\
  apply_change sqrt bl rs properties args directions fuel default_objects "random" st
    = outcome.
Proof.
  cbv zeta. unfold apply_change.
  change (changed_objects sqrt rs properties args directions fuel default_objects "shape")
    with (ret (A := option (list loc)) (Some [])).
  change (changed_objects sqrt rs properties args directions fuel default_objects "switch")
    with (ret (A := option (list loc)) (Some [])).
  change (changed_objects sqrt rs properties args directions fuel default_objects "random")
    with (ret (A := option (list loc)) (Some [])).
  unfold bind, ret, lift. cbn [render_objects ret].
  destruct (check_visibility bl [] (a_min_pixels_per_object args)) as [[|]|e];
    repeat split; reflexivity.
Qed.

(** C9 as it is stated fails: on the base of two objects each of the
    three change types returns an empty object list with [True]. *)
Lemma apply_change_unimplemented_silent :
  fst (demo_variant "shape") = Ok (Some ([], [])) /\
  fst (demo_variant "switch") = Ok (Some ([], [])) /\
  fst (demo_variant "random") = Ok (Some ([], [])).
Proof. repeat split; vm_compute; reflexivity. Qed.

(** ** C10: the cells of the base are left as they are *)

Lemma grows_bind (h0 : list Obj) {A B} (m : M A) (k : A -> M B)
    (Q : A -> Prop) (R : B -> Prop) :
  grows h0 m Q -> (forall a, Q a -> grows h0 (k a) R) -> grows h0 (bind m k) R.
Proof.
  intros Hm Hk st cells Hst. destruct (Hm st cells Hst) as [(cells1 & H1) HQ].
  unfold bind. destruct (m st) as [[a|e] st1]; cbn [fst snd] in *.
  - exact (Hk a (HQ a eq_refl) st1 cells1 H1).
  - split; [eauto|discriminate].
Qed.

Lemma grows_still (h0 : list Obj) {A} (m : M A) :
  (forall st r st', m st = (r, st') -> heap st' = heap st) ->
  grows h0 m (fun _ => True).
Proof.
  intros Hm st cells Hst. split; [|trivial].
  exists cells. rewrite <- Hst. apply (Hm st (fst (m st)) (snd (m st))).
  destruct (m st); reflexivity.
Qed.

Lemma grows_ret (h0 : list Obj) {A} (a : A) (Q : A -> Prop) :
  Q a -> grows h0 (ret a) Q.
Proof.
  intros HQ st cells Hst. cbn. split; [eauto|]. intros v E. inversion E; subst. exact HQ.
Qed.

Lemma grows_read (h0 : list Obj) (a : loc) : grows h0 (read a) (fun _ => True).
Proof.
  apply grows_still. intros st r st'. unfold read.
  destruct (heap st !! a); intros H; inversion H; reflexivity.
Qed.

Lemma grows_alloc (h0 : list Obj) (o : Obj) :
  grows h0 (alloc o) (fun a => (length h0 <= a)%nat).
Proof.
  intros st cells Hst. cbn. split.
  - exists (cells ++ [o]). rewrite Hst, app_assoc. reflexivity.
  - intros v E. inversion E; subst. rewrite Hst, length_app. lia.
Qed.

Lemma grows_deepcopy (h0 : list Obj) (a : loc) :
  grows h0 (deepcopy a) (fun b => (length h0 <= b)%nat).
Proof.
  unfold deepcopy. eapply grows_bind; [apply grows_read|].
  intros o _. apply grows_alloc.
Qed.

(** An update of a cell that is not one of [h0]. *)
Lemma grows_update (h0 : list Obj) (a : loc) (f : Obj -> Obj) (st : State)
    (cells : list Obj) (o : Obj) :
  (length h0 <= a)%nat -> heap st = h0 ++ cells ->
  exists cells', <[a := f o]> (heap st) = h0 ++ cells'.
Proof.
  intros Ha Hst. exists (<[(a - length h0)%nat := f o]> cells).
  rewrite Hst. apply insert_app_r_alt. exact Ha.
Qed.

Lemma grows_write_pixel_coords (h0 : list Obj) (a : loc) (pc : option PixelCoords) :
  (length h0 <= a)%nat -> grows h0 (write_pixel_coords a pc) (fun _ => True).
Proof.
  intros Ha st cells Hst. unfold write_pixel_coords. split; [|trivial].
  destruct (heap st !! a) as [o|]; cbn [snd heap]; [|eauto].
  exact (grows_update h0 a (fun o => set_pixel_coords o pc) st cells o Ha Hst).
Qed.

Lemma grows_write_color (h0 : list Obj) (a : loc) (c : string) :
  (length h0 <= a)%nat -> grows h0 (write_color a c) (fun _ => True).
Proof.
  intros Ha st cells Hst. unfold write_color. split; [|trivial].
  destruct (heap st !! a) as [o|]; cbn [snd heap]; [|eauto].
  exact (grows_update h0 a (fun o => set_color o c) st cells o Ha Hst).
Qed.

Lemma grows_write_material (h0 : list Obj) (a : loc) (m : string) :
  (length h0 <= a)%nat -> grows h0 (write_material a m) (fun _ => True).
Proof.
  intros Ha st cells Hst. unfold write_material. split; [|trivial].
  destruct (heap st !! a) as [o|]; cbn [snd heap]; [|eauto].
  exact (grows_update h0 a (fun o => set_material o m) st cells o Ha Hst).
Qed.

Section Frame.

Variable sqrt : Q -> Q.
Variable bl : Blender.
Variable rs : RandomSource.
Variable properties : Properties.
Variable args : Args.
Variable directions : Directions.
Variable h0 : list Obj.

Lemma fresh_snoc (l : list loc) (a : loc) :
  fresh h0 l -> (length h0 <= a)%nat -> fresh h0 (l ++ [a]).
Proof. intros Hl Ha. apply Forall_app. split; [exact Hl|]. repeat constructor. exact Ha. Qed.

Lemma grows_choice {A} (l : list A) : grows h0 (choice rs l) (fun _ => True).
Proof. apply grows_still. intros st r st'. apply choice_heap. Qed.

Lemma grows_lift {A} (r : result A) : grows h0 (lift r) (fun _ => True).
Proof. apply grows_still. intros st r' st'. apply lift_heap. Qed.

Lemma grows_randint (a b : Z) : grows h0 (randint rs a b) (fun _ => True).
Proof. apply grows_still. intros st r st'. apply randint_heap. Qed.

Lemma grows_new_color (fuel : nat) (curr : string) :
  grows h0 (new_color rs properties fuel curr) (fun _ => True).
Proof.
  induction fuel as [|fuel IH]; cbn [new_color].
  - apply grows_still. intros st r st'. apply raise_heap.
  - eapply grows_bind; [apply grows_choice|]. intros [n rgba] _.
    destruct (negb _); [apply grows_ret; trivial|exact IH].
Qed.

Lemma grows_new_material (fuel : nat) (curr : string) :
  grows h0 (new_material rs properties fuel curr) (fun _ => True).
Proof.
  induction fuel as [|fuel IH]; cbn [new_material].
  - apply grows_still. intros st r st'. apply raise_heap.
  - eapply grows_bind; [apply grows_choice|]. intros [n m] _.
    destruct (negb _); [apply grows_ret; trivial|exact IH].
Qed.

Lemma grows_change_color (fuel : nat) (object_idx : Z) (objs : list loc) :
  forall i new_objects,
    fresh h0 new_objects ->
    grows h0 (change_color rs properties fuel object_idx i objs new_objects) (fresh h0).
Proof.
  induction objs as [|obj rest IH]; intros i news Hnews; cbn [change_color].
  - apply grows_ret. exact Hnews.
  - eapply grows_bind; [apply grows_deepcopy|]. intros new_obj Hnew.
    eapply grows_bind with (Q := fun _ => True).
    + destruct (i =? object_idx)%Z; [|apply grows_ret; trivial].
      eapply grows_bind; [apply grows_read|]. intros o _.
      eapply grows_bind; [apply grows_new_color|]. intros c _.
      apply grows_write_color. exact Hnew.
    + intros _ _. apply IH. apply fresh_snoc; assumption.
Qed.

Lemma grows_change_material (fuel : nat) (object_idx : Z) (objs : list loc) :
  forall i new_objects,
    fresh h0 new_objects ->
    grows h0 (change_material rs properties fuel object_idx i objs new_objects) (fresh h0).
Proof.
  induction objs as [|obj rest IH]; intros i news Hnews; cbn [change_material].
  - apply grows_ret. exact Hnews.
  - eapply grows_bind; [apply grows_deepcopy|]. intros new_obj Hnew.
    eapply grows_bind with (Q := fun _ => True).
    + destruct (i =? object_idx)%Z; [|apply grows_ret; trivial].
      eapply grows_bind; [apply grows_read|]. intros o _.
      eapply grows_bind; [apply grows_lift|]. intros curr _.
      eapply grows_bind; [apply grows_new_material|]. intros m _.
      apply grows_write_material. exact Hnew.
    + intros _ _. apply IH. apply fresh_snoc; assumption.
Qed.

Lemma grows_change_drop (object_idx : Z) (objs : list loc) :
  forall i new_objects,
    fresh h0 new_objects ->
    grows h0 (change_drop object_idx i objs new_objects) (fresh h0).
Proof.
  induction objs as [|obj rest IH]; intros i news Hnews; cbn [change_drop].
  - apply grows_ret. exact Hnews.
  - eapply grows_bind; [apply grows_deepcopy|]. intros new_obj Hnew.
    destruct (i =? object_idx)%Z; apply IH; [exact Hnews|].
    apply fresh_snoc; assumption.
Qed.

Lemma grows_change_same (objs : list loc) :
  forall new_objects,
    fresh h0 new_objects -> grows h0 (change_same objs new_objects) (fresh h0).
Proof.
  induction objs as [|obj rest IH]; intros news Hnews; cbn [change_same].
  - apply grows_ret. exact Hnews.
  - eapply grows_bind; [apply grows_deepcopy|]. intros new_obj Hnew.
    apply IH. apply fresh_snoc; assumption.
Qed.

Lemma grows_add_collect (objs : list loc) :
  forall other_positions new_objects,
    fresh h0 new_objects ->
    grows h0 (add_collect sqrt properties objs other_positions new_objects)
          (fun r => fresh h0 (snd r)).
Proof.
  induction objs as [|obj rest IH]; intros ops news Hnews; cbn [add_collect].
  - apply grows_ret. exact Hnews.
  - eapply grows_bind; [apply grows_read|]. intros o _.
    eapply grows_bind; [apply grows_lift|]. intros n _.
    eapply grows_bind; [apply grows_lift|]. intros r _.
    destruct (o_3d_coords o) as [[x y] z].
    eapply grows_bind; [apply grows_deepcopy|]. intros new_obj Hnew.
    apply IH. apply fresh_snoc; assumption.
Qed.

Lemma grows_change_add (default_objects : list loc) :
  grows h0 (change_add sqrt rs properties args directions default_objects) (fresh_option h0).
Proof.
  unfold change_add.
  eapply grows_bind; [apply grows_choice|]. intros [new_size_name new_r] _.
  eapply grows_bind; [apply grows_add_collect; constructor|].
  intros [other_positions news] Hnews. cbn [snd] in Hnews.
  eapply grows_bind.
  { apply grows_still. intros st r st'. apply sample_position_heap. }
  intros [[new_x new_y]|] _; [|apply grows_ret; exact I].
  eapply grows_bind.
  { apply grows_still. intros st r st'. apply choose_shape_color_heap. }
  intros [[[n1 n2] c] rgba] _.
  eapply grows_bind.
  { apply grows_still. intros st r st'. apply random_heap. }
  intros theta0 _.
  eapply grows_bind; [apply grows_choice|]. intros [m1 m2] _.
  eapply grows_bind; [apply grows_alloc|]. intros new_obj Hnew.
  apply grows_ret. apply fresh_snoc; assumption.
Qed.

Lemma grows_render_objects (new_objects : list loc) :
  forall acc,
    fresh h0 new_objects ->
    grows h0 (render_objects sqrt bl properties new_objects acc) (fun _ => True).
Proof.
  induction new_objects as [|obj rest IH]; intros acc Hnews; cbn [render_objects].
  - apply grows_ret. trivial.
  - apply Forall_cons in Hnews. destruct Hnews as [Hobj Hrest].
    eapply grows_bind with (Q := fun _ => True).
    + unfold render_object.
      eapply grows_bind; [apply grows_read|]. intros o _.
      eapply grows_bind; [apply grows_lift|]. intros n _.
      eapply grows_bind; [apply grows_lift|]. intros c _.
      eapply grows_bind; [apply grows_lift|]. intros r _.
      eapply grows_bind; [apply grows_lift|]. intros m _.
      destruct (o_3d_coords o) as [[x y] z]. apply grows_ret. trivial.
    + intros [[b p] pc] _.
      eapply grows_bind; [apply grows_write_pixel_coords; exact Hobj|].
      intros _ _. apply IH. exact Hrest.
Qed.

Lemma grows_changed_objects (fuel : nat) (default_objects : list loc)
    (change_type : string) :
  grows h0 (changed_objects sqrt rs properties args directions fuel
              default_objects change_type) (fresh_option h0).
Proof.
  unfold changed_objects.
  repeat match goal with
  | |- grows _ (if ?c then _ else _) _ => destruct c
  end;
  try (apply grows_ret; constructor);
  try apply grows_change_add;
  try (eapply grows_bind; [apply grows_randint|]; intros object_idx _);
  (eapply grows_bind;
   [first [apply grows_change_color | apply grows_change_material
          | apply grows_change_drop | apply grows_change_same]; constructor
   |intros l Hl; apply grows_ret; exact Hl]).
Qed.

Lemma grows_apply_change (fuel : nat) (default_objects : list loc)
    (change_type : string) :
  grows h0 (apply_change sqrt bl rs properties args directions fuel
              default_objects change_type) (fresh_variant h0).
Proof.
  unfold apply_change.
  eapply grows_bind; [apply grows_changed_objects|].
  intros [news|] Hnews; [|apply grows_ret; exact I].
  cbn [fresh_option] in Hnews.
  eapply grows_bind; [apply grows_render_objects; exact Hnews|]. intros bos _.
  eapply grows_bind; [apply grows_lift|].
  intros [|] _; apply grows_ret; [exact Hnews|exact I].
Qed.

End Frame.

(** C10: whatever the change type and however the call ends (an object
    list, [None, None, False] or an exception), the store after the call
    begins with the store before the call: every object dictionary that
    existed before the call, those of [default_objects] among them, is as
    it was, ['pixel_coords'] included; the objects of a returned list are
    new cells.  The list [default_objects] itself is only read. *)
Theorem apply_change_keeps_base (sqrt : Q -> Q) (bl : Blender) (rs : RandomSource)
    (properties : Properties) (args : Args) (directions : Directions)
    (fuel : nat) (default_objects : list loc) (change_type : string) (st : State) :
  let run := apply_change sqrt bl rs properties args directions fuel
               default_objects change_type st in
  (exists cells, heap (snd run) = heap st ++ cells) /\
  (forall b ob, heap st !! b = Some ob -> heap (snd run) !! b = Some ob) /\
  (forall new_objects new_blend_objects,
      fst run = Ok (Some (new_objects, new_blend_objects)) ->
      Forall (fun a => (length (heap st) <= a)%nat) new_objects).
Proof.
  intros run. subst run.
  destruct (grows_apply_change sqrt bl rs properties args directions (heap st)
              fuel default_objects change_type st [])
    as [(cells & Hcells) Hfresh]; [rewrite app_nil_r; reflexivity|].
  split; [exists cells; exact Hcells|].
  split.
  - intros b ob Hb. rewrite Hcells. apply lookup_app_l_Some. exact Hb.
  - intros news bos Hrun. exact (Hfresh _ Hrun).
Qed.

(** * Further properties of the script *)

(** ** The color and material changes *)

Lemma color_names (properties : Properties) :
  map fst (color_name_to_rgba properties) = map fst (p_colors properties).
Proof.
  unfold color_name_to_rgba. rewrite map_map. apply map_ext. intros [n rgb]. reflexivity.
Qed.

Lemma write_color_Ok (a : loc) (c : string) (st st' : State) (u : unit) :
  write_color a c st = (Ok u, st') ->
  exists o, heap st !! a = Some o /\ heap st' = <[a := set_color o c]> (heap st).
Proof.
  unfold write_color. destruct (heap st !! a) as [o|]; intros H; inversion H. eauto.
Qed.

Lemma write_material_Ok (a : loc) (m : string) (st st' : State) (u : unit) :
  write_material a m st = (Ok u, st') ->
  exists o, heap st !! a = Some o /\ heap st' = <[a := set_material o m]> (heap st).
Proof.
  unfold write_material. destruct (heap st !! a) as [o|]; intros H; inversion H. eauto.
Qed.

(** An update of the cell that was appended last. *)
Lemma insert_last {A} (l : list A) (x y : A) :
  <[length l := y]> (l ++ [x]) = l ++ [y].
Proof.
  rewrite insert_app_r_alt by lia. rewrite Nat.sub_diag. reflexivity.
Qed.

Lemma lookup_last {A} (l : list A) (x : A) : (l ++ [x]) !! length l = Some x.
Proof. rewrite lookup_app_r by lia. rewrite Nat.sub_diag. reflexivity. Qed.

Section Recolor.

Variable rs : RandomSource.
Variable properties : Properties.

Lemma new_color_Ok (fuel : nat) (curr : string) :
  forall st c st',
    new_color rs properties fuel curr st = (Ok c, st') ->
    c <> curr /\ In c (map fst (p_colors properties)) /\ heap st' = heap st.
Proof.
  induction fuel as [|fuel IH]; intros st c st' H; cbn [new_color] in H; [discriminate|].
  inv_bind_as H picked. destruct picked as [name rgba].
  pose proof (choice_In _ _ _ _ _ Hrun) as Hin. apply choice_heap in Hrun.
  destruct (String.eqb_spec name curr) as [E|N]; cbn [negb] in H.
  - destruct (IH _ _ _ H) as (H1 & H2 & H3). repeat split; congruence.
  - inv_ret H. split; [exact N|]. split; [|exact Hrun].
    rewrite <- color_names. apply in_map_iff. exists (name, rgba). auto.
Qed.

Lemma new_material_Ok (fuel : nat) (curr : string) :
  forall st m st',
    new_material rs properties fuel curr st = (Ok m, st') ->
    (exists n, In (n, m) (material_mapping properties) /\ n <> curr) /\
    heap st' = heap st.
Proof.
  induction fuel as [|fuel IH]; intros st m st' H; cbn [new_material] in H; [discriminate|].
  inv_bind_as H picked. destruct picked as [name name_out].
  pose proof (choice_In _ _ _ _ _ Hrun) as Hin. apply choice_heap in Hrun.
  destruct (String.eqb_spec name curr) as [E|N]; cbn [negb] in H.
  - destruct (IH _ _ _ H) as (H1 & H3). split; [exact H1|congruence].
  - inv_ret H. split; [eauto|exact Hrun].
Qed.

Lemma change_color_spec (fuel : nat) (object_idx : Z) (objs : list loc) :
  forall i new_objects st new_objects' st',
    change_color rs properties fuel object_idx i objs new_objects st
      = (Ok new_objects', st') ->
    exists os,
      heap st' = heap st ++ os /\
      length os = length objs /\
      new_objects' = new_objects ++ seq (length (heap st)) (length objs) /\
      forall k b ob,
        objs !! k = Some b -> heap st !! b = Some ob ->
        exists o, os !! k = Some o /\
          recolored properties (i + Z.of_nat k =? object_idx)%Z ob o.
Proof.
  induction objs as [|obj rest IH]; intros i news st news' st' H; cbn [change_color] in H.
  - inv_ret H. exists []. rewrite !app_nil_r. repeat split. intros k b ob Hk. discriminate.
  - inv_bind_as H new_obj. apply deepcopy_Ok in Hrun.
    destruct Hrun as (o0 & Ho0 & -> & Hh1).
    inv_bind_as H u.
    assert (Hstep : exists o1, heap st1 = heap st ++ [o1] /\
                      recolored properties (i =? object_idx)%Z o0 o1).
    { destruct (i =? object_idx)%Z.
      - inv_bind_as Hrun o. apply read_Ok in Hrun0. destruct Hrun0 as [Ho E]. subst.
        rewrite Hh1, lookup_last in Ho. inversion Ho; subst o.
        inv_bind_as Hrun c. apply new_color_Ok in Hrun0.
        destruct Hrun0 as (Hne & Hin & Hheap).
        apply write_color_Ok in Hrun. destruct Hrun as (o' & Ho' & Hw).
        rewrite Hheap, Hh1, lookup_last in Ho'. inversion Ho'; subst o'.
        rewrite Hheap, Hh1, insert_last in Hw.
        exists (set_color o0 c). split; [exact Hw|]. exists c. auto.
      - inv_ret Hrun. exists o0. split; [exact Hh1|reflexivity]. }
    destruct Hstep as (o1 & Hh2 & Hrec).
    apply IH in H. destruct H as (os & Hheap & Hlen & Hnews & Hall).
    exists (o1 :: os). rewrite Hheap, Hh2, <- !app_assoc. cbn [app length].
    split; [reflexivity|]. split; [lia|]. split.
    { rewrite Hnews, Hh2, length_app, <- app_assoc. cbn [length seq app].
      replace (length (heap st) + 1)%nat with (S (length (heap st))) by lia.
      reflexivity. }
    intros k b ob Hk Hb. destruct k as [|k].
    + cbn in Hk. inversion Hk; subst b. rewrite Hb in Ho0. inversion Ho0; subst o0.
      exists o1. split; [reflexivity|].
      replace (i + Z.of_nat 0)%Z with i by lia. exact Hrec.
    + cbn in Hk. destruct (Hall k b ob Hk) as (o & Ho & Hr).
      { rewrite Hh2. apply lookup_snoc_old. exact Hb. }
      exists o. split; [exact Ho|].
      replace (i + Z.of_nat (S k))%Z with (i + 1 + Z.of_nat k)%Z by lia. exact Hr.
Qed.

Lemma change_material_spec (fuel : nat) (object_idx : Z) (objs : list loc) :
  forall i new_objects st new_objects' st',
    change_material rs properties fuel object_idx i objs new_objects st
      = (Ok new_objects', st') ->
    exists os,
      heap st' = heap st ++ os /\
      length os = length objs /\
      new_objects' = new_objects ++ seq (length (heap st)) (length objs) /\
      forall k b ob,
        objs !! k = Some b -> heap st !! b = Some ob ->
        exists o, os !! k = Some o /\
          rematerialed properties (i + Z.of_nat k =? object_idx)%Z ob o.
Proof.
  induction objs as [|obj rest IH]; intros i news st news' st' H;
    cbn [change_material] in H.
  - inv_ret H. exists []. rewrite !app_nil_r. repeat split. intros k b ob Hk. discriminate.
  - inv_bind_as H new_obj. apply deepcopy_Ok in Hrun.
    destruct Hrun as (o0 & Ho0 & -> & Hh1).
    inv_bind_as H u.
    assert (Hstep : exists o1, heap st1 = heap st ++ [o1] /\
                      rematerialed properties (i =? object_idx)%Z o0 o1).
    { destruct (i =? object_idx)%Z.
      - inv_bind_as Hrun o. apply read_Ok in Hrun0. destruct Hrun0 as [Ho E]. subst.
        rewrite Hh1, lookup_last in Ho. inversion Ho; subst o.
        inv_bind_as Hrun curr. inv_lift Hrun0.
        inv_bind_as Hrun m. apply new_material_Ok in Hrun1.
        destruct Hrun1 as ((n & Hin & Hne) & Hheap).
        apply write_material_Ok in Hrun. destruct Hrun as (o' & Ho' & Hw).
        rewrite Hheap, Hh1, lookup_last in Ho'. inversion Ho'; subst o'.
        rewrite Hheap, Hh1, insert_last in Hw.
        exists (set_material o0 m). split; [exact Hw|]. exists m, n, curr. auto.
      - inv_ret Hrun. exists o0. split; [exact Hh1|reflexivity]. }
    destruct Hstep as (o1 & Hh2 & Hrec).
    apply IH in H. destruct H as (os & Hheap & Hlen & Hnews & Hall).
    exists (o1 :: os). rewrite Hheap, Hh2, <- !app_assoc. cbn [app length].
    split; [reflexivity|]. split; [lia|]. split.
    { rewrite Hnews, Hh2, length_app, <- app_assoc. cbn [length seq app].
      replace (length (heap st) + 1)%nat with (S (length (heap st))) by lia.
      reflexivity. }
    intros k b ob Hk Hb. destruct k as [|k].
    + cbn in Hk. inversion Hk; subst b. rewrite Hb in Ho0. inversion Ho0; subst o0.
      exists o1. split; [reflexivity|].
      replace (i + Z.of_nat 0)%Z with i by lia. exact Hrec.
    + cbn in Hk. destruct (Hall k b ob Hk) as (o & Ho & Hr).
      { rewrite Hh2. apply lookup_snoc_old. exact Hb. }
      exists o. split; [exact Ho|].
      replace (i + Z.of_nat (S k))%Z with (i + 1 + Z.of_nat k)%Z by lia. exact Hr.
Qed.

End Recolor.

Lemma randint_Ok (rs : RandomSource) (n : nat) (st st' : State) (idx : Z) :
  randint rs 0 (Z.of_nat n - 1) st = (Ok idx, st') ->
  (0 < n)%nat /\ idx = Z.of_nat (rs_int rs (n_int st) mod n) /\ heap st' = heap st.
Proof.
  intros H. destruct n as [|n].
  - unfold randint in H. cbn in H. discriminate.
  - rewrite (randint_run rs (S n) st) in H by lia. inversion H; subst.
    split; [lia|]. split; reflexivity.
Qed.

(** The copy at index [k] of a list of new cells [seq n len], once the
    rendering loop has run. *)
Lemma rendered_copy (h : list Obj) (os : list Obj) (h' : list Obj)
    (len k : nat) (o1 : Obj) :
  (forall c, semantic_fields <$> (h' !! c) = semantic_fields <$> ((h ++ os) !! c)) ->
  os !! k = Some o1 -> (k < len)%nat ->
  exists a o, seq (length h) len !! k = Some a /\ h' !! a = Some o /\
              semantic_fields o = semantic_fields o1.
Proof.
  intros Hsem Hk Hlt. exists (length h + k)%nat.
  assert (Ha : (h ++ os) !! (length h + k)%nat = Some o1).
  { rewrite lookup_app_r by lia.
    replace (length h + k - length h)%nat with k by lia. exact Hk. }
  destruct (same_semantics_after _ _ _ _ Hsem Ha) as (o & Ho & Hs).
  exists o. split; [apply lookup_seq; split; [reflexivity|exact Hlt]|]. split; assumption.
Qed.

(** A color change that succeeds returns as many objects as the base
    has; the object at the drawn index has another color, one of the
    palette, and is otherwise as in the base; the other objects are as
    in the base (['pixel_coords'] apart). *)
Theorem apply_change_color (sqrt : Q -> Q) (bl : Blender) (rs : RandomSource)
    (properties : Properties) (args : Args) (directions : Directions)
    (fuel : nat) (default_objects : list loc) (st st' : State)
    (new_objects : list loc) (new_blend_objects : list BlenderObj) :
  apply_change sqrt bl rs properties args directions fuel default_objects "color" st
    = (Ok (Some (new_objects, new_blend_objects)), st') ->
  let j := (rs_int rs (n_int st) mod length default_objects)%nat in
  (j < length default_objects)%nat /\
  length new_objects = length default_objects /\
  forall k b ob,
    default_objects !! k = Some b -> heap st !! b = Some ob ->
    exists a o,
      new_objects !! k = Some a /\ heap st' !! a = Some o /\
      (o_shape o, o_size o, o_material o, o_rotation o, o_3d_coords o)
      = (o_shape ob, o_size ob, o_material ob, o_rotation ob, o_3d_coords ob) /\
      (k = j -> o_color o <> o_color ob /\
                In (o_color o) (map fst (p_colors properties))) /\
      (k <> j -> o_color o = o_color ob).
Proof.
  intros H j. unfold apply_change in H. inv_bind_as H changed.
  change (changed_objects sqrt rs properties args directions fuel default_objects "color")
    with (bind (randint rs 0 (Z.of_nat (length default_objects) - 1))
            (fun object_idx =>
               bind (change_color rs properties fuel object_idx 0 default_objects [])
                    (fun l => ret (Some l)))) in Hrun.
  inv_bind_as Hrun object_idx. apply randint_Ok in Hrun0.
  destruct Hrun0 as (Hlen & Hidx & Hh0). fold j in Hidx.
  inv_bind_as Hrun l. inv_ret Hrun.
  apply change_color_spec in Hrun0. destruct Hrun0 as (os & Hheap & Hos & Hnews & Hall).
  cbn [app] in Hnews. rewrite Hh0 in Hheap, Hnews, Hall.
  inv_bind_as H bos. apply render_objects_spec in Hrun. destruct Hrun as (_ & Hsem & _ & _).
  inv_bind_as H all_visible. inv_lift Hrun. destruct all_visible; inv_ret H; [|discriminate].
  inversion H; subst new_objects new_blend_objects. clear H.
  split; [apply Nat.mod_upper_bound; lia|].
  split; [apply length_seq|].
  intros k b ob Hk Hb.
  destruct (Hall k b ob Hk Hb) as (o1 & Ho1 & Hrec).
  rewrite Hheap in Hsem.
  destruct (rendered_copy _ _ _ (length default_objects) k o1 Hsem Ho1)
    as (a & o & Ha & Ho & Hs); [eapply lookup_lt_Some; eauto|].
  exists a, o. split; [exact Ha|]. split; [exact Ho|].
  unfold semantic_fields in Hs. inversion Hs as [[Hshape Hsize Hmat Hcol Hrot Hcoords]].
  unfold recolored in Hrec.
  destruct (Z.eqb_spec (0 + Z.of_nat k) (Z.of_nat j)) as [E|N].
  - destruct Hrec as (c & -> & Hne & Hin). cbn [set_color o_shape o_size o_material
      o_rotation o_3d_coords o_color] in *.
    split; [congruence|]. split.
    + intros _. rewrite Hcol. split; assumption.
    + intros Hkj. exfalso. apply Hkj. lia.
  - subst o1. split; [congruence|]. split.
    + intros Hkj. exfalso. apply N. lia.
    + intros _. exact Hcol.
Qed.

Lemma demo_variant_color_run :
  demo_variant "color"
  = (Ok (Some (demo_variant_objects "color", demo_variant_blender "color")),
     snd (demo_variant "color")).
Proof. vm_compute. reflexivity. Qed.

Lemma apply_change_color_witness :
  (1 < length demo_base)%nat /\
  length (demo_variant_objects "color") = length demo_base /\
  forall k b ob,
    demo_base !! k = Some b -> heap demo_base_state !! b = Some ob ->
    exists a o,
      demo_variant_objects "color" !! k = Some a /\
      heap (snd (demo_variant "color")) !! a = Some o /\
      (o_shape o, o_size o, o_material o, o_rotation o, o_3d_coords o)
      = (o_shape ob, o_size ob, o_material ob, o_rotation ob, o_3d_coords ob) /\
      (k = 1%nat -> o_color o <> o_color ob /\
                    In (o_color o) (map fst (p_colors demo_properties))) /\
      (k <> 1%nat -> o_color o = o_color ob).
Proof.
  exact (apply_change_color sqrt_micro demo_blender demo_random demo_properties
           demo_args demo_directions 5 demo_base demo_base_state _ _ _
           demo_variant_color_run).
Defined.

Lemma key_of_Ok {A} (mapping : list (A * string)) (name : string) (k : A) :
  key_of mapping name = Ok k -> In (k, name) mapping.
Proof.
  unfold key_of, first_match.
  destruct (List.filter _ mapping) as [|[k' n'] rest] eqn:E; [discriminate|].
  intros H. inversion H; subst k'. clear H.
  assert (Hin : In (k, n') (List.filter (fun kv : A * string => String.eqb (snd kv) name)
                              mapping)) by (rewrite E; left; reflexivity).
  apply filter_In in Hin. destruct Hin as [Hin Heq]. cbn [snd] in Heq.
  apply String.eqb_eq in Heq. subst n'. exact Hin.
Qed.

(** Two entries of [material_mapping] with the same output name are the
    same entry when the names of the materials dictionary are distinct. *)
Lemma material_mapping_inj (properties : Properties) (n n' m : string) :
  NoDup (map fst (p_materials properties)) ->
  In (n, m) (material_mapping properties) -> In (n', m) (material_mapping properties) ->
  n = n'.
Proof.
  unfold material_mapping. intros Hnd H H'.
  apply in_map_iff in H. destruct H as ([k v] & E & Hin). inversion E; subst.
  apply in_map_iff in H'. destruct H' as ([k' v'] & E' & Hin'). inversion E'; subst.
  pose proof (value_of_In _ _ _ Hnd Hin) as H1.
  pose proof (value_of_In _ _ _ Hnd Hin') as H2. congruence.
Qed.

(** A material change that succeeds returns as many objects as the base
    has; the object at the drawn index has another material, one of the
    names of the materials dictionary, and is otherwise as in the base;
    the other objects are as in the base (['pixel_coords'] apart). *)
Theorem apply_change_material (sqrt : Q -> Q) (bl : Blender) (rs : RandomSource)
    (properties : Properties) (args : Args) (directions : Directions)
    (fuel : nat) (default_objects : list loc) (st st' : State)
    (new_objects : list loc) (new_blend_objects : list BlenderObj) :
  NoDup (map fst (p_materials properties)) ->
  apply_change sqrt bl rs properties args directions fuel default_objects "material" st
    = (Ok (Some (new_objects, new_blend_objects)), st') ->
  let j := (rs_int rs (n_int st) mod length default_objects)%nat in
  (j < length default_objects)%nat /\
  length new_objects = length default_objects /\
  forall k b ob,
    default_objects !! k = Some b -> heap st !! b = Some ob ->
    exists a o,
      new_objects !! k = Some a /\ heap st' !! a = Some o /\
      (o_shape o, o_size o, o_color o, o_rotation o, o_3d_coords o)
      = (o_shape ob, o_size ob, o_color ob, o_rotation ob, o_3d_coords ob) /\
      (k = j -> o_material o <> o_material ob /\
                In (o_material o) (map fst (p_materials properties))) /\
      (k <> j -> o_material o = o_material ob).
Proof.
  intros Hnd H j. unfold apply_change in H. inv_bind_as H changed.
  change (changed_objects sqrt rs properties args directions fuel default_objects
            "material")
    with (bind (randint rs 0 (Z.of_nat (length default_objects) - 1))
            (fun object_idx =>
               bind (change_material rs properties fuel object_idx 0 default_objects [])
                    (fun l => ret (Some l)))) in Hrun.
  inv_bind_as Hrun object_idx. apply randint_Ok in Hrun0.
  destruct Hrun0 as (Hlen & Hidx & Hh0). fold j in Hidx.
  inv_bind_as Hrun l. inv_ret Hrun.
  apply change_material_spec in Hrun0.
  destruct Hrun0 as (os & Hheap & Hos & Hnews & Hall).
  cbn [app] in Hnews. rewrite Hh0 in Hheap, Hnews, Hall.
  inv_bind_as H bos. apply render_objects_spec in Hrun. destruct Hrun as (_ & Hsem & _ & _).
  inv_bind_as H all_visible. inv_lift Hrun. destruct all_visible; inv_ret H; [|discriminate].
  inversion H; subst new_objects new_blend_objects. clear H.
  split; [apply Nat.mod_upper_bound; lia|].
  split; [apply length_seq|].
  intros k b ob Hk Hb.
  destruct (Hall k b ob Hk Hb) as (o1 & Ho1 & Hrec).
  rewrite Hheap in Hsem.
  destruct (rendered_copy _ _ _ (length default_objects) k o1 Hsem Ho1)
    as (a & o & Ha & Ho & Hs); [eapply lookup_lt_Some; eauto|].
  exists a, o. split; [exact Ha|]. split; [exact Ho|].
  unfold semantic_fields in Hs. inversion Hs as [[Hshape Hsize Hmat Hcol Hrot Hcoords]].
  unfold rematerialed in Hrec.
  destruct (Z.eqb_spec (0 + Z.of_nat k) (Z.of_nat j)) as [E|N].
  - destruct Hrec as (m & n & curr & -> & Hcurr & Hin & Hne).
    cbn [set_material o_shape o_size o_material o_rotation o_3d_coords o_color] in *.
    split; [congruence|]. split.
    + intros _. rewrite Hmat. split.
      * intros Heq. apply Hne. apply key_of_Ok in Hcurr. rewrite <- Heq in Hcurr.
        exact (material_mapping_inj properties n curr m Hnd Hin Hcurr).
      * unfold material_mapping in Hin. apply in_map_iff in Hin.
        destruct Hin as ([k0 v0] & E0 & Hin). inversion E0 as [[Ev Ek]].
        apply in_map_iff. exists (k0, v0). split; [exact Ek|exact Hin].
    + intros Hkj. exfalso. apply Hkj. lia.
  - subst o1. split; [congruence|]. split.
    + intros Hkj. exfalso. apply N. lia.
    + intros _. exact Hmat.
Qed.

Lemma demo_variant_material_run :
  demo_variant "material"
  = (Ok (Some (demo_variant_objects "material", demo_variant_blender "material")),
     snd (demo_variant "material")).
Proof. vm_compute. reflexivity. Qed.

Lemma demo_materials_keys : NoDup (map fst (p_materials demo_properties)).
Proof. apply (bool_decide_unpack _). vm_compute. exact I. Qed.

Lemma apply_change_material_witness :
  (1 < length demo_base)%nat /\
  length (demo_variant_objects "material") = length demo_base /\
  forall k b ob,
    demo_base !! k = Some b -> heap demo_base_state !! b = Some ob ->
    exists a o,
      demo_variant_objects "material" !! k = Some a /\
      heap (snd (demo_variant "material")) !! a = Some o /\
      (o_shape o, o_size o, o_color o, o_rotation o, o_3d_coords o)
      = (o_shape ob, o_size ob, o_color ob, o_rotation ob, o_3d_coords ob) /\
      (k = 1%nat -> o_material o <> o_material ob /\
                    In (o_material o) (map fst (p_materials demo_properties))) /\
      (k <> 1%nat -> o_material o = o_material ob).
Proof.
  exact (apply_change_material sqrt_micro demo_blender demo_random demo_properties
           demo_args demo_directions 5 demo_base demo_base_state _ _ _
           demo_materials_keys demo_variant_material_run).
Defined.

(** ** The edges of the chain on the change type *)

(** On an empty base scene the color, material and drop changes raise
    the [ValueError] of [random.randint(0, -1)], before any number is
    drawn and before any object is copied. *)
Theorem apply_change_empty_base (sqrt : Q -> Q) (bl : Blender) (rs : RandomSource)
    (properties : Properties) (args : Args) (directions : Directions)
    (fuel : nat) (st : State) :
  apply_change sqrt bl rs properties args directions fuel [] "color" st
    = (Raise ValueError, st) /\
  apply_change sqrt bl rs properties args directions fuel [] "material" st
    = (Raise ValueError, st) /\
  apply_change sqrt bl rs properties args directions fuel [] "drop" st
    = (Raise ValueError, st).
Proof. repeat split; reflexivity. Qed.

(** The names the chain of [if]/[elif] of [apply_change] tests. *)
Lemma changed_objects_unknown (sqrt : Q -> Q) (rs : RandomSource)
    (properties : Properties) (args : Args) (directions : Directions)
    (fuel : nat) (default_objects : list loc) (change_type : string) :
  ~ In change_type ["color"; "material"; "shape"; "drop"; "add"; "switch"; "random"; "same"] ->
  changed_objects sqrt rs properties args directions fuel default_objects change_type
  = ret (Some []).
Proof.
  intros H. unfold changed_objects.
  repeat match goal with
  | |- context [String.eqb change_type ?s] =>
      destruct (String.eqb_spec change_type s) as [->|_];
      [exfalso; apply H; cbn; tauto|]
  end.
  reflexivity.
Qed.

(** A change type that is none of the eight names of the chain is not
    refused: the chain has no [else], the function goes on with an empty
    list of objects, exactly as for ['shape']. *)
Theorem apply_change_unknown_type (sqrt : Q -> Q) (bl : Blender) (rs : RandomSource)
    (properties : Properties) (args : Args) (directions : Directions)
    (fuel : nat) (default_objects : list loc) (change_type : string) (st : State) :
  ~ In change_type ["color"; "material"; "shape"; "drop"; "add"; "switch"; "random"; "same"] ->
  apply_change sqrt bl rs properties args directions fuel default_objects change_type st
  = (match check_visibility bl [] (a_min_pixels_per_object args) with
     | Ok true => Ok (Some ([], []))
     | Ok false => Ok None
     | Raise e => Raise e
     end, st).
Proof.
  intros H. unfold apply_change.
  rewrite (changed_objects_unknown sqrt rs properties args directions fuel
             default_objects change_type H).
  unfold bind, ret, lift. cbn [render_objects ret].
  destruct (check_visibility bl [] (a_min_pixels_per_object args)) as [[|]|e];
    reflexivity.
Qed.

Lemma apply_change_unknown_type_witness :
  apply_change sqrt_micro demo_blender demo_random demo_properties demo_args
    demo_directions 5 demo_base "move" demo_base_state
  = (match check_visibility demo_blender [] (a_min_pixels_per_object demo_args) with
     | Ok true => Ok (Some ([], []))
     | Ok false => Ok None
     | Raise e => Raise e
     end, demo_base_state).
Proof.
  apply apply_change_unknown_type.
  intros H. cbn in H. repeat (destruct H as [H|H]; [discriminate H|]). exact H.
Defined.

(** ** The color change on a palette without another color *)

Section OneColor.

Variable rs : RandomSource.
Variable properties : Properties.

Lemma new_color_stuck (curr : string) :
  p_colors properties <> [] ->
  (forall c, In c (map fst (p_colors properties)) -> c = curr) ->
  forall fuel st, exists st',
    new_color rs properties fuel curr st = (Raise NoFuel, st').
Proof.
  intros Hne Hall. induction fuel as [|fuel IH]; intros st; cbn [new_color].
  - eexists. reflexivity.
  - assert (Hne' : color_name_to_rgba properties <> []).
    { unfold color_name_to_rgba. destruct (p_colors properties); [congruence|discriminate]. }
    destruct (choice_nonempty rs _ st Hne') as ([name rgba] & st1 & Hrun & Hin).
    rewrite (bind_run _ _ _ _ _ Hrun).
    assert (Hname : name = curr).
    { apply Hall. rewrite <- color_names. apply in_map_iff.
      exists (name, rgba). split; [reflexivity|exact Hin]. }
    subst name. rewrite String.eqb_refl. cbn [negb]. apply IH.
Qed.

Lemma change_color_stuck (fuel : nat) (object_idx : Z) (objs : list loc) :
  forall k i new_objects st b ob,
    objs !! k = Some b -> heap st !! b = Some ob ->
    (i + Z.of_nat k)%Z = object_idx ->
    Forall (fun b => is_Some (heap st !! b)) (take k objs) ->
    p_colors properties <> [] ->
    (forall c, In c (map fst (p_colors properties)) -> c = o_color ob) ->
    exists st',
      change_color rs properties fuel object_idx i objs new_objects st
      = (Raise NoFuel, st').
Proof.
  induction objs as [|obj rest IH]; intros k i news st b ob Hk Hb Hi Hpre Hne Hall;
    [discriminate|].
  cbn [change_color]. destruct k as [|k].
  - cbn in Hk. inversion Hk; subst obj. clear Hk.
    unfold bind at 1. unfold deepcopy, bind at 1. unfold read at 1. rewrite Hb.
    unfold alloc at 1.
    replace (i =? object_idx)%Z with true by (symmetry; apply Z.eqb_eq; lia).
    unfold bind at 1. unfold bind at 1. unfold read at 1.
    cbn [heap]. rewrite lookup_last.
    match goal with
    | |- context [bind (new_color rs properties fuel (o_color ob)) _ ?s] =>
        destruct (new_color_stuck (o_color ob) Hne Hall fuel s) as [st' Hst]
    end.
    unfold bind at 1. rewrite Hst. eexists. reflexivity.
  - cbn in Hk. cbn [take] in Hpre. apply Forall_cons in Hpre.
    destruct Hpre as [[o Ho] Hpre].
    unfold bind at 1. unfold deepcopy, bind at 1. unfold read at 1. rewrite Ho.
    unfold alloc at 1.
    replace (i =? object_idx)%Z with false by (symmetry; apply Z.eqb_neq; lia).
    unfold bind at 1. unfold ret at 1.
    eapply IH with (k := k) (b := b) (ob := ob); try assumption.
    + cbn [heap]. apply lookup_snoc_old. exact Hb.
    + lia.
    + cbn [heap]. eapply Forall_impl; [exact Hpre|]. intros c [oc Hc].
      exists oc. apply lookup_snoc_old. exact Hc.
Qed.

End OneColor.

(** When the palette has no color other than the color of the object
    that is drawn, the [while True] loop of the color change has no way
    out: whatever the number of rounds it is given, it has not ended. *)
Theorem apply_change_color_no_other_color (sqrt : Q -> Q) (bl : Blender)
    (rs : RandomSource) (properties : Properties) (args : Args)
    (directions : Directions) (default_objects : list loc) (st : State)
    (b : loc) (ob : Obj) :
  let j := (rs_int rs (n_int st) mod length default_objects)%nat in
  default_objects !! j = Some b -> heap st !! b = Some ob ->
  Forall (fun b => is_Some (heap st !! b)) (take j default_objects) ->
  p_colors properties <> [] ->
  (forall c, In c (map fst (p_colors properties)) -> c = o_color ob) ->
  forall fuel, exists st',
    apply_change sqrt bl rs properties args directions fuel default_objects "color" st
    = (Raise NoFuel, st').
Proof.
  intros j Hj Hb Hpre Hne Hall fuel. unfold apply_change.
  change (changed_objects sqrt rs properties args directions fuel default_objects "color")
    with (bind (randint rs 0 (Z.of_nat (length default_objects) - 1))
            (fun object_idx =>
               bind (change_color rs properties fuel object_idx 0 default_objects [])
                    (fun l => ret (Some l)))).
  assert (Hlen : (0 < length default_objects)%nat).
  { destruct default_objects; [discriminate|cbn [length]; lia]. }
  unfold bind at 1. unfold bind at 1. rewrite (randint_run rs _ st Hlen). fold j.
  destruct (change_color_stuck rs properties fuel (Z.of_nat j) default_objects j 0 []
              (drew_int st) b ob Hj Hb ltac:(lia) Hpre Hne Hall) as [st' Hst].
  unfold bind at 1. rewrite Hst. eexists. reflexivity.
Qed.

Lemma apply_change_color_no_other_color_witness :
  exists st',
    apply_change sqrt_micro demo_blender demo_random one_color_properties demo_args
      demo_directions 1000 demo_base "color" demo_base_state
    = (Raise NoFuel, st').
Proof.
  assert (Hob : exists ob, heap demo_base_state !! 1%nat = Some ob /\ o_color ob = "blue").
  { eexists. split; reflexivity. }
  destruct Hob as (ob & Hob & Hc).
  apply (apply_change_color_no_other_color sqrt_micro demo_blender demo_random
           one_color_properties demo_args demo_directions demo_base demo_base_state
           1%nat ob).
  - reflexivity.
  - exact Hob.
  - apply Forall_cons_2; [eexists; reflexivity|apply Forall_nil_2].
  - discriminate.
  - intros c [H|[]]. rewrite Hc. symmetry. exact H.
Defined.

(** ** The add change: the copies and the fields of the new object *)

Lemma assoc_Some {B} (l : list (string * B)) (k : string) (v : B) :
  assoc l k = Some v -> In (k, v) l.
Proof.
  induction l as [|[k' v'] l IH]; cbn [assoc]; [discriminate|].
  destruct (String.eqb_spec k' k) as [->|_].
  - intros H. inversion H. left. reflexivity.
  - intros H. right. apply IH. exact H.
Qed.

Lemma object_names (properties : Properties) (name out : string) :
  In (name, out) (object_mapping properties) -> In out (map fst (p_shapes properties)).
Proof.
  unfold object_mapping. intros H. apply in_map_iff in H.
  destruct H as ([k v] & E & Hin). inversion E as [[Ev Ek]].
  apply in_map_iff. exists (k, v). split; [exact Ek|exact Hin].
Qed.

Lemma material_names (properties : Properties) (name out : string) :
  In (name, out) (material_mapping properties) ->
  In out (map fst (p_materials properties)).
Proof.
  unfold material_mapping. intros H. apply in_map_iff in H.
  destruct H as ([k v] & E & Hin). inversion E as [[Ev Ek]].
  apply in_map_iff. exists (k, v). split; [exact Ek|exact Hin].
Qed.

Lemma choose_shape_color_Ok (rs : RandomSource) (properties : Properties) (args : Args)
    (st st' : State) (obj_name obj_name_out color_name : string) (rgba : list Q) :
  choose_shape_color rs properties args st
    = (Ok (obj_name, obj_name_out, color_name, rgba), st') ->
  In obj_name_out (map fst (p_shapes properties)) /\
  In color_name (map fst (p_colors properties)).
Proof.
  unfold choose_shape_color. intros H.
  destruct (shape_color_combos args) as [combos|].
  - inv_bind_as H combo. destruct combo as [out color_choices].
    inv_bind_as H c. inv_bind_as H n. apply lift_Ok in Hrun1. destruct Hrun1 as [Hn _].
    inv_bind_as H col. apply lift_Ok in Hrun1. destruct Hrun1 as [Hcol _].
    apply ret_Ok in H. destruct H as [H _]. inversion H; subst.
    apply key_of_Ok in Hn. split; [exact (object_names _ _ _ Hn)|].
    unfold getitem in Hcol.
    destruct (assoc (color_name_to_rgba properties) c) as [v|] eqn:E; [|discriminate].
    apply assoc_Some in E. rewrite <- color_names. apply in_map_iff.
    exists (c, v). split; [reflexivity|exact E].
  - inv_bind_as H shape. destruct shape as [n out].
    apply choice_In in Hrun.
    inv_bind_as H col. destruct col as [c v]. apply choice_In in Hrun0.
    apply ret_Ok in H. destruct H as [H _]. inversion H; subst.
    split; [exact (object_names _ _ _ Hrun)|].
    rewrite <- color_names. apply in_map_iff.
    exists (c, v). split; [reflexivity|exact Hrun0].
Qed.

Section AddFields.

Variable sqrt : Q -> Q.
Variable bl : Blender.
Variable rs : RandomSource.
Variable properties : Properties.
Variable args : Args.
Variable directions : Directions.

Lemma change_add_fields (default_objects : list loc) (st st1 : State)
    (new_objects : list loc) :
  change_add sqrt rs properties args directions default_objects st
    = (Ok (Some new_objects), st1) ->
  exists os o_new,
    heap st1 = heap st ++ os ++ [o_new] /\
    new_objects = seq (length (heap st)) (length default_objects)
                    ++ [length (heap st ++ os)] /\
    Forall2 (fun a o => (heap st ++ os) !! a = Some o) default_objects os /\
    In (o_shape o_new) (map fst (p_shapes properties)) /\
    In (o_size o_new) (map fst (p_sizes properties)) /\
    In (o_material o_new) (map fst (p_materials properties)) /\
    In (o_color o_new) (map fst (p_colors properties)) /\
    vz (o_3d_coords o_new) = -1 /\
    o_pixel_coords o_new = None.
Proof.
  unfold change_add. intros H.
  inv_bind_as H drawn. destruct drawn as [new_size_name new_r].
  pose proof (choice_In _ _ _ _ _ Hrun) as Hsize.
  apply choice_heap in Hrun.
  inv_bind_as H collected. destruct collected as [other_positions news].
  apply add_collect_spec in Hrun0.
  destruct Hrun0 as (os & ps & Hh1 & Hread & Hpos & Hops & Hnews).
  cbn [app] in Hops, Hnews.
  inv_bind_as H placed. destruct placed as [[new_x new_y]|];
    [|apply ret_Ok in H; destruct H as [H _]; discriminate].
  pose proof (sample_position_heap _ _ _ _ _ _ _ _ _ _ Hrun0) as Hh2.
  inv_bind_as H chosen.
  destruct chosen as [[[new_obj_name new_obj_name_out] new_color_name] new_rgba].
  pose proof (choose_shape_color_Ok _ _ _ _ _ _ _ _ _ Hrun1) as [Hshape Hcolor].
  apply choose_shape_color_heap in Hrun1.
  inv_bind_as H theta0. apply random_heap in Hrun2.
  inv_bind_as H mat. destruct mat as [new_mat_name new_mat_name_out].
  pose proof (choice_In _ _ _ _ _ Hrun3) as Hmat.
  apply choice_heap in Hrun3.
  inv_bind_as H new_obj. apply alloc_Ok in Hrun4. destruct Hrun4 as [Hnew Hh5].
  apply ret_Ok in H. destruct H as [H ->]. inversion H; subst new_objects. clear H.
  match type of Hh5 with heap _ = heap ?s ++ _ =>
    assert (Hheap : heap s = heap st ++ os) by congruence
  end.
  eexists os, _. rewrite Hh5, Hheap, <- app_assoc.
  split; [reflexivity|]. split.
  { rewrite Hnews, Hnew, Hheap, Hrun. reflexivity. }
  split; [rewrite Hh1, Hrun in Hread; exact Hread|].
  cbn [o_shape o_size o_material o_color o_3d_coords o_pixel_coords vz snd].
  split; [exact Hshape|].
  split; [apply in_map_iff; exists (new_size_name, new_r); split;
          [reflexivity|exact Hsize]|].
  split; [exact (material_names _ _ _ Hmat)|].
  split; [exact Hcolor|]. split; reflexivity.
Qed.

End AddFields.

(** An add change that succeeds returns one object more than the base
    has: the first are the objects of the base, in their order and
    (['pixel_coords'] apart) as they were; the last one is new, each of
    its shape, size, material and color is a name of the property file,
    and its ['3d_coords'] has -1 as third component. *)
Theorem apply_change_add (sqrt : Q -> Q) (bl : Blender) (rs : RandomSource)
    (properties : Properties) (args : Args) (directions : Directions)
    (fuel : nat) (default_objects : list loc) (st st' : State)
    (new_objects : list loc) (new_blend_objects : list BlenderObj) :
  apply_change sqrt bl rs properties args directions fuel default_objects "add" st
    = (Ok (Some (new_objects, new_blend_objects)), st') ->
  length new_objects = S (length default_objects) /\
  (forall k b ob,
      default_objects !! k = Some b -> heap st !! b = Some ob ->
      exists a o, new_objects !! k = Some a /\ heap st' !! a = Some o /\
                  semantic_fields o = semantic_fields ob) /\
  exists a o,
    new_objects !! length default_objects = Some a /\ heap st' !! a = Some o /\
    In (o_shape o) (map fst (p_shapes properties)) /\
    In (o_size o) (map fst (p_sizes properties)) /\
    In (o_material o) (map fst (p_materials properties)) /\
    In (o_color o) (map fst (p_colors properties)) /\
    vz (o_3d_coords o) = -1.
Proof.
  unfold apply_change. intros H. inv_bind_as H changed.
  change (changed_objects sqrt rs properties args directions fuel default_objects "add")
    with (change_add sqrt rs properties args directions default_objects) in Hrun.
  destruct changed as [news|]; [|apply ret_Ok in H; destruct H as [H _]; discriminate].
  apply change_add_fields in Hrun.
  destruct Hrun as (os & o_new & Hh & Hnews & Hread & Hshape & Hsize & Hmat & Hcol & Hz & _).
  inv_bind_as H bos. apply render_objects_spec in Hrun.
  destruct Hrun as (_ & Hsem & _ & _).
  inv_bind_as H all_visible. apply lift_Ok in Hrun. destruct Hrun as [_ ->].
  destruct all_visible; apply ret_Ok in H; destruct H as [H ->]; [|discriminate].
  inversion H; subst new_objects new_blend_objects. clear H.
  pose proof (Forall2_length _ _ _ Hread) as Hlen.
  split; [rewrite Hnews, length_app, length_seq; cbn [length]; lia|].
  split.
  - intros k b ob Hk Hb.
    destruct (Forall2_lookup_l _ _ _ _ _ Hread Hk) as (o1 & Ho1 & Hbo).
    rewrite lookup_app_l in Hbo by (eapply lookup_lt_Some; eauto).
    rewrite Hb in Hbo. inversion Hbo; subst o1.
    assert (Ha : (heap st ++ os ++ [o_new]) !! (length (heap st) + k)%nat = Some ob).
    { rewrite lookup_app_r by lia.
      replace (length (heap st) + k - length (heap st))%nat with k by lia.
      apply lookup_app_l_Some. exact Ho1. }
    rewrite <- Hh in Ha.
    destruct (same_semantics_after _ _ _ _ Hsem Ha) as (o & Ho & Hs).
    exists (length (heap st) + k)%nat, o. split; [|split; assumption].
    rewrite Hnews. apply lookup_app_l_Some. apply lookup_seq.
    split; [reflexivity|eapply lookup_lt_Some; eauto].
  - assert (Ha : (heap st ++ os ++ [o_new]) !! length (heap st ++ os) = Some o_new)
      by (rewrite app_assoc; apply lookup_last).
    rewrite <- Hh in Ha.
    destruct (same_semantics_after _ _ _ _ Hsem Ha) as (o & Ho & Hs).
    exists (length (heap st ++ os)), o.
    split.
    { rewrite Hnews.
      pose proof (lookup_last (seq (length (heap st)) (length default_objects))
                    (length (heap st ++ os))) as Hl.
      rewrite length_seq in Hl. exact Hl. }
    split; [exact Ho|].
    unfold semantic_fields in Hs. inversion Hs as [[Es Ez Em Ec Er E3]].
    rewrite Es, Ez, Em, Ec, E3. repeat split; assumption.
Qed.

Lemma apply_change_add_witness :
  length (demo_variant_objects "add") = S (length demo_base) /\
  (forall k b ob,
      demo_base !! k = Some b -> heap demo_base_state !! b = Some ob ->
      exists a o, demo_variant_objects "add" !! k = Some a /\
                  heap (snd (demo_variant "add")) !! a = Some o /\
                  semantic_fields o = semantic_fields ob) /\
  exists a o,
    demo_variant_objects "add" !! length demo_base = Some a /\
    heap (snd (demo_variant "add")) !! a = Some o /\
    In (o_shape o) (map fst (p_shapes demo_properties)) /\
    In (o_size o) (map fst (p_sizes demo_properties)) /\
    In (o_material o) (map fst (p_materials demo_properties)) /\
    In (o_color o) (map fst (p_colors demo_properties)) /\
    vz (o_3d_coords o) = -1.
Proof.
  exact (apply_change_add sqrt_micro demo_blender demo_random demo_properties
           demo_args demo_directions 5 demo_base demo_base_state _ _ _
           demo_variant_add_run).
Defined.

(** ** check_visibility: the counter against the pixels of the image *)

Lemma rgba_eqb_eq (a b : RGBA) : rgba_eqb a b = true <-> a = b.
Proof.
  destruct a as [[[a1 a2] a3] a4], b as [[[b1 b2] b3] b4]. unfold rgba_eqb.
  rewrite !andb_true_iff, !Z.eqb_eq. split.
  - intros [[[-> ->] ->] ->]. reflexivity.
  - intros H. inversion H. auto.
Qed.

Lemma pixels_of_snoc (x c : RGBA) (l : list RGBA) :
  pixels_of x (l ++ [c]) = (pixels_of x l + (if bool_decide (c = x) then 1 else 0))%Z.
Proof.
  unfold pixels_of. rewrite List.filter_app, length_app. cbn [List.filter].
  destruct (bool_decide (c = x)); cbn [length]; lia.
Qed.

Lemma pixels_of_absent (x : RGBA) (l : list RGBA) : ~ In x l -> pixels_of x l = 0%Z.
Proof.
  unfold pixels_of. induction l as [|c l IH]; intros H; [reflexivity|].
  cbn [List.filter]. destruct (bool_decide_reflect (c = x)) as [->|_].
  - exfalso. apply H. left. reflexivity.
  - apply IH. intros Hin. apply H. right. exact Hin.
Qed.

Lemma pixels_of_present (x : RGBA) (l : list RGBA) : In x l -> (1 <= pixels_of x l)%Z.
Proof.
  unfold pixels_of. induction l as [|c l IH]; intros H; [destruct H|].
  cbn [List.filter]. destruct (bool_decide_reflect (c = x)) as [->|Hne].
  - cbn [length]. lia.
  - destruct H as [E|H]; [congruence|]. apply IH. exact H.
Qed.

(** [counter_add] either counts one more for a key it has, or adds the
    key at the end. *)
Lemma counter_add_keys (c : RGBA) (cc : list (RGBA * Z)) :
  (In c (map fst cc) /\ map fst (counter_add c cc) = map fst cc) \/
  (~ In c (map fst cc) /\ map fst (counter_add c cc) = map fst cc ++ [c]).
Proof.
  induction cc as [|[k n] rest IH]; cbn [counter_add map fst].
  - right. split; [intros []|reflexivity].
  - destruct (rgba_eqb k c) eqn:E.
    + apply rgba_eqb_eq in E. subst k. left. split; [left; reflexivity|reflexivity].
    + assert (Hne : k <> c) by (intros ->; rewrite (proj2 (rgba_eqb_eq c c) eq_refl) in E;
                                discriminate).
      cbn [map fst]. destruct IH as [[Hin Hk]|[Hnin Hk]].
      * left. split; [right; exact Hin|rewrite Hk; reflexivity].
      * right. split; [intros [H|H]; [exact (Hne H)|exact (Hnin H)]|].
        rewrite Hk. reflexivity.
Qed.

Lemma counter_add_NoDup (c : RGBA) (cc : list (RGBA * Z)) :
  NoDup (map fst cc) -> NoDup (map fst (counter_add c cc)).
Proof.
  intros Hnd. destruct (counter_add_keys c cc) as [[_ ->]|[Hnin ->]]; [exact Hnd|].
  apply NoDup_app. split; [exact Hnd|]. split.
  - intros x Hx Hc. apply list_elem_of_In in Hx, Hc.
    destruct Hc as [<-|[]]. exact (Hnin Hx).
  - apply NoDup_singleton.
Qed.

Lemma key_of_entry (x : RGBA) (k : Z) (cc : list (RGBA * Z)) :
  In (x, k) cc -> In x (map fst cc).
Proof. intros H. apply in_map_iff. exists (x, k). split; [reflexivity|exact H]. Qed.

Lemma counter_add_entries (c : RGBA) (cc : list (RGBA * Z)) :
  NoDup (map fst cc) ->
  forall x k,
    In (x, k) (counter_add c cc) <->
    (x <> c /\ In (x, k) cc) \/
    (x = c /\ (In (c, (k - 1)%Z) cc \/ (k = 1%Z /\ ~ In c (map fst cc)))).
Proof.
  induction cc as [|[k0 n0] rest IH]; intros Hnd x k; cbn [counter_add].
  - cbn [In map]. split.
    + intros [E|[]]. inversion E; subst. right. split; [reflexivity|].
      right. split; [reflexivity|intros []].
    + intros [[_ []]|[-> [[]|[-> _]]]]. left. reflexivity.
  - cbn [map fst] in Hnd. apply NoDup_cons in Hnd. destruct Hnd as [Hk0 Hnd].
    assert (Hfresh : forall n, ~ In (k0, n) rest).
    { intros n Hin. apply Hk0. apply list_elem_of_In. exact (key_of_entry _ _ _ Hin). }
    destruct (rgba_eqb k0 c) eqn:E.
    + apply rgba_eqb_eq in E. subst k0. cbn [In map fst]. split.
      * intros [Eq|Hin].
        -- inversion Eq; subst. right. split; [reflexivity|].
           left. left. f_equal. lia.
        -- left. split; [|right; exact Hin].
           intros ->. exact (Hfresh _ Hin).
      * intros [[Hne [Eq|Hin]]|[-> [[Eq|Hin]|[_ Hnin]]]].
        -- inversion Eq; subst. congruence.
        -- right. exact Hin.
        -- inversion Eq; subst. left. f_equal. lia.
        -- exfalso. exact (Hfresh _ Hin).
        -- exfalso. apply Hnin. left. reflexivity.
    + assert (Hne : k0 <> c) by (intros ->; rewrite (proj2 (rgba_eqb_eq c c) eq_refl) in E;
                                 discriminate).
      cbn [In map fst]. rewrite (IH Hnd x k). split.
      * intros [Eq|[[Hxc Hin]|[-> [Hin|[-> Hnin]]]]].
        -- inversion Eq; subst. left. split; [exact Hne|left; reflexivity].
        -- left. split; [exact Hxc|right; exact Hin].
        -- right. split; [reflexivity|]. left. right. exact Hin.
        -- right. split; [reflexivity|]. right. split; [reflexivity|].
           intros [H|H]; [exact (Hne H)|exact (Hnin H)].
      * intros [[Hxc [Eq|Hin]]|[-> [[Eq|Hin]|[-> Hnin]]]].
        -- left. exact Eq.
        -- right. left. split; assumption.
        -- inversion Eq; subst. congruence.
        -- right. right. split; [reflexivity|]. left. exact Hin.
        -- right. right. split; [reflexivity|]. right. split; [reflexivity|].
           intros H. apply Hnin. right. exact H.
Qed.

(** [collections.Counter] counts: its keys are the colors of the image,
    each one once, and the count of a key is the number of its pixels. *)
Lemma Counter_spec (l : list RGBA) :
  NoDup (map fst (Counter l)) /\
  forall x k, In (x, k) (Counter l) <-> In x l /\ k = pixels_of x l.
Proof.
  unfold Counter. induction l as [|c l [IHnd IH]] using rev_ind.
  - cbn. split; [apply NoDup_nil_2|]. intros x k. split; [intros []|intros [[] _]].
  - rewrite fold_left_app. cbn [fold_left].
    set (cc := fold_left (fun cc c => counter_add c cc) l []) in *.
    split; [apply counter_add_NoDup; exact IHnd|].
    assert (Hkeys : forall x, In x (map fst cc) <-> In x l).
    { intros x. split.
      - intros H. apply in_map_iff in H. destruct H as ([x' k] & E & Hin).
        cbn in E. subst x'. apply IH in Hin. tauto.
      - intros H. apply (key_of_entry x (pixels_of x l)). apply IH. tauto. }
    intros x k. rewrite (counter_add_entries c cc IHnd x k), in_app_iff, pixels_of_snoc.
    rewrite !IH, Hkeys. cbn [In].
    destruct (bool_decide_reflect (c = x)) as [->|Hne].
    + split.
      * intros [[Hxc _]|[_ [[Hin Hk]|[-> Hnin]]]]; [congruence| |].
        -- split; [left; exact Hin|lia].
        -- split; [right; left; reflexivity|]. rewrite (pixels_of_absent _ _ Hnin). lia.
      * intros [_ ->]. right. split; [reflexivity|].
        destruct (in_dec (fun a b => decide (a = b)) x l) as [Hin|Hnin].
        -- left. split; [exact Hin|lia].
        -- right. split; [rewrite (pixels_of_absent _ _ Hnin); lia|exact Hnin].
    + split.
      * intros [[Hxc [Hin ->]]|[-> _]]; [|congruence].
        split; [left; exact Hin|lia].
      * intros [[Hin|[E|[]]] ->]; [|congruence].
        left. split; [congruence|]. split; [exact Hin|lia].
Qed.

Lemma Counter_length (l : list RGBA) : length (Counter l) = length (colors_of l).
Proof.
  destruct (Counter_spec l) as [Hnd H].
  rewrite <- (length_map fst (Counter l)). apply Permutation_length.
  apply NoDup_Permutation; [exact Hnd|apply NoDup_remove_dups|].
  intros x. unfold colors_of. rewrite elem_of_remove_dups, !list_elem_of_In. split.
  - intros Hin. apply in_map_iff in Hin. destruct Hin as ([x' k] & E & Hin).
    cbn in E. subst x'. apply H in Hin. tauto.
  - intros Hin. apply (key_of_entry x (pixels_of x l)). apply H. tauto.
Qed.

(** [check_visibility] answers [True] exactly when the shadeless image
    is a whole number of pixels, shows one color more than there are
    objects, and every color that it shows fills at least
    [min_pixels_per_object] pixels. *)
Theorem check_visibility_spec (bl : Blender) (blender_objects : list BlenderObj)
    (min_pixels_per_object : Z) :
  check_visibility bl blender_objects min_pixels_per_object = Ok true <->
  exists tuples,
    pixel_tuples (shadeless_pixels bl blender_objects) = Ok tuples /\
    length (colors_of tuples) = (length blender_objects + 1)%nat /\
    forall c, In c tuples -> (min_pixels_per_object <= pixels_of c tuples)%Z.
Proof.
  unfold check_visibility. rewrite check_pixels_true_iff. split.
  - intros (tuples & Ht & Hlen & Hall). exists tuples. split; [exact Ht|].
    split; [rewrite <- Counter_length; exact Hlen|].
    intros c Hin. apply (Hall c). apply Counter_spec. tauto.
  - intros (tuples & Ht & Hlen & Hall). exists tuples. split; [exact Ht|].
    split; [rewrite Counter_length; exact Hlen|].
    intros c k Hin. apply Counter_spec in Hin. destruct Hin as [Hin ->].
    apply Hall. exact Hin.
Qed.

(** ** check_dist_margin: what it answers, and when it answers *)

Section DistMargin.

Variable sqrt : Q -> Q.
Variable args : Args.
Variable directions : Directions.




End DistMargin.




(** ** compute_all_relationships: opposite directions and order *)

Lemma dot3_vsub_vneg (a b v : vec3) :
  dot3 (vsub a b) (vneg v) == dot3 (vsub b a) v.
Proof.
  destruct a as [[a1 a2] a3], b as [[b1 b2] b3], v as [[v1 v2] v3].
  unfold dot3, vsub, vneg. cbn [vx vy vz fst snd]. ring.
Qed.


Lemma dot3_vsub_self (a v : vec3) : dot3 (vsub a a) v == 0.
Proof.
  destruct a as [[a1 a2] a3], v as [[v1 v2] v3].
  unfold dot3, vsub. cbn [vx vy vz fst snd]. ring.
Qed.

(** Membership in the entries of two objects, by their coordinates. *)
Lemma relationships_for_member (objects : list Obj) (v : vec3) (eps : Q)
    (i j : nat) (related : list nat) :
  0 <= eps ->
  relationships_for objects v eps !! i = Some related ->
  j ∈ related <->
  exists obj1 obj2, objects !! i = Some obj1 /\ objects !! j = Some obj2 /\
    eps < dot3 (vsub (o_3d_coords obj2) (o_3d_coords obj1)) v.
Proof.
  intros Heps Hi.
  assert (Hlt : (i < length objects)%nat).
  { rewrite <- (relationships_for_length objects v eps). eapply lookup_lt_Some; eauto. }
  apply lookup_lt_is_Some_2 in Hlt. destruct Hlt as [obj1 Hobj1].
  destruct (relationships_for_entry objects v eps i obj1 Heps Hobj1)
    as (related' & Hi' & _ & Hmem & _).
  rewrite Hi in Hi'. inversion Hi'; subst related'. rewrite Hmem. split.
  - intros (obj2 & _ & Hj & Hdot). exists obj1, obj2. auto.
  - intros (o1 & obj2 & Ho1 & Hj & Hdot). rewrite Hobj1 in Ho1. inversion Ho1; subst o1.
    exists obj2. split; [|split; assumption].
    intros ->. rewrite Hobj1 in Hj. inversion Hj; subst obj2.
    rewrite dot3_vsub_self in Hdot. lra.
Qed.

(** With the directions that the script saves in the scene, where
    ['right'] is the opposite of ['left'] and ['front'] the opposite of
    ['behind'], the relationships mirror each other: [j] is in
    [output['left'][i]] exactly when [i] is in [output['right'][j]], and
    the same for ['behind'] and ['front']. *)
Theorem relationships_opposite (objects : list Obj) (plane_behind plane_left plane_up : vec3)
    (eps : Q) :
  0 <= eps ->
  let rels := compute_all_relationships objects
                (make_directions plane_behind plane_left plane_up) eps in
  exists behinds fronts lefts rights,
    assoc rels "behind" = Some behinds /\ assoc rels "front" = Some fronts /\
    assoc rels "left" = Some lefts /\ assoc rels "right" = Some rights /\
    forall i j,
      (forall li rj, lefts !! i = Some li -> rights !! j = Some rj ->
                     (j ∈ li <-> i ∈ rj)) /\
      (forall bi fj, behinds !! i = Some bi -> fronts !! j = Some fj ->
                     (j ∈ bi <-> i ∈ fj)).
Proof.
  intros Heps rels. subst rels. rewrite compute_all_relationships_items.
  cbn [make_directions d_behind d_front d_left d_right].
  eexists _, _, _, _. repeat (split; [reflexivity|]).
  assert (Hmirror : forall v i j ri rj,
             relationships_for objects v eps !! i = Some ri ->
             relationships_for objects (vneg v) eps !! j = Some rj ->
             (j ∈ ri <-> i ∈ rj)).
  { intros v i j ri rj Hi Hj.
    rewrite (relationships_for_member objects v eps i j ri Heps Hi).
    rewrite (relationships_for_member objects (vneg v) eps j i rj Heps Hj).
    split.
    - intros (o1 & o2 & H1 & H2 & Hdot). exists o2, o1.
      split; [exact H2|]. split; [exact H1|]. rewrite dot3_vsub_vneg. exact Hdot.
    - intros (o2 & o1 & H2 & H1 & Hdot). exists o1, o2.
      split; [exact H1|]. split; [exact H2|]. rewrite dot3_vsub_vneg in Hdot. exact Hdot. }
  intros i j. split; intros a b Ha Hb; exact (Hmirror _ i j a b Ha Hb).
Qed.


Lemma default_eps_nonneg : 0 <= default_eps.
Proof. unfold default_eps, Qle. simpl. lia. Qed.

Lemma relationships_opposite_witness :
  exists behinds fronts lefts rights,
    assoc (compute_all_relationships (fst demo_scene) demo_directions default_eps)
          "behind" = Some behinds /\
    assoc (compute_all_relationships (fst demo_scene) demo_directions default_eps)
          "front" = Some fronts /\
    assoc (compute_all_relationships (fst demo_scene) demo_directions default_eps)
          "left" = Some lefts /\
    assoc (compute_all_relationships (fst demo_scene) demo_directions default_eps)
          "right" = Some rights /\
    forall i j,
      (forall li rj, lefts !! i = Some li -> rights !! j = Some rj ->
                     (j ∈ li <-> i ∈ rj)) /\
      (forall bi fj, behinds !! i = Some bi -> fronts !! j = Some fj ->
                     (j ∈ bi <-> i ∈ fj)).
Proof.
  exact (relationships_opposite (fst demo_scene) (- (3 / 5), - (4 / 5), 0)
           (- (4 / 5), 3 / 5, 0) (0, 0, 1) default_eps default_eps_nonneg).
Defined.


(** ** The base scene renders back to the objects it was recorded from *)

Lemma key_of_In {A} (mapping : list (A * string)) (name : string) (k : A) :
  NoDup (map snd mapping) -> In (k, name) mapping -> key_of mapping name = Ok k.
Proof.
  unfold key_of, first_match.
  induction mapping as [|[k' n'] l IH]; intros Hnd Hin; [destruct Hin|].
  cbn [map snd] in Hnd. apply NoDup_cons in Hnd. destruct Hnd as [Hn' Hnd].
  cbn [List.filter snd]. destruct (String.eqb_spec n' name) as [->|Hne].
  - destruct Hin as [E|Hin]; [inversion E; reflexivity|].
    exfalso. apply Hn'. apply list_elem_of_In. apply in_map_iff.
    exists (k, name). split; [reflexivity|exact Hin].
  - destruct Hin as [E|Hin]; [inversion E; congruence|]. apply IH; assumption.
Qed.

Lemma getitem_In {B} (d : list (string * B)) (k : string) (v : B) :
  NoDup (map fst d) -> In (k, v) d -> getitem d k = Ok v.
Proof.
  unfold getitem. induction d as [|[k' v'] l IH]; intros Hnd Hin; [destruct Hin|].
  cbn [map fst] in Hnd. apply NoDup_cons in Hnd. destruct Hnd as [Hk' Hnd].
  cbn [assoc]. destruct (String.eqb_spec k' k) as [->|Hne].
  - destruct Hin as [E|Hin]; [inversion E; reflexivity|].
    exfalso. apply Hk'. apply list_elem_of_In. apply in_map_iff.
    exists (k, v). split; [reflexivity|exact Hin].
  - destruct Hin as [E|Hin]; [inversion E; congruence|]. apply IH; assumption.
Qed.

Lemma getitem_Ok {B} (d : list (string * B)) (k : string) (v : B) :
  getitem d k = Ok v -> In (k, v) d.
Proof.
  unfold getitem. destruct (assoc d k) as [v'|] eqn:E; [|discriminate].
  intros H. inversion H; subst. apply assoc_Some. exact E.
Qed.

Lemma object_mapping_names (properties : Properties) :
  map snd (object_mapping properties) = map fst (p_shapes properties).
Proof.
  unfold object_mapping. rewrite map_map. apply map_ext. intros [k v]. reflexivity.
Qed.

Lemma material_mapping_names (properties : Properties) :
  map snd (material_mapping properties) = map fst (p_materials properties).
Proof.
  unfold material_mapping. rewrite map_map. apply map_ext. intros [k v]. reflexivity.
Qed.

Section RenderBack.

Variable sqrt : Q -> Q.
Variable bl : Blender.
Variable rs : RandomSource.
Variable properties : Properties.
Variable args : Args.
Variable directions : Directions.

Hypothesis shapes_keys : NoDup (map fst (p_shapes properties)).
Hypothesis sizes_keys : NoDup (map fst (p_sizes properties)).
Hypothesis materials_keys : NoDup (map fst (p_materials properties)).
Hypothesis colors_keys : NoDup (map fst (p_colors properties)).
Hypothesis location_xy :
  forall b, fst (object_location bl b) = (bo_x b, bo_y b).

Lemma choose_shape_color_tables (st st' : State)
    (obj_name obj_name_out color_name : string) (rgba : list Q) :
  choose_shape_color rs properties args st
    = (Ok (obj_name, obj_name_out, color_name, rgba), st') ->
  key_of (object_mapping properties) obj_name_out = Ok obj_name /\
  getitem (color_name_to_rgba properties) color_name = Ok rgba.
Proof.
  unfold choose_shape_color. intros H.
  destruct (shape_color_combos args) as [combos|].
  - inv_bind_as H combo. destruct combo as [out color_choices].
    inv_bind_as H c. inv_bind_as H n. apply lift_Ok in Hrun1. destruct Hrun1 as [Hn _].
    inv_bind_as H col. apply lift_Ok in Hrun1. destruct Hrun1 as [Hcol _].
    apply ret_Ok in H. destruct H as [H _]. inversion H; subst. split; assumption.
  - inv_bind_as H shape. destruct shape as [n out].
    apply choice_In in Hrun.
    inv_bind_as H col. destruct col as [c v]. apply choice_In in Hrun0.
    apply ret_Ok in H. destruct H as [H _]. inversion H; subst. split.
    + apply key_of_In; [rewrite object_mapping_names; exact shapes_keys|exact Hrun].
    + apply getitem_In; [rewrite color_names; exact colors_keys|exact Hrun0].
Qed.

(** The object at index [i] is the record of the Blender object at
    index [i]. *)
Lemma place_objects_records (num_objects : nat) :
  forall positions objects blender_objects st objects' blender_objects' st',
    Forall2 (fun o b => blender_of sqrt properties o = Ok b /\
                        o_pixel_coords o
                        = Some (get_camera_coords bl (object_location bl b)))
            objects blender_objects ->
    place_objects sqrt bl rs properties args directions num_objects
      positions objects blender_objects st
      = (Ok (Some (objects', blender_objects')), st') ->
    Forall2 (fun o b => blender_of sqrt properties o = Ok b /\
                        o_pixel_coords o
                        = Some (get_camera_coords bl (object_location bl b)))
            objects' blender_objects' /\
    length objects' = (length objects + num_objects)%nat.
Proof.
  induction num_objects as [|n IH];
    intros positions objects blender_objects st objects' blender_objects' st'
      Hinv H; cbn [place_objects] in H.
  - apply ret_Ok in H. destruct H as [H _]. inversion H; subst.
    split; [exact Hinv|lia].
  - inv_bind_as H drawn. destruct drawn as [size_name r].
    apply choice_In in Hrun.
    inv_bind_as H placed. destruct placed as [[x y]|];
      [|apply ret_Ok in H; destruct H as [H _]; discriminate].
    inv_bind_as H chosen.
    destruct chosen as [[[obj_name obj_name_out] color_name] rgba].
    apply choose_shape_color_tables in Hrun1. destruct Hrun1 as [Hshape Hcolor].
    inv_bind_as H theta0.
    inv_bind_as H mat. destruct mat as [mat_name mat_name_out].
    apply choice_In in Hrun2.
    apply IH in H.
    + destruct H as [H Hlen]. split; [exact H|].
      rewrite Hlen, length_app. cbn [length]. lia.
    + apply Forall2_app; [exact Hinv|]. apply List.Forall2_cons; [|apply List.Forall2_nil].
      split; [|reflexivity].
      unfold blender_of. cbn [o_shape o_color o_size o_material o_3d_coords o_rotation].
      rewrite Hshape, Hcolor. cbn [rbind].
      change (value_of (size_mapping properties) size_name)
        with (first_match (fun kv : string * Q => String.eqb (fst kv) size_name) snd
                (p_sizes properties)).
      rewrite (value_of_In _ _ _ sizes_keys Hrun). cbn [rbind].
      rewrite (key_of_In _ _ _ ltac:(rewrite material_mapping_names; exact materials_keys)
                 Hrun2).
      cbn [rbind].
      match goal with |- context [object_location bl ?b] =>
        pose proof (location_xy b) as Hxy;
        destruct (object_location bl b) as [[x' y'] z']
      end.
      cbn [fst bo_x bo_y] in Hxy. inversion Hxy; subst x' y'. reflexivity.
Qed.

Lemma add_random_objects_records (depth num_objects : nat) :
  forall st objects blender_objects st',
    add_random_objects sqrt bl rs properties args directions depth num_objects st
      = (Ok (objects, blender_objects), st') ->
    Forall2 (fun o b => blender_of sqrt properties o = Ok b /\
                        o_pixel_coords o
                        = Some (get_camera_coords bl (object_location bl b)))
            objects blender_objects /\
    length objects = num_objects.
Proof.
  induction depth as [|depth IH]; intros st objects blender_objects st' H;
    cbn [add_random_objects] in H; [discriminate|].
  inv_bind_as H placed. destruct placed as [[objs bos]|]; [|eapply IH; exact H].
  inv_bind_as H all_visible. destruct all_visible; [|eapply IH; exact H].
  apply ret_Ok in H. destruct H as [H _]. inversion H; subst.
  apply (place_objects_records num_objects [] [] [] _ _ _ _ (List.Forall2_nil _)) in Hrun.
  exact Hrun.
Qed.

End RenderBack.

(** A scene that [add_random_objects] returns has [num_objects] objects
    and as many Blender objects.  When the keys of each table of the
    property file are distinct and an object sits where [add_object] is
    asked to put it, rendering the record of an object again, as
    [render_object] of [apply_change] does, gives back the Blender object
    it was recorded from, with the pixel coordinates that were
    recorded. *)
Theorem scene_renders_back (sqrt : Q -> Q) (bl : Blender) (rs : RandomSource)
    (properties : Properties) (args : Args) (directions : Directions)
    (depth num_objects : nat) (st st' : State)
    (objects : list Obj) (blender_objects : list BlenderObj) :
  NoDup (map fst (p_shapes properties)) ->
  NoDup (map fst (p_sizes properties)) ->
  NoDup (map fst (p_materials properties)) ->
  NoDup (map fst (p_colors properties)) ->
  (forall b, fst (object_location bl b) = (bo_x b, bo_y b)) ->
  add_random_objects sqrt bl rs properties args directions depth num_objects st
    = (Ok (objects, blender_objects), st') ->
  length objects = num_objects /\ length blender_objects = num_objects /\
  forall i o b a st2,
    objects !! i = Some o -> blender_objects !! i = Some b ->
    heap st2 !! a = Some o ->
    render_object sqrt bl properties a st2
    = (Ok (b, bo_position b, get_camera_coords bl (object_location bl b)), st2) /\
    o_pixel_coords o = Some (get_camera_coords bl (object_location bl b)).
Proof.
  intros Hshapes Hsizes Hmats Hcols Hloc H.
  apply (add_random_objects_records sqrt bl rs properties args directions
           Hshapes Hsizes Hmats Hcols Hloc) in H.
  destruct H as [Hall Hlen]. split; [exact Hlen|].
  split; [rewrite <- (Forall2_length _ _ _ Hall); exact Hlen|].
  intros i o b a st2 Ho Hb Ha.
  destruct (Forall2_lookup_lr _ _ _ _ _ _ Hall Ho Hb) as [Hbo Hpc].
  split; [apply (render_object_run sqrt bl properties a st2 o b Ha Hbo)|exact Hpc].
Qed.

Lemma demo_shapes_keys : NoDup (map fst (p_shapes demo_properties)).
Proof. apply (bool_decide_unpack _). vm_compute. exact I. Qed.

Lemma demo_colors_keys : NoDup (map fst (p_colors demo_properties)).
Proof. apply (bool_decide_unpack _). vm_compute. exact I. Qed.

Lemma scene_renders_back_witness :
  length (fst demo_scene) = 2%nat /\ length (snd demo_scene) = 2%nat /\
  forall i o b a st2,
    fst demo_scene !! i = Some o -> snd demo_scene !! i = Some b ->
    heap st2 !! a = Some o ->
    render_object sqrt_micro demo_blender demo_properties a st2
    = (Ok (b, bo_position b,
           get_camera_coords demo_blender (object_location demo_blender b)), st2) /\
    o_pixel_coords o
    = Some (get_camera_coords demo_blender (object_location demo_blender b)).
Proof.
  apply (scene_renders_back sqrt_micro demo_blender demo_random demo_properties
           demo_args demo_directions 1 2 empty_state demo_scene_state
           (fst demo_scene) (snd demo_scene)
           demo_shapes_keys demo_sizes_keys demo_materials_keys demo_colors_keys).
  - intros b. reflexivity.
  - exact demo_scene_run.
Defined.

(** ** check_visibility on a buffer that is not a whole number of pixels *)

Lemma pixel_tuples_cases (n : nat) :
  forall p, (length p <= n)%nat ->
    match pixel_tuples p with
    | Ok tuples => length p = (4 * length tuples)%nat
    | Raise e => e = IndexError /\ (length p mod 4 <> 0)%nat
    end.
Proof.
  induction n as [|n IH]; intros p Hn.
  - destruct p; [reflexivity|cbn [length] in Hn; lia].
  - destruct p as [|r [|g [|b [|a rest]]]]; cbn [pixel_tuples].
    + reflexivity.
    + split; [reflexivity|discriminate].
    + split; [reflexivity|discriminate].
    + split; [reflexivity|discriminate].
    + specialize (IH rest ltac:(cbn [length] in Hn; lia)).
      destruct (pixel_tuples rest) as [tuples|e]; cbn [rbind].
      * cbn [length]. lia.
      * destruct IH as [-> IH]. split; [reflexivity|].
        change (length (r :: g :: b :: a :: rest)) with (4 + length rest)%nat.
        rewrite <- (Nat.Div0.add_mod_idemp_l 4 (length rest) 4).
        exact IH.
Qed.

(** [check_visibility] answers when the pixel buffer of the shadeless
    image holds a multiple of four numbers; otherwise the tuple
    [(p[i], p[i+1], p[i+2], p[i+3])] of the last index raises
    [IndexError], whatever the image shows before. *)
Theorem check_visibility_ragged (bl : Blender) (blender_objects : list BlenderObj)
    (min_pixels_per_object : Z) :
  match check_visibility bl blender_objects min_pixels_per_object with
  | Ok _ => (length (shadeless_pixels bl blender_objects) mod 4 = 0)%nat
  | Raise e =>
      e = IndexError /\ (length (shadeless_pixels bl blender_objects) mod 4 <> 0)%nat
  end.
Proof.
  unfold check_visibility, check_pixels.
  pose proof (pixel_tuples_cases _ (shadeless_pixels bl blender_objects) (le_n _)) as H.
  destruct (pixel_tuples (shadeless_pixels bl blender_objects)) as [tuples|e];
    cbn [rbind].
  - assert (Hmod : (length (shadeless_pixels bl blender_objects) mod 4 = 0)%nat).
    { rewrite H, Nat.mul_comm. apply Nat.Div0.mod_mul. }
    destruct (negb _); exact Hmod.
  - exact H.
Qed.

(** ** The pixel coordinates of the objects of a variant *)

Lemma kept_sublist {A} (object_idx : Z) (l : list A) :
  forall i, sublist (kept object_idx i l) l.
Proof.
  induction l as [|x l IH]; intros i; cbn [kept]; [constructor|].
  destruct (i =? object_idx)%Z; [apply sublist_cons|apply sublist_skip]; apply IH.
Qed.

Section PixelCoords.

Variable sqrt : Q -> Q.
Variable bl : Blender.
Variable rs : RandomSource.
Variable properties : Properties.
Variable args : Args.
Variable directions : Directions.

Lemma render_object_Ok_full (obj : loc) (st st' : State)
    (b : BlenderObj) (p : Q * Q * Q) (pc : PixelCoords) :
  render_object sqrt bl properties obj st = (Ok (b, p, pc), st') ->
  st' = st /\
  exists o, heap st !! obj = Some o /\ blender_of sqrt properties o = Ok b /\
            pc = get_camera_coords bl (object_location bl b).
Proof.
  unfold render_object. intros H.
  inv_bind_as H o. apply read_Ok in Hrun. destruct Hrun as [Ho ->].
  inv_bind_as H obj_name. apply lift_Ok in Hrun. destruct Hrun as [Hname ->].
  inv_bind_as H rgba. apply lift_Ok in Hrun. destruct Hrun as [Hrgba ->].
  inv_bind_as H r. apply lift_Ok in Hrun. destruct Hrun as [Hr ->].
  inv_bind_as H mat_name. apply lift_Ok in Hrun. destruct Hrun as [Hmat ->].
  destruct (o_3d_coords o) as [[x y] z] eqn:Hc.
  apply ret_Ok in H. destruct H as [H ->]. inversion H; subst b p pc. clear H.
  split; [reflexivity|]. exists o. split; [exact Ho|].
  split; [|reflexivity].
  unfold blender_of. rewrite Hname, Hrgba, Hr, Hmat. cbn [rbind]. rewrite Hc. reflexivity.
Qed.

(** The rendering loop writes to the cells of its list only. *)
Lemma render_objects_frame (new_objects : list loc) :
  forall acc st bos st' a,
    render_objects sqrt bl properties new_objects acc st = (Ok bos, st') ->
    ~ In a new_objects -> heap st' !! a = heap st !! a.
Proof.
  induction new_objects as [|obj rest IH]; intros acc st bos st' a H Hnin;
    cbn [render_objects] in H.
  - apply ret_Ok in H. destruct H as [_ ->]. reflexivity.
  - inv_bind_as H rendered. destruct rendered as [[b p] pc].
    apply render_object_Ok_full in Hrun. destruct Hrun as [-> _].
    inv_bind_as H u. apply write_pixel_coords_Ok in Hrun.
    destruct Hrun as (o' & Ho' & Hh).
    rewrite (IH _ _ _ _ a H) by (intros Hin; apply Hnin; right; exact Hin).
    rewrite Hh. apply list_lookup_insert_ne. intros ->. apply Hnin. left. reflexivity.
Qed.

Lemma render_objects_pixel_coords (new_objects : list loc) :
  forall acc st bos st',
    NoDup new_objects ->
    render_objects sqrt bl properties new_objects acc st = (Ok bos, st') ->
    exists bs, bos = acc ++ bs /\
      Forall2 (fun a b => exists o,
                 heap st' !! a = Some o /\ blender_of sqrt properties o = Ok b /\
                 o_pixel_coords o = Some (get_camera_coords bl (object_location bl b)))
              new_objects bs.
Proof.
  induction new_objects as [|obj rest IH]; intros acc st bos st' Hnd H;
    cbn [render_objects] in H.
  - apply ret_Ok in H. destruct H as [-> _]. exists []. rewrite app_nil_r.
    split; [reflexivity|constructor].
  - apply NoDup_cons in Hnd. destruct Hnd as [Hobj Hnd].
    inv_bind_as H rendered. destruct rendered as [[b p] pc].
    apply render_object_Ok_full in Hrun. destruct Hrun as [-> (o & Ho & Hb & ->)].
    inv_bind_as H u. apply write_pixel_coords_Ok in Hrun.
    destruct Hrun as (o' & Ho' & Hh).
    rewrite Ho in Ho'. inversion Ho'; subst o'. clear Ho'.
    pose proof (render_objects_frame rest _ _ _ _ obj H
                  ltac:(rewrite <- list_elem_of_In; exact Hobj)) as Hframe.
    apply IH in H; [|exact Hnd]. destruct H as (bs & -> & Hall).
    exists (b :: bs). rewrite <- app_assoc. split; [reflexivity|].
    apply List.Forall2_cons; [|exact Hall].
    exists (set_pixel_coords o (Some (get_camera_coords bl (object_location bl b)))).
    split.
    + rewrite Hframe, Hh. apply list_lookup_insert_eq. eapply lookup_lt_Some. exact Ho.
    + split; [|reflexivity].
      rewrite <- Hb. apply blender_of_semantic. reflexivity.
Qed.

(** The references that the chain on the change type returns are to
    cells of their own. *)
Lemma changed_objects_NoDup (fuel : nat) (default_objects : list loc)
    (change_type : string) (st st1 : State) (new_objects : list loc) :
  changed_objects sqrt rs properties args directions fuel default_objects change_type st
    = (Ok (Some new_objects), st1) ->
  NoDup new_objects.
Proof.
  unfold changed_objects. intros H.
  destruct (String.eqb change_type "color").
  { inv_bind_as H object_idx. inv_bind_as H l.
    apply change_color_spec in Hrun0. destruct Hrun0 as (os & _ & _ & -> & _).
    apply ret_Ok in H. destruct H as [H _]. inversion H. apply NoDup_seq. }
  destruct (String.eqb change_type "material").
  { inv_bind_as H object_idx. inv_bind_as H l.
    apply change_material_spec in Hrun0. destruct Hrun0 as (os & _ & _ & -> & _).
    apply ret_Ok in H. destruct H as [H _]. inversion H. apply NoDup_seq. }
  destruct (String.eqb change_type "shape").
  { apply ret_Ok in H. destruct H as [H _]. inversion H. apply NoDup_nil_2. }
  destruct (String.eqb change_type "drop").
  { inv_bind_as H object_idx. inv_bind_as H l.
    apply change_drop_spec in Hrun0. destruct Hrun0 as (os & _ & _ & ->).
    apply ret_Ok in H. destruct H as [H _]. inversion H. cbn [app].
    eapply sublist_NoDup; [apply NoDup_seq|apply kept_sublist]. }
  destruct (String.eqb change_type "add").
  { apply change_add_fields in H.
    destruct H as (os & o_new & _ & -> & Hread & _).
    apply Forall2_length in Hread. apply NoDup_app. split; [apply NoDup_seq|].
    split; [|apply NoDup_singleton].
    intros a Ha Hn. apply list_elem_of_In in Ha, Hn. apply in_seq in Ha.
    destruct Hn as [<-|[]]. rewrite length_app in Ha. lia. }
  destruct (String.eqb change_type "switch").
  { apply ret_Ok in H. destruct H as [H _]. inversion H. apply NoDup_nil_2. }
  destruct (String.eqb change_type "random").
  { apply ret_Ok in H. destruct H as [H _]. inversion H. apply NoDup_nil_2. }
  destruct (String.eqb change_type "same").
  { inv_bind_as H l. apply change_same_spec in Hrun. destruct Hrun as (os & _ & _ & ->).
    apply ret_Ok in H. destruct H as [H _]. inversion H. apply NoDup_seq. }
  apply ret_Ok in H. destruct H as [H _]. inversion H. apply NoDup_nil_2.
Qed.

End PixelCoords.

(** Whatever the change type, a variant that [apply_change] returns
    pairs its objects with its Blender objects, index by index: the
    lists have the same length, the Blender object is the one that
    [render_object] makes of the object, and the ['pixel_coords'] of the
    object are the camera coordinates of the location of its Blender
    object. *)
Theorem apply_change_pixel_coords (sqrt : Q -> Q) (bl : Blender) (rs : RandomSource)
    (properties : Properties) (args : Args) (directions : Directions)
    (fuel : nat) (default_objects : list loc) (change_type : string) (st st' : State)
    (new_objects : list loc) (new_blend_objects : list BlenderObj) :
  apply_change sqrt bl rs properties args directions fuel default_objects change_type st
    = (Ok (Some (new_objects, new_blend_objects)), st') ->
  Forall2 (fun a b => exists o,
             heap st' !! a = Some o /\ blender_of sqrt properties o = Ok b /\
             o_pixel_coords o = Some (get_camera_coords bl (object_location bl b)))
          new_objects new_blend_objects.
Proof.
  unfold apply_change. intros H. inv_bind_as H changed.
  destruct changed as [news|]; [|apply ret_Ok in H; destruct H as [H _]; discriminate].
  apply changed_objects_NoDup in Hrun.
  inv_bind_as H bos.
  apply render_objects_pixel_coords in Hrun0; [|exact Hrun].
  destruct Hrun0 as (bs & -> & Hall). cbn [app] in *.
  inv_bind_as H all_visible. apply lift_Ok in Hrun0. destruct Hrun0 as [_ ->].
  destruct all_visible; apply ret_Ok in H; destruct H as [H ->]; [|discriminate].
  inversion H; subst new_objects new_blend_objects. exact Hall.
Qed.

Lemma apply_change_pixel_coords_witness :
  Forall2 (fun a b => exists o,
             heap (snd (demo_variant "drop")) !! a = Some o /\
             blender_of sqrt_micro demo_properties o = Ok b /\
             o_pixel_coords o
             = Some (get_camera_coords demo_blender (object_location demo_blender b)))
          (demo_variant_objects "drop") (demo_variant_blender "drop").
Proof.
  apply (apply_change_pixel_coords sqrt_micro demo_blender demo_random demo_properties
           demo_args demo_directions 5 demo_base "drop" demo_base_state).
  vm_compute. reflexivity.
Defined.

(** * The caption scripts *)

(** ** merge_captions.py: the merge and its assertion *)

Lemma size_union_disjoint {V} (m1 m2 : gmap string V) :
  size (m1 ∪ m2) = (size m2 + size m1)%nat <-> m1 ##ₘ m2.
Proof.
  rewrite map_disjoint_dom, <- !size_dom, dom_union_L.
  rewrite size_union_alt. split.
  - intros H.
    assert (Hsub : dom m2 ∖ dom m1 ⊆ dom m2) by (apply subseteq_difference_l; reflexivity).
    assert (Heq : dom m2 ∖ dom m1 = dom m2).
    { apply set_subseteq_size_eq; [exact Hsub|lia]. }
    intros x H1 H2. rewrite <- Heq in H2. apply elem_of_difference in H2. tauto.
  - intros H. assert (Heq : dom m2 ∖ dom m1 = dom m2).
    { apply set_eq. intros x. rewrite elem_of_difference. split; [tauto|].
      intros H2. split; [exact H2|]. intros H1. exact (H x H1 H2). }
    rewrite Heq. lia.
Qed.

Lemma AllPairs_cons {A} (R : A -> A -> Prop) (a : A) (l : list A) :
  AllPairs R (a :: l) <-> Forall (fun b => R b a) l /\ AllPairs R l.
Proof.
  unfold AllPairs. split.
  - intros H. split.
    + apply Forall_lookup_2. intros j b Hb. apply (H 0%nat (S j) a b); [lia|reflexivity|exact Hb].
    + intros i j x y Hij Hx Hy. apply (H (S i) (S j) x y); [lia|exact Hx|exact Hy].
  - intros [Hall H] i j x y Hij Hx Hy. destruct j as [|j]; [lia|]. cbn in Hy.
    destruct i as [|i].
    + cbn in Hx. inversion Hx; subst x.
      exact (proj1 (Forall_lookup _ _) Hall j y Hy).
    + cbn in Hx. apply (H i j x y); [lia|exact Hx|exact Hy].
Qed.

Lemma merge_loop_spec {V} (files : list (gmap string V)) :
  forall (img_to_caps : gmap string V) (count : nat),
    count = size img_to_caps ->
    match merge_captions.loop files img_to_caps count with
    | Ok m =>
        (disjoint_files files /\ Forall (fun f => f ##ₘ img_to_caps) files) /\
        forall k v, m !! k = Some v <->
                    img_to_caps !! k = Some v \/ exists f, In f files /\ f !! k = Some v
    | Raise e =>
        e = AssertionError /\
        ~ (disjoint_files files /\ Forall (fun f => f ##ₘ img_to_caps) files)
    end.
Proof.
  induction files as [|caps rest IH]; intros acc count Hcount; cbn [merge_captions.loop].
  - split.
    + split; [intros i j a b _ Hi; discriminate|apply Forall_nil_2].
    + intros k v. split; [auto|]. intros [H|(f & [] & _)]. exact H.
  - destruct (Nat.eqb_spec (count + size caps) (size (caps ∪ acc))) as [E|N].
    + assert (Hdisj : caps ##ₘ acc) by (apply size_union_disjoint; lia).
      specialize (IH (caps ∪ acc) (count + size caps)%nat E).
      destruct (merge_captions.loop rest (caps ∪ acc) (count + size caps)) as [m|e].
      * destruct IH as [[Hrest Hall] Hm]. split.
        -- split.
           ++ apply AllPairs_cons. split; [|exact Hrest].
              eapply Forall_impl; [exact Hall|]. intros f Hf.
              apply map_disjoint_union_r in Hf. tauto.
           ++ apply Forall_cons_2; [exact Hdisj|].
              eapply Forall_impl; [exact Hall|]. intros f Hf.
              apply map_disjoint_union_r in Hf. tauto.
        -- intros k v. rewrite Hm, lookup_union_Some by exact Hdisj. cbn [In]. split.
           ++ intros [[H|H]|(f & Hin & Hf)]; eauto 6.
           ++ intros [H|(f & [<-|Hin] & Hf)]; eauto 6.
      * destruct IH as [-> IH]. split; [reflexivity|].
        intros [Hpairs Hall]. apply IH.
        apply AllPairs_cons in Hpairs. destruct Hpairs as [Hcaps Hrest].
        apply Forall_cons in Hall. destruct Hall as [_ Hall].
        split; [exact Hrest|].
        apply Forall_forall. intros f Hf. apply map_disjoint_union_r. split.
        -- exact (proj1 (Forall_forall _ _) Hcaps f Hf).
        -- exact (proj1 (Forall_forall _ _) Hall f Hf).
    + split; [reflexivity|]. intros [_ Hall].
      apply Forall_cons in Hall. destruct Hall as [Hdisj _].
      apply N. apply size_union_disjoint in Hdisj. lia.
Qed.

(** [merge_captions.main] writes a result exactly when no key occurs in
    two of the input files; the result then holds the entries of the
    files and nothing else.  When a key occurs in two files the
    assertion on [count] fails, and this is the only way it fails. *)
Theorem merge_captions_spec {V} (files : list (gmap string V)) :
  match merge_captions.main files with
  | Ok img_to_caps =>
      disjoint_files files /\
      forall k v, img_to_caps !! k = Some v <-> exists f, In f files /\ f !! k = Some v
  | Raise e => e = AssertionError /\ ~ disjoint_files files
  end.
Proof.
  unfold merge_captions.main.
  pose proof (merge_loop_spec files ∅ 0 ltac:(rewrite map_size_empty; reflexivity)) as H.
  assert (Hempty : Forall (fun f : gmap string V => f ##ₘ ∅) files).
  { apply Forall_forall. intros f _. apply map_disjoint_empty_r. }
  destruct (merge_captions.loop files ∅ 0) as [m|e].
  - destruct H as [[Hd _] Hm]. split; [exact Hd|].
    intros k v. rewrite Hm, lookup_empty. split.
    + intros [H|H]; [discriminate|exact H].
    + intros H. right. exact H.
  - destruct H as [-> H]. split; [reflexivity|]. intros Hd. apply H. split; assumption.
Qed.

(** ** collect_captions.py: the grouping and the assertion on the split *)

Section CollectCaptions.

Import collect_captions.

Lemma files_loop_concat (files : list (list Caption)) :
  forall split img_to_caps,
    files_loop files split img_to_caps = caps_loop (concat files) split img_to_caps.
Proof.
  assert (Happ : forall l1 l2 split img,
             caps_loop (l1 ++ l2) split img
             = rbind (caps_loop l1 split img)
                 (fun '(split, img) => caps_loop l2 split img)).
  { induction l1 as [|c l1 IH]; intros l2 split img; [reflexivity|].
    cbn [app caps_loop].
    destruct (match split with
              | Some s => if bool_decide (c_split c = Some s) then Ok split
                          else Raise AssertionError
              | None => Ok (c_split c)
              end) as [split'|e]; [|reflexivity].
    cbn [rbind]. apply IH. }
  induction files as [|caps rest IH]; intros split img; [reflexivity|].
  cbn [files_loop concat]. rewrite Happ.
  destruct (caps_loop caps split img) as [[split' img']|e]; [|reflexivity].
  cbn [rbind]. apply IH.
Qed.

Lemma same_split_cons (c : Caption) (caps : list Caption) :
  same_split (c :: caps) <->
  match c_split c with
  | Some s => Forall (fun c' => c_split c' = Some s) caps
  | None => same_split caps
  end.
Proof.
  unfold same_split. split.
  - intros H. destruct (c_split c) as [s|] eqn:E.
    + apply Forall_lookup_2. intros j cj Hj.
      apply (H 0%nat (S j) c cj s); [lia|reflexivity|exact Hj|exact E].
    + intros i j ci cj s Hij Hi Hj. apply (H (S i) (S j) ci cj s); [lia|exact Hi|exact Hj].
  - intros H i j ci cj s Hij Hi Hj Hs. destruct j as [|j]; [lia|]. cbn in Hj.
    destruct i as [|i]; cbn in Hi.
    + inversion Hi; subst ci. rewrite Hs in H.
      exact (proj1 (Forall_lookup _ _) H j cj Hj).
    + destruct (c_split c) as [s'|].
      * pose proof (proj1 (Forall_lookup _ _) H i ci Hi) as Hci. cbn in Hci.
        rewrite Hci in Hs. inversion Hs; subst s'.
        exact (proj1 (Forall_lookup _ _) H j cj Hj).
      * apply (H i j ci cj s); [lia|exact Hi|exact Hj|exact Hs].
Qed.

Lemma same_split_all (s : string) (caps : list Caption) :
  Forall (fun c => c_split c = Some s) caps -> same_split caps.
Proof.
  intros H i j ci cj s' _ Hi Hj Hs.
  pose proof (proj1 (Forall_lookup _ _) H i ci Hi) as Hci. cbn in Hci.
  pose proof (proj1 (Forall_lookup _ _) H j cj Hj) as Hcj. cbn in Hcj. congruence.
Qed.

(** The split that the loop holds when it is done with [caps]. *)
Lemma caps_loop_spec (caps : list Caption) :
  forall split img_to_caps,
    let good := match split with
                | Some s => Forall (fun c => c_split c = Some s) caps
                | None => same_split caps
                end in
    match caps_loop caps split img_to_caps with
    | Ok (_, m) =>
        good /\
        forall f, default [] (m !! f) = default [] (img_to_caps !! f) ++ texts_of f caps /\
                  (m !! f = None <-> img_to_caps !! f = None /\ texts_of f caps = [])
    | Raise e => e = AssertionError /\ ~ good
    end.
Proof.
  induction caps as [|c rest IH]; intros split img good; subst good; cbn [caps_loop].
  - split.
    + destruct split; [apply Forall_nil_2|]. intros i j ci cj s _ Hi. discriminate.
    + intros f. unfold texts_of. cbn. rewrite app_nil_r. split; [reflexivity|tauto].
  - assert (Hstep : forall split',
      match caps_loop rest split'
              (<[c_image_filename c
                 := default [] (img !! c_image_filename c) ++ [c_question c]]> img) with
      | Ok (_, m) =>
          match split' with
          | Some s => Forall (fun c => c_split c = Some s) rest
          | None => same_split rest
          end /\
          forall f, default [] (m !! f) = default [] (img !! f) ++ texts_of f (c :: rest) /\
                    (m !! f = None <-> img !! f = None /\ texts_of f (c :: rest) = [])
      | Raise e =>
          e = AssertionError /\
          ~ match split' with
            | Some s => Forall (fun c => c_split c = Some s) rest
            | None => same_split rest
            end
      end).
    { intros split'. specialize (IH split'
        (<[c_image_filename c
           := default [] (img !! c_image_filename c) ++ [c_question c]]> img)).
      cbv zeta in IH.
      destruct (caps_loop rest split' _) as [[split'' m]|e]; [|exact IH].
      destruct IH as [Hgood Hm]. split; [exact Hgood|].
      intros f. destruct (Hm f) as [Hf Hnone]. unfold texts_of in *. cbn [List.filter].
      destruct (String.eqb_spec (c_image_filename c) f) as [E|Hne].
      - rewrite E in Hf, Hnone.
        rewrite lookup_insert_eq in Hf, Hnone. cbn [default map id] in *.
        rewrite Hf, <- app_assoc. split; [reflexivity|].
        split; [intros H; apply Hnone in H; destruct H; discriminate|].
        intros [_ H]. discriminate.
      - rewrite lookup_insert_ne in Hf, Hnone by exact Hne.
        split; [exact Hf|exact Hnone]. }
    destruct split as [s|].
    + destruct (bool_decide_reflect (c_split c = Some s)) as [E|N]; cbn [rbind].
      * specialize (Hstep (Some s)).
        destruct (caps_loop rest (Some s) _) as [[split'' m]|e].
        -- destruct Hstep as [Hgood Hm]. split; [|exact Hm].
           apply Forall_cons_2; assumption.
        -- destruct Hstep as [-> Hbad]. split; [reflexivity|].
           intros H. apply Forall_cons in H. tauto.
      * split; [reflexivity|]. intros H. apply Forall_cons in H. tauto.
    + cbn [rbind]. specialize (Hstep (c_split c)).
      destruct (caps_loop rest (c_split c) _) as [[split'' m]|e];
        rewrite same_split_cons; exact Hstep.
Qed.

(** [collect_captions.main] writes a result exactly when, from the
    first caption with a split on, all captions of all files have that
    split; captions that come before and have [null] as split are not
    checked.  The result maps each image that has a caption to the texts
    of its captions, in the order of the files and of the captions in
    them, and has no other key.  Otherwise the assertion fails. *)
Theorem collect_captions_spec (files : list (list Caption)) :
  match collect_captions.main files with
  | Ok img_to_caps =>
      same_split (concat files) /\
      forall f, default [] (img_to_caps !! f) = texts_of f (concat files) /\
                (img_to_caps !! f = None <-> texts_of f (concat files) = [])
  | Raise e => e = AssertionError /\ ~ same_split (concat files)
  end.
Proof.
  unfold collect_captions.main. rewrite files_loop_concat.
  pose proof (caps_loop_spec (concat files) None ∅) as H. cbv zeta in H.
  destruct (caps_loop (concat files) None ∅) as [[split m]|e]; cbn [rbind].
  - destruct H as [Hgood Hm]. split; [exact Hgood|].
    intros f. destruct (Hm f) as [Hf Hnone]. rewrite lookup_empty in Hf, Hnone.
    split; [exact Hf|]. rewrite Hnone. tauto.
  - exact H.
Qed.

End CollectCaptions.

(** ** generate_split.py: the sizes of the three splits *)

Lemma floor_nine_tenths (n : Z) :
  let a := Qfloor (inject_Z n * (9 / 10)) in
  (10 * a <= 9 * n < 10 * a + 10)%Z.
Proof.
  cbv zeta. change (Qfloor (inject_Z n * (9 / 10))) with ((n * 9) / 10)%Z.
  pose proof (Z.div_mod (n * 9) 10 ltac:(lia)) as H.
  pose proof (Z.mod_pos_bound (n * 9) 10 ltac:(lia)) as Hm. lia.
Qed.

Lemma floor_twentieth (n : Z) :
  let b := Qfloor (inject_Z n * (5 / 100)) in
  (20 * b <= n < 20 * b + 20)%Z.
Proof.
  cbv zeta. change (Qfloor (inject_Z n * (5 / 100))) with ((n * 5) / 100)%Z.
  pose proof (Z.div_mod (n * 5) 100 ltac:(lia)) as H.
  pose proof (Z.mod_pos_bound (n * 5) 100 ltac:(lia)) as Hm. lia.
Qed.

Lemma indices_of_Ok (index_of : string -> result Z) (l : list string) (indices : list Z) :
  Forall2 (fun img i => index_of img = Ok i) l indices ->
  generate_split.indices_of index_of l = Ok indices.
Proof.
  induction 1 as [|img i l indices Hi _ IH]; cbn [generate_split.indices_of];
    [reflexivity|].
  rewrite Hi, IH. reflexivity.
Qed.

Lemma common_zero (a b : list Z) :
  (forall x, x ∈ a -> x ∉ b) -> generate_split.common a b = 0%Z.
Proof.
  intros H. unfold generate_split.common.
  assert (E : (list_to_set a : gset Z) ∩ list_to_set b = ∅).
  { apply set_eq. intros x. rewrite elem_of_intersection, !elem_of_list_to_set.
    split; [intros [Ha Hb]; exfalso; exact (H x Ha Hb)|intros Hx; inversion Hx]. }
  rewrite E, size_empty. reflexivity.
Qed.

Lemma imgs_length {V} (captions : gmap string V) :
  length (generate_split.imgs captions) = size captions.
Proof.
  unfold generate_split.imgs. rewrite merge_sort_Permutation.
  rewrite <- size_dom. reflexivity.
Qed.

(** When every image name has a number and no two names have the same,
    the script writes three lists that are, one after the other, the
    shuffled list of the numbers: each image is in exactly one split.
    The first holds [floor(0.9 n)] numbers and the second
    [floor(0.05 n)] of the [n] images, the third the rest. *)
Theorem generate_split_spec {V} (index_of : string -> result Z)
    (shuffle : list Z -> list Z) (captions : gmap string V) (indices : list Z) :
  (forall l, shuffle l ≡ₚ l) ->
  Forall2 (fun img i => index_of img = Ok i) (generate_split.imgs captions) indices ->
  NoDup indices ->
  exists train_idx val_idx test_idx,
    generate_split.script index_of shuffle captions = Ok (train_idx, val_idx, test_idx) /\
    train_idx ++ val_idx ++ test_idx = shuffle indices /\
    NoDup (train_idx ++ val_idx ++ test_idx) /\
    let n := Z.of_nat (size captions) in
    let a := Z.of_nat (length train_idx) in
    let b := Z.of_nat (length val_idx) in
    (10 * a <= 9 * n < 10 * a + 10)%Z /\
    (20 * b <= n < 20 * b + 20)%Z /\
    (a + b + Z.of_nat (length test_idx) = n)%Z.
Proof.
  intros Hperm Hparse Hnd. unfold generate_split.script.
  rewrite (indices_of_Ok _ _ _ Hparse). cbn [rbind].
  set (n := Z.of_nat (size captions)).
  pose proof (floor_nine_tenths n) as Ha. pose proof (floor_twentieth n) as Hb.
  cbv zeta in Ha, Hb.
  set (train_len := Qfloor (inject_Z n * (9 / 10))) in *.
  set (val_len := Qfloor (inject_Z n * (5 / 100))) in *.
  assert (Hn : (0 <= n)%Z) by (subst n; lia).
  assert (Hlen : Z.of_nat (length (shuffle indices)) = n).
  { rewrite (Hperm indices), <- (Forall2_length _ _ _ Hparse), imgs_length. reflexivity. }
  assert (Hnd' : NoDup (shuffle indices)) by (rewrite (Hperm indices); exact Hnd).
  set (l := shuffle indices) in *.
  assert (Hsplit : generate_split.slice 0 train_len l
                   ++ generate_split.slice train_len (train_len + val_len) l
                   ++ drop (Z.to_nat (train_len + val_len)) l = l).
  { unfold generate_split.slice. cbn [Z.to_nat drop].
    replace (Z.to_nat (train_len + val_len))
      with (Z.to_nat train_len + Z.to_nat val_len)%nat by lia.
    transitivity (take (Z.to_nat train_len) l
                  ++ take (Z.to_nat val_len) (drop (Z.to_nat train_len) l)
                  ++ drop (Z.to_nat val_len) (drop (Z.to_nat train_len) l)).
    - f_equal. f_equal; [symmetry; apply take_drop_commute|].
      rewrite drop_drop. reflexivity.
    - rewrite take_drop. apply take_drop. }
  assert (Hl1 : Z.of_nat (length (generate_split.slice 0 train_len l)) = train_len).
  { unfold generate_split.slice. rewrite length_drop, length_take. lia. }
  assert (Hl2 : Z.of_nat (length (generate_split.slice train_len (train_len + val_len) l))
                = val_len).
  { unfold generate_split.slice. rewrite length_drop, length_take. lia. }
  assert (Hl3 : Z.of_nat (length (drop (Z.to_nat (train_len + val_len)) l))
                = (n - (train_len + val_len))%Z).
  { rewrite length_drop. lia. }
  pose proof Hnd' as Hparts. rewrite <- Hsplit in Hparts.
  apply NoDup_app in Hparts. destruct Hparts as (_ & H12 & Hparts).
  apply NoDup_app in Hparts. destruct Hparts as (_ & H23 & _).
  replace (train_len + val_len + (n - (train_len + val_len)) =? n)%Z with true
    by (symmetry; apply Z.eqb_eq; lia).
  cbn [generate_split.assert rbind].
  rewrite common_zero
    by (intros x Hx Hv; apply (H12 x Hx); apply elem_of_app; left; exact Hv).
  cbn [Z.eqb generate_split.assert rbind].
  rewrite common_zero
    by (intros x Hx Hv; apply (H12 x Hx); apply elem_of_app; right; exact Hv).
  cbn [Z.eqb generate_split.assert rbind].
  rewrite common_zero by (intros x Hx Hv; exact (H23 x Hv Hx)).
  cbn [Z.eqb generate_split.assert rbind].
  rewrite Hl1, Hl2, Hl3, !Z.eqb_refl. cbn [generate_split.assert rbind].
  eexists _, _, _. split; [reflexivity|]. split; [exact Hsplit|].
  split; [rewrite Hsplit; exact Hnd'|].
  cbv zeta. rewrite Hl1, Hl2, Hl3. split; [exact Ha|]. split; [exact Hb|lia].
Qed.

Lemma generate_split_spec_witness :
  exists train_idx val_idx test_idx,
    generate_split.script demo_index_of (@rev Z) demo_captions
    = Ok (train_idx, val_idx, test_idx) /\
    train_idx ++ val_idx ++ test_idx = rev [0; 1; 2]%Z /\
    NoDup (train_idx ++ val_idx ++ test_idx) /\
    let n := Z.of_nat (size demo_captions) in
    let a := Z.of_nat (length train_idx) in
    let b := Z.of_nat (length val_idx) in
    (10 * a <= 9 * n < 10 * a + 10)%Z /\
    (20 * b <= n < 20 * b + 20)%Z /\
    (a + b + Z.of_nat (length test_idx) = n)%Z.
Proof.
  apply (generate_split_spec demo_index_of (@rev Z) demo_captions [0; 1; 2]%Z).
  - intros l. symmetry. apply Permutation_rev.
  - vm_compute. repeat constructor.
  - apply (bool_decide_unpack _). vm_compute. exact I.
Defined.

Lemma common_zero_iff (a b : list Z) :
  generate_split.common a b = 0%Z <-> forall x, x ∈ a -> x ∉ b.
Proof.
  split; [|apply common_zero].
  unfold generate_split.common. intros H x Ha Hb.
  assert (Hs : size ((list_to_set a : gset Z) ∩ list_to_set b) = 0%nat) by lia.
  apply size_empty_iff in Hs.
  apply (proj1 (elem_of_equiv_empty _) Hs x).
  apply elem_of_intersection. rewrite !elem_of_list_to_set. split; assumption.
Qed.

Lemma train_len_nat (n : nat) :
  Z.to_nat (Qfloor (inject_Z (Z.of_nat n) * (9 / 10))) = (9 * n / 10)%nat.
Proof.
  change (Qfloor (inject_Z (Z.of_nat n) * (9 / 10))) with ((Z.of_nat n * 9) / 10)%Z.
  apply Nat2Z.inj. rewrite Z2Nat.id by (apply Z.div_pos; lia).
  rewrite Nat2Z.inj_div, Nat2Z.inj_mul. f_equal. lia.
Qed.

Lemma val_len_nat (n : nat) :
  Z.to_nat (Qfloor (inject_Z (Z.of_nat n) * (5 / 100))) = (n / 20)%nat.
Proof.
  change (Qfloor (inject_Z (Z.of_nat n) * (5 / 100))) with ((Z.of_nat n * 5) / 100)%Z.
  apply Nat2Z.inj. rewrite Z2Nat.id by (apply Z.div_pos; lia).
  rewrite Nat2Z.inj_div. change 100%Z with (20 * 5)%Z.
  rewrite Z.div_mul_cancel_r by lia. reflexivity.
Qed.

(** The asserts of the script compare the splits as sets.  When every
    image name has a number, the script writes its three slices of the
    shuffled list exactly when no number is in two of them, and fails
    on an assertion otherwise; a number that occurs twice in one slice
    goes unnoticed. *)
Theorem generate_split_shared {V} (index_of : string -> result Z)
    (shuffle : list Z -> list Z) (captions : gmap string V) (indices : list Z) :
  (forall l, shuffle l ≡ₚ l) ->
  Forall2 (fun img i => index_of img = Ok i) (generate_split.imgs captions) indices ->
  let n := size captions in
  let train_idx := train_of n (shuffle indices) in
  let val_idx := val_of n (shuffle indices) in
  let test_idx := test_of n (shuffle indices) in
  let shared x := (x ∈ train_idx /\ x ∈ val_idx) \/ (x ∈ train_idx /\ x ∈ test_idx) \/
                  (x ∈ test_idx /\ x ∈ val_idx) in
  match generate_split.script index_of shuffle captions with
  | Ok r => r = (train_idx, val_idx, test_idx) /\ forall x, ~ shared x
  | Raise e => e = AssertionError /\ exists x, shared x
  end.
Proof.
  intros Hperm Hparse n train_idx val_idx test_idx shared.
  unfold generate_split.script.
  rewrite (indices_of_Ok _ _ _ Hparse). cbn [rbind]. fold n.
  pose proof (floor_nine_tenths (Z.of_nat n)) as Ha.
  pose proof (floor_twentieth (Z.of_nat n)) as Hb.
  pose proof (train_len_nat n) as Ea. pose proof (val_len_nat n) as Eb.
  cbv zeta in Ha, Hb.
  set (train_len := Qfloor (inject_Z (Z.of_nat n) * (9 / 10))) in *.
  set (val_len := Qfloor (inject_Z (Z.of_nat n) * (5 / 100))) in *.
  assert (Hlen : length (shuffle indices) = n).
  { rewrite (Hperm indices), <- (Forall2_length _ _ _ Hparse), imgs_length. reflexivity. }
  set (l := shuffle indices) in *.
  assert (E1 : generate_split.slice 0 train_len l = train_idx).
  { unfold generate_split.slice, train_idx, train_of. rewrite Ea. reflexivity. }
  assert (E2 : generate_split.slice train_len (train_len + val_len) l = val_idx).
  { unfold generate_split.slice, val_idx, val_of.
    replace (Z.to_nat (train_len + val_len))
      with (Z.to_nat train_len + Z.to_nat val_len)%nat by lia.
    rewrite <- take_drop_commute, Ea, Eb. reflexivity. }
  assert (E3 : drop (Z.to_nat (train_len + val_len)) l = test_idx).
  { unfold test_idx, test_of. f_equal. lia. }
  rewrite E1, E2, E3.
  replace (train_len + val_len + (Z.of_nat n - (train_len + val_len)) =? Z.of_nat n)%Z
    with true by (symmetry; apply Z.eqb_eq; lia).
  cbn [generate_split.assert rbind].
  assert (Hnot : forall a b : list Z,
             generate_split.common a b <> 0%Z -> exists x, x ∈ a /\ x ∈ b).
  { intros a b Hc. unfold generate_split.common in Hc.
    assert (Hne : (list_to_set a : gset Z) ∩ list_to_set b <> ∅).
    { intros E. apply Hc. rewrite E, size_empty. reflexivity. }
    apply set_choose_L in Hne. destruct Hne as [x Hx].
    apply elem_of_intersection in Hx. rewrite !elem_of_list_to_set in Hx.
    exists x. exact Hx. }
  destruct (Z.eqb_spec (generate_split.common train_idx val_idx) 0) as [C1|C1];
    cbn [generate_split.assert rbind].
  2: { split; [reflexivity|]. destruct (Hnot _ _ C1) as [x Hx].
       exists x. left. exact Hx. }
  destruct (Z.eqb_spec (generate_split.common train_idx test_idx) 0) as [C2|C2];
    cbn [generate_split.assert rbind].
  2: { split; [reflexivity|]. destruct (Hnot _ _ C2) as [x Hx].
       exists x. right. left. exact Hx. }
  destruct (Z.eqb_spec (generate_split.common test_idx val_idx) 0) as [C3|C3];
    cbn [generate_split.assert rbind].
  2: { split; [reflexivity|]. destruct (Hnot _ _ C3) as [x Hx].
       exists x. right. right. exact Hx. }
  assert (L1 : Z.of_nat (length train_idx) = train_len).
  { unfold train_idx, train_of. rewrite length_take. lia. }
  assert (L2 : Z.of_nat (length val_idx) = val_len).
  { unfold val_idx, val_of. rewrite length_take, length_drop. lia. }
  assert (L3 : Z.of_nat (length test_idx) = (Z.of_nat n - (train_len + val_len))%Z).
  { unfold test_idx, test_of. rewrite length_drop. lia. }
  rewrite L1, L2, L3, !Z.eqb_refl. cbn [generate_split.assert rbind].
  split; [reflexivity|].
  intros x [[H1 H2]|[[H1 H2]|[H1 H2]]].
  - exact (proj1 (common_zero_iff _ _) C1 x H1 H2).
  - exact (proj1 (common_zero_iff _ _) C2 x H1 H2).
  - exact (proj1 (common_zero_iff _ _) C3 x H1 H2).
Qed.

Lemma generate_split_shared_witness :
  generate_split.script twin_index_of (@rev Z) twin_captions = Raise AssertionError /\
  0%Z ∈ train_of 2 (rev [0; 0]%Z) /\ 0%Z ∈ test_of 2 (rev [0; 0]%Z).
Proof.
  pose proof (generate_split_shared twin_index_of (@rev Z) twin_captions [0; 0]%Z
                ltac:(intros l; symmetry; apply Permutation_rev)
                ltac:(vm_compute; repeat constructor)) as H.
  cbv zeta in H.
  destruct (generate_split.script twin_index_of (@rev Z) twin_captions) as [r|e] eqn:E.
  - vm_compute in E. discriminate E.
  - destruct H as [-> _]. split; [reflexivity|].
    split; apply list_elem_of_In; vm_compute; left; reflexivity.
Defined.

(** * The two render functions *)

(** ** The jitters of the camera and of the lamps *)

Section Jitters.

Variable sqrt : Q -> Q.
Variable host : Host.
Variable rs : RandomSource.
Variable properties : Properties.
Variable args : Args.
Variable jargs : JitterArgs.

Lemma jitter_new_run (L : Q) (location : vec3) (st : State) :
  jitter_new rs L (seq 0 3) [] location st
  = (Ok ([next_rand rs L st 0; next_rand rs L st 1; next_rand rs L st 2],
         (vx location + next_rand rs L st 0, vy location + next_rand rs L st 1,
          vz location + next_rand rs L st 2)),
     drew_random 3 st).
Proof.
  unfold next_rand. rewrite Nat.add_0_r.
  replace (n_random st + 1)%nat with (S (n_random st)) by lia.
  replace (n_random st + 2)%nat with (S (S (n_random st))) by lia.
  reflexivity.
Qed.

Lemma jitter_again_run (L : Q) (d0 d1 d2 : Q) (location : vec3) (st : State) :
  jitter_again rs L (seq 0 3) [d0; d1; d2] location st
  = (Ok (vx location + (d0 + next_rand rs L st 0),
         vy location + (d1 + next_rand rs L st 1),
         vz location + (d2 + next_rand rs L st 2)),
     drew_random 3 st).
Proof.
  unfold next_rand. rewrite Nat.add_0_r.
  replace (n_random st + 1)%nat with (S (n_random st)) by lia.
  replace (n_random st + 2)%nat with (S (S (n_random st))) by lia.
  reflexivity.
Qed.

Lemma jitter_if_Ok (L : Q) (location location' : vec3) (jitters : list Q)
    (st st' : State) :
  jitter_if rs L location st = (Ok (jitters, location'), st') ->
  jittered L jitters location location'.
Proof.
  unfold jitter_if, jittered. destruct (Qltb 0 L).
  - rewrite jitter_new_run. intros H. inversion H. left. split; [reflexivity|].
    eexists _, _, _. split; reflexivity.
  - intros H. apply ret_Ok in H. destruct H as [H _]. inversion H. right. auto.
Qed.

Lemma jitter_same_three (j0 j1 j2 : Q) (location : vec3) :
  jitter_same (seq 0 3) [j0; j1; j2] location
  = Ok (vx location + j0, vy location + j1, vz location + j2).
Proof. reflexivity. Qed.

Lemma jitter_same_none (location : vec3) :
  jitter_same (seq 0 3) [] location = Raise IndexError.
Proof. reflexivity. Qed.

(** What a default scene leaves: the jitters in the configuration and
    the stage. *)
Lemma render_default_scene_Ok (depth num_objects : nat) (output_index : Z)
    (output_split output_image : string) (st st' : State)
    (config : Config) (scene_struct : SceneStruct) (stage : Stage) :
  render_default_scene sqrt host rs properties args jargs depth num_objects
    output_index output_split output_image st
    = (Ok (config, scene_struct, stage), st') ->
  jittered (a_camera_jitter jargs) (cfg_camera_jitters config)
    (camera (base_stage host)) (camera stage) /\
  jittered (a_key_light_jitter jargs) (cfg_key_light_jitters config)
    (lamp_key (base_stage host)) (lamp_key stage) /\
  jittered (a_back_light_jitter jargs) (cfg_back_light_jitters config)
    (lamp_back (base_stage host)) (lamp_back stage) /\
  jittered (a_fill_light_jitter jargs) (cfg_fill_light_jitters config)
    (lamp_fill (base_stage host)) (lamp_fill stage).
Proof.
  unfold render_default_scene. intros H.
  inv_bind_as H cam. destruct cam as [camera_jitters cam]. apply jitter_if_Ok in Hrun.
  inv_bind_as H key. destruct key as [key_light_jitters key]. apply jitter_if_Ok in Hrun0.
  inv_bind_as H back. destruct back as [back_light_jitters back]. apply jitter_if_Ok in Hrun1.
  inv_bind_as H fill. destruct fill as [fill_light_jitters fill]. apply jitter_if_Ok in Hrun2.
  inv_bind_as H placed. destruct placed as [objects blender_objects].
  inv_bind_as H refs.
  apply ret_Ok in H. destruct H as [H _]. inversion H; subst config scene_struct stage.
  cbn [cfg_camera_jitters cfg_key_light_jitters cfg_back_light_jitters
       cfg_fill_light_jitters camera lamp_key lamp_back lamp_fill] in *.
  repeat split; assumption.
Qed.

Lemma camera_again (default_config : Config) (location : vec3) (st : State) :
  jittered (a_camera_jitter jargs) (cfg_camera_jitters default_config)
    (camera (base_stage host)) location ->
  exists location',
    (if Qltb 0 (a_camera_jitter jargs)
     then jitter_again rs (a_camera_jitter jargs) (seq 0 3)
            (cfg_camera_jitters default_config) (camera (base_stage host))
     else ret (camera (base_stage host))) st
    = (Ok location',
       if Qltb 0 (a_camera_jitter jargs) then drew_random 3 st else st) /\
    (if Qltb 0 (a_camera_jitter jargs)
     then vx location' == vx location + next_rand rs (a_camera_jitter jargs) st 0 /\
          vy location' == vy location + next_rand rs (a_camera_jitter jargs) st 1 /\
          vz location' == vz location + next_rand rs (a_camera_jitter jargs) st 2
     else location' = location).
Proof.
  intros [[Hpos (j0 & j1 & j2 & Hj & ->)]|[Hneg [_ ->]]].
  - rewrite Hpos, Hj, jitter_again_run. eexists. split; [reflexivity|].
    cbn [vx vy vz fst snd]. repeat split; ring.
  - rewrite Hneg. eexists. split; reflexivity.
Qed.

End Jitters.

(** [render_semantic_change] adds the lamp jitters of the default
    scene whether or not there are any: when one of
    [--key_light_jitter], [--back_light_jitter] and
    [--fill_light_jitter] is not positive, the configuration of the
    default scene holds an empty list for it and every call on that
    configuration raises [IndexError], before any object is copied. *)
Theorem render_semantic_change_still_lamp (sqrt : Q -> Q) (host : Host)
    (rs : RandomSource) (properties : Properties) (args : Args) (jargs : JitterArgs)
    (depth num_objects : nat) (output_index : Z) (output_split output_image : string)
    (st st1 : State) (config : Config) (scene_struct : SceneStruct) (stage : Stage) :
  render_default_scene sqrt host rs properties args jargs depth num_objects
    output_index output_split output_image st
    = (Ok (config, scene_struct, stage), st1) ->
  ~ 0 < a_key_light_jitter jargs \/ ~ 0 < a_back_light_jitter jargs \/
  ~ 0 < a_fill_light_jitter jargs ->
  forall fuel index split image change_type st2,
  exists st3,
    render_semantic_change sqrt host rs properties args jargs fuel config
      index split image change_type st2 = (Raise IndexError, st3) /\
    heap st3 = heap st2.
Proof.
  intros Hdefault Hstill fuel index split image change_type st2.
  apply render_default_scene_Ok in Hdefault.
  destruct Hdefault as (Hcam & Hkey & Hback & Hfill).
  unfold render_semantic_change.
  destruct (camera_again host rs jargs config _ st2 Hcam) as (cam & Hrun & _).
  rewrite (bind_run _ _ _ _ _ Hrun).
  set (st' := if Qltb 0 (a_camera_jitter jargs) then drew_random 3 st2 else st2).
  assert (Hheap : heap st' = heap st2) by (subst st'; destruct (Qltb 0 _); reflexivity).
  cbn [camera lamp_key lamp_back lamp_fill].
  assert (Hnone : forall L js location location',
             jittered L js location location' -> ~ 0 < L -> js = []).
  { intros L js location location' [[Hpos _]|[_ [-> _]]] Hn; [|reflexivity].
    apply Qltb_true in Hpos. contradiction. }
  assert (Hsome : forall L js location location',
             jittered L js location location' ->
             js = [] \/ exists l, jitter_same (seq 0 3) js location = Ok l).
  { intros L js location location' [[_ (j0 & j1 & j2 & -> & _)]|[_ [-> _]]];
      [right; eexists; apply jitter_same_three|left; reflexivity]. }
  exists st'. split; [|exact Hheap].
  destruct (Hsome _ _ _ _ Hkey) as [->|[key Ek]]; [reflexivity|].
  unfold bind at 1. unfold lift at 1. rewrite Ek.
  destruct (Hsome _ _ _ _ Hback) as [->|[back Eb]]; [reflexivity|].
  unfold bind at 1. unfold lift at 1. rewrite Eb.
  destruct (Hsome _ _ _ _ Hfill) as [->|[fill Ef]]; [reflexivity|].
  exfalso. destruct Hstill as [Hn|[Hn|Hn]].
  - rewrite (Hnone _ _ _ _ Hkey Hn) in Ek. discriminate.
  - rewrite (Hnone _ _ _ _ Hback Hn) in Eb. discriminate.
  - rewrite (Hnone _ _ _ _ Hfill Hn) in Ef. discriminate.
Qed.

Lemma still_default_run :
  exists scene_struct,
    render_default_scene sqrt_micro demo_host demo_random demo_properties demo_args
      still_key_jitters 1 2 0 "default" "output/images/CLEVR_default_000000.png"
      empty_state
    = (Ok (demo_default_config still_key_jitters, scene_struct,
           demo_default_stage still_key_jitters),
       snd (demo_default still_key_jitters)).
Proof. eexists. vm_compute. reflexivity. Qed.

Lemma still_key : ~ 0 < a_key_light_jitter still_key_jitters.
Proof. vm_compute. discriminate. Qed.

Lemma render_semantic_change_still_lamp_witness :
  exists st3,
    render_semantic_change sqrt_micro demo_host demo_random demo_properties demo_args
      still_key_jitters 5 (demo_default_config still_key_jitters) 0 "default"
      "output/nonsemantic_images/CLEVR_nonsemantic_000000.png" "same"
      (snd (demo_default still_key_jitters)) = (Raise IndexError, st3) /\
    heap st3 = heap (snd (demo_default still_key_jitters)).
Proof.
  destruct still_default_run as [scene_struct Hrun].
  exact (render_semantic_change_still_lamp sqrt_micro demo_host demo_random
           demo_properties demo_args still_key_jitters 1 2 0 "default"
           "output/images/CLEVR_default_000000.png" empty_state _ _ _ _ Hrun
           (or_introl still_key) 5 0 "default"
           "output/nonsemantic_images/CLEVR_nonsemantic_000000.png" "same"
           (snd (demo_default still_key_jitters))).
Defined.






(** * render_shadeless *)

Section ShadelessProofs.

Variable rs : RandomSource.

Lemma new_rgb_Ok (fuel : nat) (object_colors : list vec3) :
  forall st rgb st',
    new_rgb rs fuel object_colors st = (Ok rgb, st') ->
    Forall (other_color rgb) object_colors.
Proof.
  induction fuel as [|fuel IH]; intros st rgb st' H; cbn [new_rgb] in H; [discriminate|].
  inv_bind_as H r. inv_bind_as H g. inv_bind_as H b.
  destruct (existsb (vec3_eqb (r, g, b)) object_colors) eqn:E; cbn [negb] in H.
  - eapply IH. exact H.
  - apply ret_Ok in H. destruct H as [-> _].
    apply Forall_forall. intros c Hc. unfold other_color.
    destruct (vec3_eqb (r, g, b) c) eqn:Ec; [|reflexivity].
    assert (Hex : existsb (vec3_eqb (r, g, b)) object_colors = true).
    { apply existsb_exists. exists c. split; [apply list_elem_of_In; exact Hc|exact Ec]. }
    congruence.
Qed.

(** One round of the loop. *)
Lemma shade_step (fuel i : nat) (obj : nat) (rest : list nat)
    (colors : list vec3) (olds : list nat) (b : Bpy) (st st' : State)
    (r : list vec3 * list nat * Bpy) :
  shade_objects rs fuel i (obj :: rest) colors olds b st = (Ok r, st') ->
  exists old others rgb st1,
    bpy_slots b !! obj = Some (old :: others) /\
    Forall (other_color rgb) colors /\
    shade_objects rs fuel (S i) rest (colors ++ [rgb]) (olds ++ [old])
      {| bpy_render := bpy_render b; bpy_layers := bpy_layers b;
         bpy_materials := bpy_materials b ++ shadeless_materials i [rgb];
         bpy_slots := <[obj := length (bpy_materials b) :: others]> (bpy_slots b) |} st1
    = (Ok r, st').
Proof.
  cbn [shade_objects]. intros H.
  inv_bind_as H old. apply lift_Ok in Hrun. destruct Hrun as [Hold ->].
  inv_bind_as H rgb. apply new_rgb_Ok in Hrun.
  cbn [add_shadeless_material] in H.
  inv_bind_as H b1. apply lift_Ok in Hrun0. destruct Hrun0 as [Hset ->].
  unfold get_slot0 in Hold. unfold set_slot0 in Hset. cbn [bpy_slots] in Hset.
  destruct (bpy_slots b !! obj) as [[|m others]|]; try discriminate.
  inversion Hold; subst m. inversion Hset; subst b1. clear Hold Hset.
  exists old, others, rgb, st0. split; [reflexivity|]. split; [exact Hrun|].
  cbn [bpy_render bpy_layers bpy_materials bpy_slots].
  unfold shadeless_materials. cbn [imap]. rewrite Nat.add_0_r. exact H.
Qed.

Lemma shadeless_materials_cons (i : nat) (c : vec3) (colors : list vec3) :
  shadeless_materials i (c :: colors)
  = shadeless_materials i [c] ++ shadeless_materials (S i) colors.
Proof.
  unfold shadeless_materials. cbn [imap app]. f_equal.
  apply imap_ext. intros k x _. cbn. f_equal. lia.
Qed.

(** What the loop leaves alone, and what it adds. *)
Lemma shade_objects_frame (fuel : nat) (objs : list nat) :
  forall i colors olds b st colors' olds' b' st',
    shade_objects rs fuel i objs colors olds b st = (Ok (colors', olds', b'), st') ->
    exists news new_olds,
      colors' = colors ++ news /\ olds' = olds ++ new_olds /\
      length news = length objs /\ length new_olds = length objs /\
      bpy_render b' = bpy_render b /\ bpy_layers b' = bpy_layers b /\
      bpy_materials b' = bpy_materials b ++ shadeless_materials i news /\
      (AllPairs other_color colors -> AllPairs other_color colors') /\
      (forall h, ~ In h objs -> bpy_slots b' !! h = bpy_slots b !! h).
Proof.
  induction objs as [|obj rest IH]; intros i colors olds b st colors' olds' b' st' H.
  - cbn [shade_objects] in H. apply ret_Ok in H. destruct H as [H _].
    inversion H; subst. exists [], []. rewrite !app_nil_r. repeat split; auto.
  - apply shade_step in H. destruct H as (old & others & rgb & st1 & Hobj & Hrgb & H).
    apply IH in H.
    destruct H as (news & new_olds & -> & -> & Hn & Ho & Hr & Hl & Hm & Hd & Hs).
    cbn [bpy_render bpy_layers bpy_materials bpy_slots] in *.
    exists (rgb :: news), (old :: new_olds). rewrite <- !app_assoc. cbn [app length].
    split; [reflexivity|]. split; [reflexivity|]. split; [lia|]. split; [lia|].
    split; [exact Hr|]. split; [exact Hl|].
    split; [rewrite Hm, <- app_assoc, (shadeless_materials_cons i rgb news); reflexivity|].
    split.
    + intros Hall. change (colors ++ rgb :: news) with (colors ++ [rgb] ++ news).
      rewrite app_assoc. apply Hd. apply AllPairs_snoc; assumption.
    + intros h Hh. rewrite Hs by (intros Hin; apply Hh; right; exact Hin).
      apply list_lookup_insert_ne. intros ->. apply Hh. left. reflexivity.
Qed.

(** The slots of the objects when the loop is over, for objects that
    are all different. *)
Lemma shade_objects_slots (fuel : nat) (objs : list nat) :
  forall i colors olds b st colors' olds' b' st',
    NoDup objs ->
    shade_objects rs fuel i objs colors olds b st = (Ok (colors', olds', b'), st') ->
    forall k obj, objs !! k = Some obj ->
      exists old others,
        bpy_slots b !! obj = Some (old :: others) /\
        olds' !! (length olds + k)%nat = Some old /\
        bpy_slots b' !! obj = Some ((length (bpy_materials b) + k)%nat :: others).
Proof.
  induction objs as [|obj rest IH]; intros i colors olds b st colors' olds' b' st' Hnd H
    k h Hk; [discriminate|].
  apply NoDup_cons in Hnd. destruct Hnd as [Hobj Hnd].
  apply shade_step in H. destruct H as (old & others & rgb & st1 & Hslot & _ & H).
  destruct k as [|k].
  - cbn in Hk. inversion Hk; subst h.
    apply shade_objects_frame in H.
    destruct H as (news & new_olds & _ & -> & _ & _ & _ & _ & _ & _ & Hs).
    cbn [bpy_slots] in Hs.
    exists old, others. split; [exact Hslot|]. split.
    + rewrite Nat.add_0_r, <- app_assoc, lookup_app_r by lia.
      rewrite Nat.sub_diag. reflexivity.
    + rewrite Hs by (rewrite <- list_elem_of_In; exact Hobj).
      rewrite Nat.add_0_r. apply list_lookup_insert_eq. eapply lookup_lt_Some. exact Hslot.
  - cbn in Hk.
    destruct (IH _ _ _ _ _ _ _ _ _ Hnd H k h Hk) as (old' & others' & Hb & Ho & Hb').
    cbn [bpy_slots bpy_materials] in Hb, Hb'.
    assert (Hne : obj <> h).
    { intros ->. apply Hobj. eapply list_elem_of_lookup_2. exact Hk. }
    rewrite list_lookup_insert_ne in Hb by exact Hne.
    exists old', others'. split; [exact Hb|]. split.
    + rewrite length_app in Ho. cbn [length] in Ho.
      replace (length olds + S k)%nat with (length olds + 1 + k)%nat by lia. exact Ho.
    + rewrite Hb'. unfold shadeless_materials. rewrite length_app. cbn [imap length].
      do 2 f_equal. lia.
Qed.

Lemma set_slot0_Ok (obj mat : nat) (b b' : Bpy) :
  set_slot0 obj mat b = Ok b' ->
  exists old others,
    bpy_slots b !! obj = Some (old :: others) /\
    bpy_render b' = bpy_render b /\ bpy_layers b' = bpy_layers b /\
    bpy_materials b' = bpy_materials b /\
    bpy_slots b' = <[obj := mat :: others]> (bpy_slots b).
Proof.
  unfold set_slot0. destruct (bpy_slots b !! obj) as [[|old others]|]; try discriminate.
  intros H. inversion H. exists old, others. repeat split.
Qed.

(** The loop that puts the old materials back. *)
Lemma restore_materials_spec (pairs : list (nat * nat)) :
  forall b b',
    restore_materials pairs b = Ok b' ->
    bpy_render b' = bpy_render b /\ bpy_layers b' = bpy_layers b /\
    bpy_materials b' = bpy_materials b /\
    length (bpy_slots b') = length (bpy_slots b) /\
    (forall h, ~ In h (map snd pairs) -> bpy_slots b' !! h = bpy_slots b !! h) /\
    (NoDup (map snd pairs) ->
     forall mat obj, In (mat, obj) pairs ->
       exists old others,
         bpy_slots b !! obj = Some (old :: others) /\
         bpy_slots b' !! obj = Some (mat :: others)).
Proof.
  induction pairs as [|[mat obj] rest IH]; intros b b' H; cbn [restore_materials] in H.
  - inversion H; subst. repeat split; auto. intros _ mat obj [].
  - destruct (set_slot0 obj mat b) as [b1|e] eqn:E; [|discriminate]. cbn [rbind] in H.
    apply set_slot0_Ok in E.
    destruct E as (old & others & Hobj & Hr & Hl & Hm & Hs).
    apply IH in H. destruct H as (Hr' & Hl' & Hm' & Hlen & Hframe & Hput).
    split; [congruence|]. split; [congruence|]. split; [congruence|].
    split; [rewrite Hlen, Hs, length_insert; reflexivity|].
    cbn [map snd]. split.
    + intros h Hh. rewrite Hframe by (intros Hin; apply Hh; right; exact Hin).
      rewrite Hs. apply list_lookup_insert_ne. intros ->. apply Hh. left. reflexivity.
    + intros Hnd mat' obj' Hin. apply NoDup_cons in Hnd. destruct Hnd as [Hfresh Hnd].
      destruct Hin as [E|Hin].
      * inversion E; subst mat' obj'. exists old, others. split; [exact Hobj|].
        rewrite Hframe by (rewrite <- list_elem_of_In; exact Hfresh).
        rewrite Hs. apply list_lookup_insert_eq. eapply lookup_lt_Some. exact Hobj.
      * destruct (Hput Hnd mat' obj' Hin) as (old' & others' & Hb1 & Hb').
        assert (Hne : obj <> obj').
        { intros ->. apply Hfresh. apply list_elem_of_In. apply in_map_iff.
          exists (mat', obj'). split; [reflexivity|exact Hin]. }
        rewrite Hs, list_lookup_insert_ne in Hb1 by exact Hne.
        exists old', others'. split; assumption.
Qed.

Lemma set_layer_Ok (name : string) (layer_idx : Z) (b b' : Bpy) :
  set_layer name layer_idx b = Ok b' ->
  bpy_render b' = bpy_render b /\
  bpy_layers b' = <[name := layer_idx]> (bpy_layers b) /\
  bpy_materials b' = bpy_materials b /\ bpy_slots b' = bpy_slots b.
Proof.
  unfold set_layer. destruct (bpy_layers b !! name); [|discriminate].
  intros H. inversion H. repeat split.
Qed.

End ShadelessProofs.

Section ShadelessRun.

Variable rs : RandomSource.

(** The layers when the four names have been given the layer [l]. *)
Lemma set_layers_Ok (l : Z) (b b1 b2 b3 b4 : Bpy) :
  set_layer "Lamp_Key" l b = Ok b1 -> set_layer "Lamp_Fill" l b1 = Ok b2 ->
  set_layer "Lamp_Back" l b2 = Ok b3 -> set_layer "Ground" l b3 = Ok b4 ->
  bpy_render b4 = bpy_render b /\ bpy_materials b4 = bpy_materials b /\
  bpy_slots b4 = bpy_slots b /\
  forall name, bpy_layers b4 !! name
               = if bool_decide (name ∈ hidden_names) then Some l
                 else bpy_layers b !! name.
Proof.
  intros H1 H2 H3 H4.
  apply set_layer_Ok in H1, H2, H3, H4.
  destruct H1 as (R1 & L1 & M1 & S1), H2 as (R2 & L2 & M2 & S2),
           H3 as (R3 & L3 & M3 & S3), H4 as (R4 & L4 & M4 & S4).
  split; [congruence|]. split; [congruence|]. split; [congruence|].
  intros name. rewrite L4, L3, L2, L1. unfold hidden_names.
  destruct (decide (name = "Ground")) as [->|N4];
    [rewrite lookup_insert_eq; reflexivity|rewrite lookup_insert_ne by congruence].
  destruct (decide (name = "Lamp_Back")) as [->|N3];
    [rewrite lookup_insert_eq; reflexivity|rewrite lookup_insert_ne by congruence].
  destruct (decide (name = "Lamp_Fill")) as [->|N2];
    [rewrite lookup_insert_eq; reflexivity|rewrite lookup_insert_ne by congruence].
  destruct (decide (name = "Lamp_Key")) as [->|N1];
    [rewrite lookup_insert_eq; reflexivity|rewrite lookup_insert_ne by congruence].
  rewrite bool_decide_eq_false_2; [reflexivity|].
  intros Hin. repeat (apply elem_of_cons in Hin; destruct Hin as [Hin|Hin];
                      [congruence|]).
  inversion Hin.
Qed.

(** The steps of a call that returns. *)
Lemma render_shadeless_Ok (fuel : nat) (blender_objects : list nat) (path : string)
    (b : Bpy) (st st' : State) (colors : list vec3) (rendered b' : Bpy) :
  render_shadeless rs fuel blender_objects path b st = (Ok (colors, rendered, b'), st') ->
  exists b0 olds b3,
    bpy_render b0 = {| r_filepath := path; r_engine := "BLENDER_RENDER";
                       r_use_antialiasing := false |} /\
    bpy_materials b0 = bpy_materials b /\ bpy_slots b0 = bpy_slots b /\
    (forall name, bpy_layers b0 !! name
                  = if bool_decide (name ∈ hidden_names) then Some 2%Z
                    else bpy_layers b !! name) /\
    shade_objects rs fuel 0 blender_objects [] [] b0 st = (Ok (colors, olds, rendered), st') /\
    restore_materials (zip olds blender_objects) rendered = Ok b3 /\
    bpy_render b' = bpy_render b /\
    bpy_materials b' = bpy_materials b3 /\ bpy_slots b' = bpy_slots b3 /\
    (forall name, bpy_layers b' !! name
                  = if bool_decide (name ∈ hidden_names) then Some 0%Z
                    else bpy_layers b3 !! name).
Proof.
  unfold render_shadeless. intros H.
  inv_bind_as H b1. apply lift_Ok in Hrun. destruct Hrun as [H1 ->].
  inv_bind_as H b2. apply lift_Ok in Hrun. destruct Hrun as [H2 ->].
  inv_bind_as H b3. apply lift_Ok in Hrun. destruct Hrun as [H3 ->].
  inv_bind_as H b4. apply lift_Ok in Hrun. destruct Hrun as [H4 ->].
  inv_bind_as H shaded. destruct shaded as [[object_colors old_materials] b5].
  inv_bind_as H b6. apply lift_Ok in Hrun0. destruct Hrun0 as [Hrestore ->].
  inv_bind_as H b7. apply lift_Ok in Hrun0. destruct Hrun0 as [H7 ->].
  inv_bind_as H b8. apply lift_Ok in Hrun0. destruct Hrun0 as [H8 ->].
  inv_bind_as H b9. apply lift_Ok in Hrun0. destruct Hrun0 as [H9 ->].
  inv_bind_as H b10. apply lift_Ok in Hrun0. destruct Hrun0 as [H10 ->].
  apply ret_Ok in H. destruct H as [H ->]. inversion H; subst colors rendered b'. clear H.
  destruct (set_layers_Ok _ _ _ _ _ _ H1 H2 H3 H4) as (R0 & M0 & S0 & L0).
  destruct (set_layers_Ok _ _ _ _ _ _ H7 H8 H9 H10) as (R1 & M1 & S1 & L1).
  exists b4, old_materials, b6. cbn [bpy_render bpy_materials bpy_slots bpy_layers] in *.
  split; [exact R0|]. split; [exact M0|]. split; [exact S0|]. split; [exact L0|].
  split; [exact Hrun|]. split; [exact Hrestore|].
  split; [destruct (bpy_render b); reflexivity|].
  split; [exact M1|]. split; [exact S1|exact L1].
Qed.

End ShadelessRun.

(** When [render_shadeless] calls the renderer, the render settings are
    the flat ones with the given path, the lamps and the ground are on
    layer 2, there is one color for each object and no two colors are
    equal; and when the objects are all different, the first material
    of the [k]-th object is a shadeless one with the [k]-th color. *)
Theorem render_shadeless_flat (rs : RandomSource) (fuel : nat)
    (blender_objects : list nat) (path : string) (b : Bpy) (st st' : State)
    (object_colors : list vec3) (rendered b' : Bpy) :
  render_shadeless rs fuel blender_objects path b st
    = (Ok (object_colors, rendered, b'), st') ->
  NoDup blender_objects ->
  bpy_render rendered = {| r_filepath := path; r_engine := "BLENDER_RENDER";
                           r_use_antialiasing := false |} /\
  Forall (fun name => bpy_layers rendered !! name = Some 2%Z) hidden_names /\
  length object_colors = length blender_objects /\
  AllPairs other_color object_colors /\
  forall k obj c,
    blender_objects !! k = Some obj -> object_colors !! k = Some c ->
    exists mat others m,
      bpy_slots rendered !! obj = Some (mat :: others) /\
      bpy_materials rendered !! mat = Some m /\
      m_diffuse_color m = c /\ m_use_shadeless m = true.
Proof.
  intros H Hnd. apply render_shadeless_Ok in H.
  destruct H as (b0 & olds & b3 & R0 & M0 & S0 & L0 & Hshade & _).
  pose proof (shade_objects_slots rs _ _ _ _ _ _ _ _ _ _ _ Hnd Hshade) as Hslots.
  apply shade_objects_frame in Hshade.
  destruct Hshade as (news & new_olds & Hc & _ & Hn & _ & Hr & Hl & Hm & Hd & _).
  cbn [app] in Hc. subst news.
  split; [congruence|]. split.
  { rewrite Hl. repeat apply Forall_cons_2; try apply Forall_nil_2; rewrite L0; reflexivity. }
  split; [exact Hn|]. split; [apply Hd; apply AllPairs_nil|].
  intros k obj c Hk Hcol.
  destruct (Hslots k obj Hk) as (old & others & _ & _ & Hnew).
  eexists _, others, _. split; [exact Hnew|]. rewrite Hm. split.
  - rewrite lookup_app_r by lia.
    replace (length (bpy_materials b0) + k - length (bpy_materials b0))%nat with k by lia.
    unfold shadeless_materials. rewrite list_lookup_imap, Hcol. reflexivity.
  - split; reflexivity.
Qed.

(** When [render_shadeless] returns, the render settings are what they
    were before the call and the lamps and the ground are on layer 0,
    whatever their layer was; the shadeless materials that it made, one
    for each object, are still among the materials; and when the
    objects are all different, each object has its materials back. *)
Theorem render_shadeless_restores (rs : RandomSource) (fuel : nat)
    (blender_objects : list nat) (path : string) (b : Bpy) (st st' : State)
    (object_colors : list vec3) (rendered b' : Bpy) :
  render_shadeless rs fuel blender_objects path b st
    = (Ok (object_colors, rendered, b'), st') ->
  NoDup blender_objects ->
  bpy_render b' = bpy_render b /\
  (forall name, bpy_layers b' !! name
                = if bool_decide (name ∈ hidden_names) then Some 0%Z
                  else bpy_layers b !! name) /\
  bpy_materials b' = bpy_materials b ++ shadeless_materials 0 object_colors /\
  bpy_slots b' = bpy_slots b.
Proof.
  intros H Hnd. apply render_shadeless_Ok in H.
  destruct H as (b0 & olds & b3 & R0 & M0 & S0 & L0 & Hshade & Hrestore
                 & R1 & M1 & S1 & L1).
  pose proof (shade_objects_slots rs _ _ _ _ _ _ _ _ _ _ _ Hnd Hshade) as Hslots.
  apply shade_objects_frame in Hshade.
  destruct Hshade as (news & new_olds & Hc & Ho & Hn & Hno & Hr & Hl & Hm & _ & Hframe).
  cbn [app] in Hc, Ho. subst news new_olds.
  apply restore_materials_spec in Hrestore.
  destruct Hrestore as (R3 & L3 & M3 & _ & Hframe3 & Hput).
  assert (Hsnd : map snd (zip olds blender_objects) = blender_objects).
  { apply snd_zip. lia. }
  rewrite Hsnd in Hframe3, Hput.
  split; [exact R1|]. split.
  { intros name. rewrite L1. destruct (bool_decide (name ∈ hidden_names)) eqn:E;
      [reflexivity|]. rewrite L3, Hl, L0, E. reflexivity. }
  split; [congruence|].
  rewrite S1, <- S0. apply list_eq. intros h.
  destruct (decide (h ∈ blender_objects)) as [Hin|Hnin].
  - apply list_elem_of_lookup_1 in Hin. destruct Hin as [k Hk].
    destruct (Hslots k h Hk) as (old & others & Hold & Holds & Hnew).
    cbn [length Nat.add] in Holds.
    assert (Hpair : In (old, h) (zip olds blender_objects)).
    { apply list_elem_of_In. apply (list_elem_of_lookup_2 _ k).
      rewrite lookup_zip_with, Holds, Hk. reflexivity. }
    destruct (Hput Hnd old h Hpair) as (new & others' & Hr1 & Hr3).
    rewrite Hnew in Hr1. inversion Hr1; subst. rewrite Hr3, Hold. reflexivity.
  - rewrite Hframe3 by (rewrite <- list_elem_of_In; exact Hnin).
    apply Hframe. rewrite <- list_elem_of_In. exact Hnin.
Qed.

Lemma demo_shadeless_run :
  render_shadeless repeating_random 5 [0; 1]%nat "/tmp/tmp_flat.png" demo_bpy empty_state
  = (Ok (demo_shadeless_colors, demo_shadeless_rendered, demo_shadeless_after),
     snd demo_shadeless).
Proof. vm_compute. reflexivity. Qed.

Lemma demo_objects_differ : NoDup [0; 1]%nat.
Proof. apply (bool_decide_unpack _). vm_compute. exact I. Qed.

Lemma render_shadeless_flat_witness :
  bpy_render demo_shadeless_rendered
  = {| r_filepath := "/tmp/tmp_flat.png"; r_engine := "BLENDER_RENDER";
       r_use_antialiasing := false |} /\
  Forall (fun name => bpy_layers demo_shadeless_rendered !! name = Some 2%Z) hidden_names /\
  length demo_shadeless_colors = length [0; 1]%nat /\
  AllPairs other_color demo_shadeless_colors /\
  forall k obj c,
    [0; 1]%nat !! k = Some obj -> demo_shadeless_colors !! k = Some c ->
    exists mat others m,
      bpy_slots demo_shadeless_rendered !! obj = Some (mat :: others) /\
      bpy_materials demo_shadeless_rendered !! mat = Some m /\
      m_diffuse_color m = c /\ m_use_shadeless m = true.
Proof.
  exact (render_shadeless_flat repeating_random 5 [0; 1]%nat "/tmp/tmp_flat.png"
           demo_bpy empty_state (snd demo_shadeless) demo_shadeless_colors
           demo_shadeless_rendered demo_shadeless_after
           demo_shadeless_run demo_objects_differ).
Defined.

Lemma render_shadeless_restores_witness :
  bpy_render demo_shadeless_after = bpy_render demo_bpy /\
  (forall name, bpy_layers demo_shadeless_after !! name
                = if bool_decide (name ∈ hidden_names) then Some 0%Z
                  else bpy_layers demo_bpy !! name) /\
  bpy_materials demo_shadeless_after
  = bpy_materials demo_bpy ++ shadeless_materials 0 demo_shadeless_colors /\
  bpy_slots demo_shadeless_after = bpy_slots demo_bpy.
Proof.
  exact (render_shadeless_restores repeating_random 5 [0; 1]%nat "/tmp/tmp_flat.png"
           demo_bpy empty_state (snd demo_shadeless) demo_shadeless_colors
           demo_shadeless_rendered demo_shadeless_after
           demo_shadeless_run demo_objects_differ).
Defined.

(** * main *)

(** ** The scenes that the render functions dump *)

Section Scenes.

Variable sqrt : Q -> Q.
Variable host : Host.
Variable rs : RandomSource.
Variable properties : Properties.
Variable args : Args.
Variable jargs : JitterArgs.

Lemma place_objects_heap (bl : Blender) (directions : Directions) (num_objects : nat) :
  forall positions objects blender_objects st r st',
    place_objects sqrt bl rs properties args directions num_objects
      positions objects blender_objects st = (r, st') ->
    heap st' = heap st.
Proof.
  induction num_objects as [|n IH]; intros positions objects blender_objects st r st' H;
    cbn [place_objects] in H.
  - inversion H. reflexivity.
  - apply bind_cases in H. destruct H as [(e & H & _)|([size_name r0] & st1 & H1 & H)];
      [exact (choice_heap _ _ _ _ _ H)|].
    apply choice_heap in H1. rewrite <- H1.
    apply bind_cases in H. destruct H as [(e & H & _)|(placed & st2 & H2 & H)];
      [exact (sample_position_heap _ _ _ _ _ _ _ _ _ _ H)|].
    apply sample_position_heap in H2. rewrite <- H2.
    destruct placed as [[x y]|]; [|inversion H; reflexivity].
    apply bind_cases in H. destruct H as [(e & H & _)|(chosen & st3 & H3 & H)];
      [exact (choose_shape_color_heap _ _ _ _ _ _ H)|].
    apply choose_shape_color_heap in H3. rewrite <- H3.
    destruct chosen as [[[obj_name obj_name_out] color_name] rgba].
    apply bind_cases in H. destruct H as [(e & H & _)|(theta0 & st4 & H4 & H)];
      [exact (random_heap _ _ _ _ H)|].
    apply random_heap in H4. rewrite <- H4.
    apply bind_cases in H. destruct H as [(e & H & _)|([mat_name mat_name_out] & st5 & H5 & H)];
      [exact (choice_heap _ _ _ _ _ H)|].
    apply choice_heap in H5. rewrite <- H5.
    eapply IH. exact H.
Qed.

Lemma add_random_objects_heap (bl : Blender) (directions : Directions)
    (depth num_objects : nat) :
  forall st r st',
    add_random_objects sqrt bl rs properties args directions depth num_objects st
      = (r, st') ->
    heap st' = heap st.
Proof.
  induction depth as [|depth IH]; intros st r st' H; cbn [add_random_objects] in H.
  - inversion H. reflexivity.
  - apply bind_cases in H. destruct H as [(e & H & _)|(placed & st1 & H1 & H)];
      [exact (place_objects_heap _ _ _ _ _ _ _ _ _ H)|].
    apply place_objects_heap in H1. rewrite <- H1.
    destruct placed as [[objects blender_objects]|]; [|eapply IH; exact H].
    apply bind_cases in H. destruct H as [(e & H & _)|(all_visible & st2 & H2 & H)];
      [exact (lift_heap _ _ _ _ H)|].
    apply lift_heap in H2. rewrite <- H2.
    destruct all_visible; [inversion H; reflexivity|eapply IH; exact H].
Qed.

Lemma alloc_all_Ok (objects : list Obj) :
  forall st refs st',
    alloc_all objects st = (Ok refs, st') ->
    heap st' = heap st ++ objects /\ refs = seq (length (heap st)) (length objects).
Proof.
  induction objects as [|o rest IH]; intros st refs st' H; cbn [alloc_all] in H.
  - apply ret_Ok in H. destruct H as [-> ->]. rewrite app_nil_r. split; reflexivity.
  - inv_bind_as H a. apply alloc_Ok in Hrun. destruct Hrun as [-> Hh].
    inv_bind_as H l. apply IH in Hrun. destruct Hrun as [Hh' ->].
    apply ret_Ok in H. destruct H as [-> ->].
    rewrite Hh', Hh, <- app_assoc, length_app. cbn [app length seq]. split; [reflexivity|].
    do 2 f_equal. lia.
Qed.

Lemma read_all_Ok (l : list loc) :
  forall st objects st',
    read_all l st = (Ok objects, st') ->
    st' = st /\ Forall2 (fun a o => heap st !! a = Some o) l objects.
Proof.
  induction l as [|a rest IH]; intros st objects st' H; cbn [read_all] in H.
  - apply ret_Ok in H. destruct H as [-> ->]. split; [reflexivity|constructor].
  - inv_bind_as H o. apply read_Ok in Hrun. destruct Hrun as [Ho ->].
    inv_bind_as H os. apply IH in Hrun. destruct Hrun as [-> Hall].
    apply ret_Ok in H. destruct H as [-> ->]. split; [reflexivity|].
    constructor; assumption.
Qed.

Lemma jitter_if_heap (L : Q) (location : vec3) (st st' : State)
    (r : result (list Q * vec3)) :
  jitter_if rs L location st = (r, st') -> heap st' = heap st.
Proof.
  unfold jitter_if. destruct (Qltb 0 L).
  - rewrite jitter_new_run. intros H. inversion H. reflexivity.
  - intros H. inversion H. reflexivity.
Qed.

Lemma rand_heap (L : Q) (st st' : State) (r : result Q) :
  rand rs L st = (r, st') -> heap st' = heap st.
Proof. unfold rand, bind, random, ret. intros H. inversion H. reflexivity. Qed.

Lemma jitter_again_heap (L : Q) (idx : list nat) (default_jitters : list Q) :
  forall location st r st',
    jitter_again rs L idx default_jitters location st = (r, st') -> heap st' = heap st.
Proof.
  induction idx as [|i rest IH]; intros location st r st' H; cbn [jitter_again] in H.
  - inversion H. reflexivity.
  - apply bind_cases in H. destruct H as [(e & H & _)|(j & st1 & H1 & H)];
      [exact (rand_heap _ _ _ _ H)|].
    apply rand_heap in H1.
    apply bind_cases in H. destruct H as [(e & H & _)|(d & st2 & H2 & H)];
      [apply lift_heap in H; congruence|].
    apply lift_heap in H2.
    apply bind_cases in H. destruct H as [(e & H & _)|(l & st3 & H3 & H)];
      [apply lift_heap in H; congruence|].
    apply lift_heap in H3. apply IH in H. congruence.
Qed.

(** The scene that a default scene dumps, and the objects that it
    hands on. *)
Lemma render_default_scene_scene (depth num_objects : nat) (output_index : Z)
    (output_split output_image : string) (st st' : State)
    (config : Config) (scene_struct : SceneStruct) (stage : Stage) :
  render_default_scene sqrt host rs properties args jargs depth num_objects
    output_index output_split output_image st
    = (Ok (config, scene_struct, stage), st') ->
  ss_image_index scene_struct = output_index /\
  ss_split scene_struct = output_split /\
  ss_image_filename scene_struct = basename output_image /\
  heap st' = heap st ++ ss_objects scene_struct /\
  cfg_objects config = seq (length (heap st)) (length (ss_objects scene_struct)).
Proof.
  unfold render_default_scene. intros H.
  inv_bind_as H cam. destruct cam as [camera_jitters cam]. apply jitter_if_heap in Hrun.
  inv_bind_as H key. destruct key as [key_light_jitters key]. apply jitter_if_heap in Hrun0.
  inv_bind_as H back. destruct back as [back_light_jitters back].
  apply jitter_if_heap in Hrun1.
  inv_bind_as H fill. destruct fill as [fill_light_jitters fill].
  apply jitter_if_heap in Hrun2.
  inv_bind_as H placed. destruct placed as [objects blender_objects].
  apply add_random_objects_heap in Hrun3.
  inv_bind_as H refs. apply alloc_all_Ok in Hrun4. destruct Hrun4 as [Hh ->].
  apply ret_Ok in H. destruct H as [H ->]. inversion H; subst config scene_struct stage.
  cbn [ss_image_index ss_split ss_image_filename ss_objects cfg_objects].
  repeat (split; [reflexivity|]).
  assert (E : heap st4 = heap st) by congruence.
  rewrite Hh, E. split; reflexivity.
Qed.

End Scenes.


(** ** The objects of a changed scene against the objects of the base *)

Section Variants.

Variable sqrt : Q -> Q.
Variable bl : Blender.
Variable rs : RandomSource.
Variable properties : Properties.
Variable args : Args.
Variable directions : Directions.

(** The copies of a list of cells, once the objects are rendered. *)
Lemma copies_rendered (base_refs : list loc) (base : list Obj)
    (h h1 h2 : list Obj) (os : list Obj) (st : State) :
  heap st = h -> h1 = heap st ++ os ->
  Forall2 (fun a o => h1 !! a = Some o) base_refs os ->
  (forall c, semantic_fields <$> (h2 !! c) = semantic_fields <$> (h1 !! c)) ->
  Forall2 (fun a ob => h !! a = Some ob) base_refs base ->
  Forall2 (fun a ob => exists o, h2 !! a = Some o /\
                                 semantic_fields o = semantic_fields ob)
          (seq (length h) (length base_refs)) base.
Proof.
  intros <- Hh1 Hread Hsem Hbase.
  pose proof (copies_of_base _ _ _ _ Hh1 Hread) as Hcopies.
  eapply Forall2_trans; [|exact Hcopies|exact Hbase].
  intros a b ob Hab Hb. cbn beta in Hab.
  exact (same_semantics_after _ _ a ob Hsem (Hab ob Hb)).
Qed.

Lemma variant_same (fuel : nat) (base_refs : list loc) (base : list Obj)
    (st st' : State) (new_objects : list loc) (new_blend_objects : list BlenderObj) :
  apply_change sqrt bl rs properties args directions fuel base_refs "same" st
    = (Ok (Some (new_objects, new_blend_objects)), st') ->
  Forall2 (fun a ob => heap st !! a = Some ob) base_refs base ->
  Forall2 (fun a ob => exists o, heap st' !! a = Some o /\
                                 semantic_fields o = semantic_fields ob)
          new_objects base.
Proof.
  unfold apply_change. intros H Hbase. inv_bind_as H changed.
  change (changed_objects sqrt rs properties args directions fuel base_refs "same")
    with (bind (change_same base_refs []) (fun l => ret (Some l))) in Hrun.
  inv_bind_as Hrun l. apply ret_Ok in Hrun. destruct Hrun as [-> ->].
  apply change_same_spec in Hrun0. destruct Hrun0 as (os & Hheap & Hread & ->).
  cbn [app] in H.
  inv_bind_as H bos. apply render_objects_spec in Hrun. destruct Hrun as (_ & Hsem & _ & _).
  inv_bind_as H all_visible. apply lift_Ok in Hrun. destruct Hrun as [_ ->].
  destruct all_visible; apply ret_Ok in H; destruct H as [H ->]; [|discriminate].
  inversion H; subst new_objects new_blend_objects. clear H.
  exact (copies_rendered base_refs base _ _ _ os st eq_refl Hheap Hread Hsem Hbase).
Qed.

Lemma variant_drop (fuel : nat) (base_refs : list loc) (base : list Obj)
    (st st' : State) (new_objects : list loc) (new_blend_objects : list BlenderObj) :
  apply_change sqrt bl rs properties args directions fuel base_refs "drop" st
    = (Ok (Some (new_objects, new_blend_objects)), st') ->
  Forall2 (fun a ob => heap st !! a = Some ob) base_refs base ->
  exists j, (j < length base)%nat /\
    Forall2 (fun a ob => exists o, heap st' !! a = Some o /\
                                   semantic_fields o = semantic_fields ob)
            new_objects (take j base ++ drop (S j) base).
Proof.
  unfold apply_change. intros H Hbase. inv_bind_as H changed.
  change (changed_objects sqrt rs properties args directions fuel base_refs "drop")
    with (bind (randint rs 0 (Z.of_nat (length base_refs) - 1))
            (fun object_idx =>
               bind (change_drop object_idx 0 base_refs [])
                    (fun l => ret (Some l)))) in Hrun.
  inv_bind_as Hrun object_idx. apply randint_Ok in Hrun0.
  destruct Hrun0 as (Hlen & -> & Hh0).
  set (j := (rs_int rs (n_int st) mod length base_refs)%nat) in *.
  inv_bind_as Hrun l. apply ret_Ok in Hrun. destruct Hrun as [-> ->].
  apply change_drop_spec in Hrun0. destruct Hrun0 as (os & Hheap & Hread & ->).
  cbn [app] in H. rewrite Hh0 in Hheap, H.
  pose proof (kept_take_drop (seq (length (heap st)) (length base_refs)) j 0) as Hkept.
  change (Z.of_nat 0) with 0%Z in Hkept. change (0 + j)%nat with j in Hkept.
  rewrite Hkept in H. clear Hkept.
  inv_bind_as H bos. apply render_objects_spec in Hrun. destruct Hrun as (_ & Hsem & _ & _).
  inv_bind_as H all_visible. apply lift_Ok in Hrun. destruct Hrun as [_ ->].
  destruct all_visible; apply ret_Ok in H; destruct H as [H ->]; [|discriminate].
  inversion H; subst new_objects new_blend_objects. clear H.
  exists j. split.
  { rewrite <- (Forall2_length _ _ _ Hbase). apply Nat.mod_upper_bound. lia. }
  match goal with
  | Hs : forall a, semantic_fields <$> heap ?s0 !! a = semantic_fields <$> heap ?s2 !! a,
    H0 : heap ?s1 = heap st |- _ =>
      assert (Hall : Forall2 (fun a ob => exists o, heap s0 !! a = Some o /\
                                           semantic_fields o = semantic_fields ob)
                       (seq (length (heap st)) (length base_refs)) base);
      [rewrite <- H0 in Hheap;
       exact (copies_rendered base_refs base _ _ _ os s1 H0 Hheap Hread Hs Hbase)|]
  end.
  apply Forall2_app; [apply Forall2_take|apply Forall2_drop]; exact Hall.
Qed.

End Variants.

(** ** The scenes that render_semantic_change dumps *)

Section ChangedScenes.

Variable sqrt : Q -> Q.
Variable host : Host.
Variable rs : RandomSource.
Variable properties : Properties.
Variable args : Args.
Variable jargs : JitterArgs.

Lemma read_back (new_objects : list loc) (objects base : list Obj) (h : list Obj) :
  Forall2 (fun a o => h !! a = Some o) new_objects objects ->
  Forall2 (fun a ob => exists o, h !! a = Some o /\
                                 semantic_fields o = semantic_fields ob)
          new_objects base ->
  same_objects objects base.
Proof.
  intros Hread Hall. unfold same_objects.
  apply Forall2_flip in Hread.
  eapply Forall2_trans; [|exact Hread|exact Hall].
  intros o a ob Ha (o' & Ho' & Hs). cbn in Ha. congruence.
Qed.

(** The steps of a call of [render_semantic_change] that returns. *)
Lemma render_semantic_change_Ok (fuel : nat) (default_config : Config)
    (output_index : Z) (output_split output_image change_type : string)
    (st st' : State) (changed : option SceneStruct) (stage : Stage) :
  render_semantic_change sqrt host rs properties args jargs fuel default_config
    output_index output_split output_image change_type st
    = (Ok (changed, stage), st') ->
  exists st1 bl directions variant,
    heap st1 = heap st /\
    apply_change sqrt bl rs properties args directions fuel
      (cfg_objects default_config) change_type st1 = (Ok variant, st') /\
    match variant with
    | None => changed = None
    | Some (sc_objects, _) =>
        exists scene_struct,
          changed = Some scene_struct /\
          ss_image_index scene_struct = output_index /\
          ss_split scene_struct = output_split /\
          ss_image_filename scene_struct = basename output_image /\
          Forall2 (fun a o => heap st' !! a = Some o) sc_objects
                  (ss_objects scene_struct)
    end.
Proof.
  unfold render_semantic_change. intros H.
  inv_bind_as H cam.
  assert (Hcam : heap st0 = heap st).
  { destruct (Qltb 0 (a_camera_jitter jargs)).
    - exact (jitter_again_heap rs _ _ _ _ _ _ _ Hrun).
    - apply ret_Ok in Hrun. destruct Hrun as [_ ->]. reflexivity. }
  clear Hrun.
  inv_bind_as H key. apply lift_Ok in Hrun. destruct Hrun as [_ ->].
  inv_bind_as H back. apply lift_Ok in Hrun. destruct Hrun as [_ ->].
  inv_bind_as H fill. apply lift_Ok in Hrun. destruct Hrun as [_ ->].
  inv_bind_as H variant.
  eexists st0, _, _, variant. split; [exact Hcam|].
  destruct variant as [[sc_objects sc_blend_objects]|].
  - inv_bind_as H objects. apply read_all_Ok in Hrun0. destruct Hrun0 as [-> Hread].
    apply ret_Ok in H. destruct H as [H ->]. inversion H; subst changed stage.
    split; [exact Hrun|]. eexists. split; [reflexivity|].
    cbn [ss_image_index ss_split ss_image_filename ss_objects].
    repeat (split; [reflexivity|]). exact Hread.
  - apply ret_Ok in H. destruct H as [H ->]. inversion H; subst changed stage.
    split; [exact Hrun|reflexivity].
Qed.

(** A call leaves the cells that were in the store where they were. *)
Lemma render_semantic_change_keeps (fuel : nat) (default_config : Config)
    (output_index : Z) (output_split output_image change_type : string)
    (st st' : State) (changed : option SceneStruct) (stage : Stage) :
  render_semantic_change sqrt host rs properties args jargs fuel default_config
    output_index output_split output_image change_type st
    = (Ok (changed, stage), st') ->
  exists cells, heap st' = heap st ++ cells.
Proof.
  intros H. apply render_semantic_change_Ok in H.
  destruct H as (st1 & bl & directions & variant & Hh & Hrun & _).
  destruct (grows_apply_change sqrt bl rs properties args directions (heap st) fuel
              (cfg_objects default_config) change_type st1 [])
    as [(cells & Hcells) _]; [rewrite app_nil_r; exact Hh|].
  rewrite Hrun in Hcells. exists cells. exact Hcells.
Qed.

(** The scene that a nonsemantic change dumps. *)
Lemma render_semantic_change_same (fuel : nat) (default_config : Config)
    (output_index : Z) (output_split output_image : string)
    (st st' : State) (scene_struct : SceneStruct) (stage : Stage) (base : list Obj) :
  render_semantic_change sqrt host rs properties args jargs fuel default_config
    output_index output_split output_image "same" st
    = (Ok (Some scene_struct, stage), st') ->
  Forall2 (fun a ob => heap st !! a = Some ob) (cfg_objects default_config) base ->
  ss_image_index scene_struct = output_index /\
  ss_split scene_struct = output_split /\
  ss_image_filename scene_struct = basename output_image /\
  same_objects (ss_objects scene_struct) base.
Proof.
  intros H Hbase. apply render_semantic_change_Ok in H.
  destruct H as (st1 & bl & directions & variant & Hh & Hrun & Hscene).
  destruct variant as [[sc_objects sc_blend_objects]|]; [|discriminate].
  destruct Hscene as (s & E & Hi & Hs & Hf & Hread). inversion E; subst s.
  repeat (split; [assumption|]).
  rewrite <- Hh in Hbase.
  exact (read_back _ _ _ _ Hread
           (variant_same sqrt bl rs properties args directions fuel _ base _ _ _ _
              Hrun Hbase)).
Qed.

(** The scene that the drop change dumps. *)
Lemma render_semantic_change_drop (fuel : nat) (default_config : Config)
    (output_index : Z) (output_split output_image : string)
    (st st' : State) (scene_struct : SceneStruct) (stage : Stage) (base : list Obj) :
  render_semantic_change sqrt host rs properties args jargs fuel default_config
    output_index output_split output_image "drop" st
    = (Ok (Some scene_struct, stage), st') ->
  Forall2 (fun a ob => heap st !! a = Some ob) (cfg_objects default_config) base ->
  ss_image_index scene_struct = output_index /\
  ss_split scene_struct = output_split /\
  ss_image_filename scene_struct = basename output_image /\
  exists j, (j < length base)%nat /\
            same_objects (ss_objects scene_struct) (take j base ++ drop (S j) base).
Proof.
  intros H Hbase. apply render_semantic_change_Ok in H.
  destruct H as (st1 & bl & directions & variant & Hh & Hrun & Hscene).
  destruct variant as [[sc_objects sc_blend_objects]|]; [|discriminate].
  destruct Hscene as (s & E & Hi & Hs & Hf & Hread). inversion E; subst s.
  repeat (split; [assumption|]).
  rewrite <- Hh in Hbase.
  destruct (variant_drop sqrt bl rs properties args directions fuel _ base _ _ _ _
              Hrun Hbase) as (j & Hj & Hall).
  exists j. split; [exact Hj|]. exact (read_back _ _ _ _ Hread Hall).
Qed.

End ChangedScenes.

(** ** The files of a round *)

Lemma write_outputs_lookup (files : gmap string File) (img scene : string)
    (blend : option string) (s : SceneStruct) (p : string) :
  write_outputs files img scene blend s !! p
  = if bool_decide (blend = Some p) then Some BlendFile
    else if bool_decide (p = scene) then Some (SceneJson s)
    else if bool_decide (p = img) then Some ImageFile
    else files !! p.
Proof.
  unfold write_outputs. destruct blend as [q|].
  - destruct (bool_decide_reflect (Some q = Some p)) as [E|N].
    + inversion E; subst q. apply lookup_insert_eq.
    + rewrite lookup_insert_ne by congruence.
      destruct (bool_decide_reflect (p = scene)) as [->|N2];
        [apply lookup_insert_eq|rewrite lookup_insert_ne by congruence].
      destruct (bool_decide_reflect (p = img)) as [->|N3];
        [apply lookup_insert_eq|rewrite lookup_insert_ne by congruence].
      reflexivity.
  - rewrite bool_decide_eq_false_2 by discriminate.
    destruct (bool_decide_reflect (p = scene)) as [->|N2];
      [apply lookup_insert_eq|rewrite lookup_insert_ne by congruence].
    destruct (bool_decide_reflect (p = img)) as [->|N3];
      [apply lookup_insert_eq|rewrite lookup_insert_ne by congruence].
    reflexivity.
Qed.

Lemma os_remove_lookup (q : string) (files files' : gmap string File) (p : string) :
  os_remove q files = Some files' -> p <> q -> files' !! p = files !! p.
Proof.
  unfold os_remove. destruct (files !! q); [|discriminate].
  intros H Hne. inversion H. apply lookup_delete_ne. congruence.
Qed.

Lemma remove_outputs_lookup (files files' : gmap string File) (img scene : string)
    (blend : option string) (p : string) :
  remove_outputs files img scene blend = Some files' ->
  p <> img -> p <> scene -> blend <> Some p -> files' !! p = files !! p.
Proof.
  unfold remove_outputs. intros H Hi Hs Hb.
  destruct (os_remove img files) as [f1|] eqn:E1; [|discriminate].
  destruct (os_remove scene f1) as [f2|] eqn:E2; [|discriminate].
  rewrite <- (os_remove_lookup _ _ _ p E1 Hi), <- (os_remove_lookup _ _ _ p E2 Hs).
  destruct blend as [q|].
  - apply (os_remove_lookup _ _ _ p H). congruence.
  - inversion H. reflexivity.
Qed.

Section Rounds.

Variable margs : MainArgs.
Variable templates : Templates.

Lemma blend_path_Some (template : Z -> string) (index : Z) (p : string) :
  blend_path margs template index = Some p -> p = template index.
Proof. unfold blend_path. destruct (_ =? _)%Z; intros H; inversion H; reflexivity. Qed.

Lemma written_lookup (files : gmap string File) (changed : option SceneStruct)
    (img scene : string) (template : Z -> string) (index : Z) (p : string) :
  p <> img -> p <> scene -> p <> template index ->
  written files changed img scene (blend_path margs template index) !! p = files !! p.
Proof.
  intros Hi Hs Hb. unfold written. destruct changed as [s|]; [|reflexivity].
  rewrite write_outputs_lookup.
  rewrite bool_decide_eq_false_2
    by (intros E; apply blend_path_Some in E; congruence).
  rewrite !bool_decide_eq_false_2 by assumption. reflexivity.
Qed.

Lemma written_scene (files : gmap string File) (s : SceneStruct)
    (img scene : string) (template : Z -> string) (index : Z) :
  scene <> template index ->
  written files (Some s) img scene (blend_path margs template index) !! scene
  = Some (SceneJson s).
Proof.
  intros Hb. unfold written. rewrite write_outputs_lookup.
  rewrite bool_decide_eq_false_2
    by (intros E; apply blend_path_Some in E; congruence).
  rewrite bool_decide_eq_true_2 by reflexivity. reflexivity.
Qed.

Lemma removed_lookup (files files' : gmap string File) (changed : option SceneStruct)
    (img scene : string) (template : Z -> string) (index : Z) (p : string) :
  removed files changed img scene (blend_path margs template index) = Some files' ->
  p <> img -> p <> scene -> p <> template index -> files' !! p = files !! p.
Proof.
  unfold removed. intros H Hi Hs Hb. destruct changed as [s|].
  - apply (remove_outputs_lookup _ _ _ _ _ _ H Hi Hs).
    intros E. apply blend_path_Some in E. congruence.
  - inversion H. reflexivity.
Qed.

Lemma nine_paths_differ (index : Z) (i j : nat) (x y : string) :
  NoDup (nine_paths templates index) ->
  nine_paths templates index !! i = Some x ->
  nine_paths templates index !! j = Some y -> i <> j -> x <> y.
Proof.
  intros Hnd Hi Hj Hij ->. apply Hij. exact (NoDup_lookup _ i j y Hnd Hi Hj).
Qed.

Lemma NoDup_flat_map_lookup {A B} (f : A -> list B) (l : list A) :
  NoDup (flat_map f l) ->
  (forall i x, l !! i = Some x -> NoDup (f x)) /\
  (forall i j x y p, l !! i = Some x -> l !! j = Some y ->
                     p ∈ f x -> p ∈ f y -> i = j).
Proof.
  induction l as [|a l IH]; cbn [flat_map]; intros Hnd.
  - split; intros; discriminate.
  - apply NoDup_app in Hnd. destruct Hnd as (Ha & Hdisj & Hl).
    destruct (IH Hl) as [IH1 IH2]. split.
    + intros [|i] x Hx; cbn in Hx; [inversion Hx; subst; exact Ha|eauto].
    + assert (Hin : forall j y p, l !! j = Some y -> p ∈ f y -> p ∈ flat_map f l).
      { intros j y p Hy Hp. apply list_elem_of_In, in_flat_map.
        exists y. split; [apply list_elem_of_In; eapply list_elem_of_lookup_2; exact Hy|].
        apply list_elem_of_In. exact Hp. }
      intros [|i] [|j] x y p Hx Hy Hpx Hpy; cbn in Hx, Hy.
      * reflexivity.
      * inversion Hx; subst x. exfalso. exact (Hdisj p Hpx (Hin j y p Hy Hpy)).
      * inversion Hy; subst y. exfalso. exact (Hdisj p Hpy (Hin i x p Hx Hpx)).
      * f_equal. exact (IH2 i j x y p Hx Hy Hpx Hpy).
Qed.

Lemma image_indices_lookup (n k : nat) :
  (k < n)%nat ->
  image_indices margs n !! k = Some (Z.of_nat k + a_start_idx margs)%Z.
Proof.
  intros Hk. unfold image_indices. rewrite list_lookup_fmap.
  rewrite (proj2 (lookup_seq 0 n k k) (conj eq_refl Hk)). reflexivity.
Qed.

Lemma image_indices_S (n : nat) :
  image_indices margs (S n)
  = image_indices margs n ++ [(Z.of_nat n + a_start_idx margs)%Z].
Proof.
  unfold image_indices. rewrite seq_S, map_app. reflexivity.
Qed.

Lemma load_scenes_lookup (files : gmap string File) (paths : list string) :
  forall scenes,
    load_scenes files paths = Some scenes ->
    length scenes = length paths /\
    forall k p s, paths !! k = Some p -> scenes !! k = Some s ->
                  files !! p = Some (SceneJson s).
Proof.
  induction paths as [|q rest IH]; intros scenes H; cbn [load_scenes] in H.
  - inversion H. split; [reflexivity|]. intros k p s Hp. discriminate.
  - destruct (load_scene files q) as [s0|] eqn:E; [|discriminate].
    destruct (load_scenes files rest) as [ss|]; [|discriminate].
    inversion H; subst scenes. destruct (IH ss eq_refl) as [Hlen Hall].
    split; [cbn [length]; lia|].
    intros [|k] p s Hp Hs; cbn in Hp, Hs.
    + inversion Hp; inversion Hs; subst. unfold load_scene in E.
      destruct (files !! p) as [[| |s1]|]; try discriminate. inversion E. reflexivity.
    + eauto.
Qed.

End Rounds.

(** ** The loop of main *)

Section MainLoop.

Variable sqrt : Q -> Q.
Variable host : Host.
Variable rs : RandomSource.
Variable properties : Properties.
Variable args : Args.
Variable jargs : JitterArgs.
Variable margs : MainArgs.
Variable templates : Templates.

Lemma new_cells (h objects : list Obj) :
  Forall2 (fun a ob => (h ++ objects) !! a = Some ob)
          (seq (length h) (length objects)) objects.
Proof.
  apply Forall2_same_length_lookup_2; [apply length_seq|].
  intros k a ob Ha Hob. apply lookup_seq in Ha. destruct Ha as [-> _].
  rewrite lookup_app_r by lia.
  replace (length h + k - length h)%nat with k by lia. exact Hob.
Qed.

Lemma outside_nine (index : Z) (p : string) :
  p ∉ nine_paths templates index ->
  (p <> default_img_template templates index /\
   p <> default_scene_template templates index /\
   p <> default_blend_template templates index) /\
  (p <> nonsemantic_img_template templates index /\
   p <> nonsemantic_scene_template templates index /\
   p <> nonsemantic_blend_template templates index) /\
  (p <> semantic_img_template templates index /\
   p <> semantic_scene_template templates index /\
   p <> semantic_blend_template templates index).
Proof.
  intros Hp. unfold nine_paths in Hp.
  repeat split; intros ->; apply Hp; apply list_elem_of_In; cbn [In]; tauto.
Qed.

(** One round of the loop of [main], as far as the files and the
    scenes go. *)
Lemma round_scenes (depth change_fuel : nat) (index : Z) (num_objects : nat)
    (st1 st2 st3 st4 : State) (config : Config) (d : SceneStruct)
    (stage0 stage1 stage2 : Stage) (nsc sc : option SceneStruct) :
  render_default_scene sqrt host rs properties args jargs depth num_objects index
    (a_split margs) (default_img_template templates index) st1
    = (Ok (config, d, stage0), st2) ->
  render_semantic_change sqrt host rs properties args jargs change_fuel config index
    (a_split margs) (nonsemantic_img_template templates index) "same" st2
    = (Ok (nsc, stage1), st3) ->
  render_semantic_change sqrt host rs properties args jargs change_fuel config index
    (a_split margs) (semantic_img_template templates index) "drop" st3
    = (Ok (sc, stage2), st4) ->
  forall s n, sc = Some s -> nsc = Some n -> scene_triple margs templates index d s n.
Proof.
  intros Hd Hn Hs s n -> ->.
  apply render_default_scene_scene in Hd. destruct Hd as (Di & Ds & Df & Dh & Dr).
  assert (Hbase2 : Forall2 (fun a ob => heap st2 !! a = Some ob) (cfg_objects config)
                     (ss_objects d)).
  { rewrite Dh, Dr. apply new_cells. }
  destruct (render_semantic_change_keeps _ _ _ _ _ _ _ _ _ _ _ _ _ _ _ _ Hn)
    as [cells Hcells].
  assert (Hbase3 : Forall2 (fun a ob => heap st3 !! a = Some ob) (cfg_objects config)
                     (ss_objects d)).
  { eapply Forall2_impl; [exact Hbase2|]. intros a ob Ha. cbn beta in *.
    rewrite Hcells. apply lookup_app_l_Some. exact Ha. }
  apply (render_semantic_change_same _ _ _ _ _ _ _ _ _ _ _ _ _ _ _ (ss_objects d))
    in Hn; [|exact Hbase2].
  destruct Hn as (Ni & Ns & Nf & Nobj).
  apply (render_semantic_change_drop _ _ _ _ _ _ _ _ _ _ _ _ _ _ _ (ss_objects d))
    in Hs; [|exact Hbase3].
  destruct Hs as (Si & Ss & Sf & Sobj).
  unfold scene_triple. repeat split; assumption.
Qed.

Lemma main_loop_spec (depth change_fuel : nat) (fuel : nat) :
  forall (i : nat) (P Psc Pnsc : list string) (files : gmap string File) (st : State)
         (P' Psc' Pnsc' : list string) (files' : gmap string File) (st' : State),
    main_loop sqrt host rs properties args jargs margs templates fuel depth change_fuel
      (Z.of_nat i) P Psc Pnsc files st
      = (Ok (Some (P', Psc', Pnsc', files')), st') ->
    distinct_paths margs templates ->
    (i <= Z.to_nat (a_num_images margs))%nat ->
    loop_state margs templates i P Psc Pnsc files ->
    loop_state margs templates (Z.to_nat (a_num_images margs)) P' Psc' Pnsc' files'.
Proof.
  induction fuel as [|fuel IH];
    intros i P Psc Pnsc files st P' Psc' Pnsc' files' st' H Hdistinct Hi Hinv;
    cbn [main_loop] in H; [discriminate|].
  destruct (Z.ltb_spec (Z.of_nat i) (a_num_images margs)) as [Hlt|Hge].
  2: { apply ret_Ok in H. destruct H as [H _]. inversion H; subst.
       replace (Z.to_nat (a_num_images margs)) with i by lia. exact Hinv. }
  set (N := Z.to_nat (a_num_images margs)) in *.
  assert (HiN : (i < N)%nat) by (subst N; lia).
  set (index := (Z.of_nat i + a_start_idx margs)%Z) in *.
  destruct (NoDup_flat_map_lookup _ _ Hdistinct) as [Hnine Hothers].
  specialize (Hnine i index (image_indices_lookup margs N i HiN)).
  assert (Hold : forall k p, (k < i)%nat ->
             p ∈ nine_paths templates (Z.of_nat k + a_start_idx margs)%Z ->
             p ∉ nine_paths templates index).
  { intros k p Hk Hp Hp'.
    assert (E : k = i); [|lia].
    eapply (Hothers k i _ _ p); [apply image_indices_lookup; lia
                                |apply image_indices_lookup; exact HiN|exact Hp|exact Hp']. }
  inv_bind_as H num_objects.
  inv_bind_as H rendered. destruct rendered as [[config d] stage0].
  inv_bind_as H nonsemantic. destruct nonsemantic as [nsc stage1].
  inv_bind_as H semantic. destruct semantic as [sc stage2].
  pose proof (round_scenes _ _ _ _ _ _ _ _ _ _ _ _ _ _ _ Hrun0 Hrun1 Hrun2) as Htriple.
  clear Hrun Hrun0 Hrun1 Hrun2.
  assert (Hkeep : forall (files0 : gmap string File) (k : nat), (k < i)%nat ->
             (forall p, p ∉ nine_paths templates index -> files0 !! p = files !! p) ->
             exists d s n,
               files0 !! default_scene_template templates
                           (Z.of_nat k + a_start_idx margs)%Z = Some (SceneJson d) /\
               files0 !! semantic_scene_template templates
                           (Z.of_nat k + a_start_idx margs)%Z = Some (SceneJson s) /\
               files0 !! nonsemantic_scene_template templates
                           (Z.of_nat k + a_start_idx margs)%Z = Some (SceneJson n) /\
               scene_triple margs templates (Z.of_nat k + a_start_idx margs)%Z d s n).
  { intros files0 k Hk Hframe.
    destruct Hinv as (_ & _ & _ & Hall). destruct (Hall k Hk) as (d0 & s0 & n0 & Fd & Fs & Fn & T).
    exists d0, s0, n0.
    rewrite !Hframe
      by (apply (Hold k _ Hk); unfold nine_paths; apply list_elem_of_In; cbn [In]; tauto).
    split; [exact Fd|]. split; [exact Fs|]. split; [exact Fn|exact T]. }
  set (files1 := write_outputs files (default_img_template templates index)
                   (default_scene_template templates index)
                   (blend_path margs (default_blend_template templates) index) d) in *.
  set (files2 := written files1 nsc (nonsemantic_img_template templates index)
                   (nonsemantic_scene_template templates index)
                   (blend_path margs (nonsemantic_blend_template templates) index)) in *.
  set (files3 := written files2 sc (semantic_img_template templates index)
                   (semantic_scene_template templates index)
                   (blend_path margs (semantic_blend_template templates) index)) in *.
  assert (Hframe3 : forall p : string, p ∉ nine_paths templates index -> files3 !! p = files !! p).
  { intros p Hp. apply outside_nine in Hp.
    destruct Hp as ((D1 & D2 & D3) & (N1 & N2 & N3) & (S1 & S2 & S3)).
    unfold files3, files2. rewrite !written_lookup by assumption.
    change files1 with (written files (Some d) (default_img_template templates index)
                          (default_scene_template templates index)
                          (blend_path margs (default_blend_template templates) index)).
    apply written_lookup; assumption. }
  assert (Hrec : forall (files0 : gmap string File) (sta : State),
             (forall p, p ∉ nine_paths templates index -> files0 !! p = files !! p) ->
             main_loop sqrt host rs properties args jargs margs templates fuel depth
               change_fuel (Z.of_nat i) P Psc Pnsc files0 sta
             = (Ok (Some (P', Psc', Pnsc', files')), st') ->
             loop_state margs templates N P' Psc' Pnsc' files').
  { intros files0 sta Hframe Hloop.
    apply (IH i P Psc Pnsc files0 sta P' Psc' Pnsc' files' st' Hloop Hdistinct Hi).
    destruct Hinv as (EP & EPsc & EPnsc & _).
    split; [exact EP|]. split; [exact EPsc|]. split; [exact EPnsc|].
    intros k Hk. exact (Hkeep files0 k Hk Hframe). }
  assert (Hreject :
    match remove_outputs files3 (default_img_template templates index)
            (default_scene_template templates index)
            (blend_path margs (default_blend_template templates) index) with
    | None => ret None
    | Some files4 =>
        match removed files4 nsc (nonsemantic_img_template templates index)
                (nonsemantic_scene_template templates index)
                (blend_path margs (nonsemantic_blend_template templates) index) with
        | None => ret None
        | Some files5 =>
            match removed files5 sc (semantic_img_template templates index)
                    (semantic_scene_template templates index)
                    (blend_path margs (semantic_blend_template templates) index) with
            | None => ret None
            | Some files6 =>
                main_loop sqrt host rs properties args jargs margs templates fuel depth
                  change_fuel (Z.of_nat i) P Psc Pnsc files6
            end
        end
    end st3 = (Ok (Some (P', Psc', Pnsc', files')), st') ->
    loop_state margs templates N P' Psc' Pnsc' files').
  { intros Hr.
    destruct (remove_outputs files3 _ _ _) as [files4|] eqn:E4;
      [|apply ret_Ok in Hr; destruct Hr as [Hr _]; discriminate].
    destruct (removed files4 nsc _ _ _) as [files5|] eqn:E5;
      [|apply ret_Ok in Hr; destruct Hr as [Hr _]; discriminate].
    destruct (removed files5 sc _ _ _) as [files6|] eqn:E6;
      [|apply ret_Ok in Hr; destruct Hr as [Hr _]; discriminate].
    apply (Hrec files6 st3); [|exact Hr].
    intros p Hp. pose proof (Hframe3 p Hp) as F3. apply outside_nine in Hp.
    destruct Hp as ((D1 & D2 & D3) & (N1 & N2 & N3) & (S1 & S2 & S3)).
    rewrite (removed_lookup margs _ _ _ _ _ _ _ p E6 S1 S2 S3).
    rewrite (removed_lookup margs _ _ _ _ _ _ _ p E5 N1 N2 N3).
    change (remove_outputs files3 (default_img_template templates index)
              (default_scene_template templates index)
              (blend_path margs (default_blend_template templates) index))
      with (removed files3 (Some d) (default_img_template templates index)
              (default_scene_template templates index)
              (blend_path margs (default_blend_template templates) index)) in E4.
    rewrite (removed_lookup margs _ _ _ _ _ _ _ p E4 D1 D2 D3). exact F3. }
  destruct sc as [s|]; [|exact (Hreject H)].
  destruct nsc as [n|]; [|exact (Hreject H)].
  clear Hreject Hrec.
  replace (Z.of_nat i + 1)%Z with (Z.of_nat (S i)) in H by lia.
  apply (IH (S i) _ _ _ files3 st3 P' Psc' Pnsc' files' st' H Hdistinct ltac:(lia)).
  destruct Hinv as (EP & EPsc & EPnsc & Hall).
  unfold loop_state. rewrite image_indices_S, !map_app. cbn [map]. fold index.
  split; [rewrite EP; reflexivity|]. split; [rewrite EPsc; reflexivity|].
  split; [rewrite EPnsc; reflexivity|].
  intros k Hk. destruct (decide (k = i)) as [->|Hne].
  - fold index. exists d, s, n.
    assert (Hd : forall a b x y, nine_paths templates index !! a = Some x ->
                   nine_paths templates index !! b = Some y -> a <> b -> x <> y)
      by (intros a b x y; apply nine_paths_differ; exact Hnine).
    split; [|split; [|split; [|exact (Htriple s n eq_refl eq_refl)]]].
    + unfold files3, files2.
      rewrite (written_lookup margs)
        by first [apply (Hd 1 6)%nat; [reflexivity|reflexivity|lia]
                 |apply (Hd 1 7)%nat; [reflexivity|reflexivity|lia]
                 |apply (Hd 1 8)%nat; [reflexivity|reflexivity|lia]].
      rewrite (written_lookup margs)
        by first [apply (Hd 1 3)%nat; [reflexivity|reflexivity|lia]
                 |apply (Hd 1 4)%nat; [reflexivity|reflexivity|lia]
                 |apply (Hd 1 5)%nat; [reflexivity|reflexivity|lia]].
      apply (written_scene margs files d).
      apply (Hd 1 2)%nat; [reflexivity|reflexivity|lia].
    + unfold files3. apply (written_scene margs files2 s).
      apply (Hd 7 8)%nat; [reflexivity|reflexivity|lia].
    + unfold files3, files2.
      rewrite (written_lookup margs)
        by first [apply (Hd 4 6)%nat; [reflexivity|reflexivity|lia]
                 |apply (Hd 4 7)%nat; [reflexivity|reflexivity|lia]
                 |apply (Hd 4 8)%nat; [reflexivity|reflexivity|lia]].
      apply (written_scene margs files1 n).
      apply (Hd 4 5)%nat; [reflexivity|reflexivity|lia].
  - apply (Hkeep files3 k ltac:(lia) Hframe3).
Qed.

End MainLoop.

(** ** The three output files of [main] *)

Lemma loop_state_start (margs : MainArgs) (templates : Templates)
    (files : gmap string File) :
  loop_state margs templates 0 [] [] [] files.
Proof.
  unfold loop_state, image_indices. cbn [seq map].
  repeat (split; [reflexivity|]). intros k Hk. lia.
Qed.

Lemma image_indices_length (margs : MainArgs) (n : nat) :
  length (image_indices margs n) = n.
Proof. unfold image_indices. rewrite length_map, length_seq. reflexivity. Qed.

(** When [main] ends and no two of the paths of its images are the
    same, each of the three output files lists [num_images] scenes, and
    the scenes at one position of the three lists are those of one
    image index: they carry that index, the split of the command line
    and the name of their own image, the nonsemantic scene has the
    objects of the default scene up to ['pixel_coords'], and the
    semantic scene has them but one. *)
Theorem main_pairs (sqrt : Q -> Q) (host : Host) (rs : RandomSource)
    (properties : Properties) (args : Args) (jargs : JitterArgs) (margs : MainArgs)
    (templates : Templates) (fuel depth change_fuel : nat)
    (files files' : gmap string File) (st st' : State)
    (output sc_output nsc_output : Output) :
  distinct_paths margs templates ->
  main sqrt host rs properties args jargs margs templates fuel depth change_fuel files st
  = (Ok (Some (output, sc_output, nsc_output, files')), st') ->
  (length (out_scenes output) = Z.to_nat (a_num_images margs) /\
   length (out_scenes sc_output) = Z.to_nat (a_num_images margs) /\
   length (out_scenes nsc_output) = Z.to_nat (a_num_images margs)) /\
  forall (k : nat) (d s n : SceneStruct),
    out_scenes output !! k = Some d ->
    out_scenes sc_output !! k = Some s ->
    out_scenes nsc_output !! k = Some n ->
    scene_triple margs templates (Z.of_nat k + a_start_idx margs)%Z d s n.
Proof.
  intros Hdistinct H. unfold main in H.
  inv_bind_as H looped.
  destruct looped as [[[[P Psc] Pnsc] files1]|];
    [|apply ret_Ok in H; destruct H as [H _]; discriminate].
  destruct (load_scenes files1 P) as [all_scenes|] eqn:EP;
    [|apply ret_Ok in H; destruct H as [H _]; discriminate].
  destruct (load_scenes files1 Psc) as [all_sc_scenes|] eqn:EPsc;
    [|apply ret_Ok in H; destruct H as [H _]; discriminate].
  destruct (load_scenes files1 Pnsc) as [all_nsc_scenes|] eqn:EPnsc;
    [|apply ret_Ok in H; destruct H as [H _]; discriminate].
  apply ret_Ok in H. destruct H as [H _]. inversion H; subst; clear H.
  cbn [out_scenes output_of].
  apply (main_loop_spec _ _ _ _ _ _ _ _ _ _ _ 0%nat) in Hrun;
    [|exact Hdistinct|lia|apply loop_state_start].
  destruct Hrun as (-> & -> & -> & Hall).
  apply load_scenes_lookup in EP, EPsc, EPnsc.
  destruct EP as [LP FP], EPsc as [LPsc FPsc], EPnsc as [LPnsc FPnsc].
  rewrite length_map, image_indices_length in LP, LPsc, LPnsc.
  split; [repeat split; assumption|].
  intros k d s n Hd Hs Hn.
  assert (Hk : (k < Z.to_nat (a_num_images margs))%nat)
    by (rewrite <- LP; apply lookup_lt_Some in Hd; exact Hd).
  destruct (Hall k Hk) as (d0 & s0 & n0 & Fd & Fs & Fn & T).
  pose proof (image_indices_lookup margs _ k Hk) as Hidx.
  assert (E : forall template : Z -> string,
             map template (image_indices margs (Z.to_nat (a_num_images margs))) !! k
             = Some (template (Z.of_nat k + a_start_idx margs)%Z)).
  { intros template. change (map template ?l) with (template <$> l).
    rewrite list_lookup_fmap, Hidx. reflexivity. }
  pose proof (FP k _ d (E _) Hd) as Gd.
  pose proof (FPsc k _ s (E _) Hs) as Gs.
  pose proof (FPnsc k _ n (E _) Hn) as Gn.
  rewrite Fd in Gd. rewrite Fs in Gs. rewrite Fn in Gn.
  inversion Gd; inversion Gs; inversion Gn; subst. exact T.
Qed.

Lemma demo_main_run :
  main sqrt_micro demo_host main_random demo_properties demo_args demo_jitters
    demo_main_args demo_templates 10 3 5 ∅ empty_state
  = (Ok (Some (demo_output, demo_sc_output, demo_nsc_output, demo_main_files)),
     demo_main_state).
Proof. vm_compute. reflexivity. Qed.

Lemma demo_distinct_paths : distinct_paths demo_main_args demo_templates.
Proof.
  unfold distinct_paths. apply (bool_decide_unpack (NoDup _)). vm_compute. exact I.
Qed.

Lemma main_pairs_witness :
  distinct_paths demo_main_args demo_templates /\
  (length (out_scenes demo_output) = Z.to_nat (a_num_images demo_main_args) /\
   length (out_scenes demo_sc_output) = Z.to_nat (a_num_images demo_main_args) /\
   length (out_scenes demo_nsc_output) = Z.to_nat (a_num_images demo_main_args)) /\
  forall (k : nat) (d s n : SceneStruct),
    out_scenes demo_output !! k = Some d ->
    out_scenes demo_sc_output !! k = Some s ->
    out_scenes demo_nsc_output !! k = Some n ->
    scene_triple demo_main_args demo_templates
      (Z.of_nat k + a_start_idx demo_main_args)%Z d s n.
Proof.
  split; [exact demo_distinct_paths|].
  exact (main_pairs sqrt_micro demo_host main_random demo_properties demo_args
           demo_jitters demo_main_args demo_templates 10 3 5 ∅ demo_main_files
           empty_state demo_main_state demo_output demo_sc_output demo_nsc_output
           demo_distinct_paths demo_main_run).
Defined.
